(** * GoalWeaver: goal graph, adaptive planner and shared state store

    A shallow embedding of [goalweaver/types.py], [goalweaver/goal_graph.py],
    [goalweaver/planner.py] and [goalweaver/memory.py], with the snapshot
    writer of [goalweaver/runtime.py], the registry of
    [goalweaver/tools.py] and [slugify] of [gw_code/utils.py].

    Python dictionaries keep insertion order, and that order is observable
    here (node iteration, topological order, the stable sort of the planner),
    so dictionaries are association lists with dictionary update semantics.
    An exception does not roll back what a method has already done, so every
    method returns the state it leaves behind together with its outcome. *)

From Stdlib Require Import List String ZArith Lia Bool Permutation Sorted.
Import ListNotations.
Local Open Scope string_scope.
Local Open Scope list_scope.
Set Warnings "-register-all".

(** ** Values *)

(** A JSON-like Python value ([Any] in the source).  Numbers are integers;
    floating point numbers are outside this model. *)
Inductive json : Type :=
| JNull
| JBool (b : bool)
| JInt (z : Z)
| JStr (s : string)
| JList (l : list json)
| JDict (d : list (string * json)).

(** Python exceptions raised on the paths modelled below. *)
Inductive exn : Type :=
| KeyError
| TypeError
| AttributeError
| ValueError
| AssertionError
| RuntimeError
| NetworkXUnfeasible
| NetworkXError.

Inductive result (A : Type) : Type :=
| Ok (a : A)
| Raise (e : exn).
Arguments Ok {A} a.
Arguments Raise {A} e.

(** ** Insertion-ordered dictionaries *)

Section Dict.
Context {V : Type}.

Fixpoint lookup (k : string) (d : list (string * V)) : option V :=
  match d with
  | [] => None
  | (k', v) :: r => if String.eqb k k' then Some v else lookup k r
  end.

(** [d[k] = v]: an existing key keeps its position, a new key goes last. *)
Fixpoint upsert (k : string) (v : V) (d : list (string * V)) : list (string * V) :=
  match d with
  | [] => [(k, v)]
  | (k', v') :: r =>
      if String.eqb k k' then (k', v) :: r else (k', v') :: upsert k v r
  end.

(** [del d[k]] *)
Fixpoint remove_key (k : string) (d : list (string * V)) : list (string * V) :=
  match d with
  | [] => []
  | (k', v') :: r =>
      if String.eqb k k' then r else (k', v') :: remove_key k r
  end.

Definition keys (d : list (string * V)) : list string := map fst d.

Definition has_key (k : string) (d : list (string * V)) : bool :=
  match lookup k d with Some _ => true | None => false end.

(** [d.update(other)] *)
Definition update_all (d other : list (string * V)) : list (string * V) :=
  fold_left (fun acc kv => upsert (fst kv) (snd kv) acc) other d.
End Dict.

(** ** types.py *)

Inductive Priority : Type := LOW | MEDIUM | HIGH | CRITICAL.

(** [int(priority)] *)
Definition priority_int (p : Priority) : Z :=
  match p with LOW => 1 | MEDIUM => 2 | HIGH => 3 | CRITICAL => 4 end.

Inductive GoalStatus : Type :=
| PENDING | READY | IN_PROGRESS | BLOCKED | DONE | FAILED.

Definition status_eqb (a b : GoalStatus) : bool :=
  match a, b with
  | PENDING, PENDING | READY, READY | IN_PROGRESS, IN_PROGRESS
  | BLOCKED, BLOCKED | DONE, DONE | FAILED, FAILED => true
  | _, _ => false
  end.

Record Goal : Type := mkGoal {
  id : string;
  title : string;
  description : string;
  owner_agent : option string;
  priority : Priority;
  status : GoalStatus;
  dependencies : list string;
  metadata : list (string * json);
  created_at : Z;
  updated_at : Z
}.

(** [status.value] *)
Definition status_value (s : GoalStatus) : string :=
  match s with
  | PENDING => "pending"
  | READY => "ready"
  | IN_PROGRESS => "in_progress"
  | BLOCKED => "blocked"
  | DONE => "done"
  | FAILED => "failed"
  end.

(** [goal.status = s] *)
Definition with_status (s : GoalStatus) (goal : Goal) : Goal :=
  {| id := id goal; title := title goal; description := description goal;
     owner_agent := owner_agent goal; priority := priority goal;
     status := s; dependencies := dependencies goal;
     metadata := metadata goal; created_at := created_at goal;
     updated_at := updated_at goal |}.

(** ** The networkx [DiGraph] underneath the goal graph

    [nodes] is the node dictionary in insertion order; the attribute
    dictionary of a node only ever holds the key ['goal'], so it is an
    [option Goal]: [None] for a node that [add_edge] created on its own.
    [edges] lists every edge [(u, v)] once, in insertion order, which gives
    the iteration order of both [successors] and [predecessors]. *)

Module nx.

Record DiGraph : Type := mkDiGraph {
  nodes : list (string * option Goal);
  edges : list (string * string)
}.

Definition empty_graph : DiGraph := {| nodes := []; edges := [] |}.

Definition has_node (g : DiGraph) (n : string) : bool := has_key n (nodes g).

Definition has_edge (g : DiGraph) (u v : string) : bool :=
  existsb (fun e => String.eqb (fst e) u && String.eqb (snd e) v) (edges g).

(** [G.add_node(n, goal=goal)]: a new node, or new attributes for an old one. *)
Definition add_node (g : DiGraph) (n : string) (goal : Goal) : DiGraph :=
  {| nodes := upsert n (Some goal) (nodes g); edges := edges g |}.

(** The node [add_edge] creates when an endpoint is missing: no attributes. *)
Definition touch_node (n : string) (ns : list (string * option Goal))
  : list (string * option Goal) :=
  if has_key n ns then ns else ns ++ [(n, None)].

(** [G.add_edge(u, v)]: missing endpoints are created, [u] first. *)
Definition add_edge (g : DiGraph) (u v : string) : DiGraph :=
  {| nodes := touch_node v (touch_node u (nodes g));
     edges := if has_edge g u v then edges g else edges g ++ [(u, v)] |}.

(** [G.successors(n)] / [G.neighbors(n)] *)
Definition successors (g : DiGraph) (n : string) : list string :=
  map snd (filter (fun e => String.eqb (fst e) n) (edges g)).

(** [G.predecessors(n)] *)
Definition predecessors (g : DiGraph) (n : string) : list string :=
  map fst (filter (fun e => String.eqb (snd e) n) (edges g)).

Definition in_degree (g : DiGraph) (n : string) : Z :=
  Z.of_nat (List.length (predecessors g n)).

(** *** [nx.topological_sort]

    Kahn's algorithm by generations, as [nx.topological_generations] runs
    it: [indegree_map] holds the nodes of positive in-degree, and a node
    joins the next generation when its count reaches zero. *)

Fixpoint process_children (children : list string)
    (indegree_map : list (string * Z)) (zero_indegree : list string)
  : result (list (string * Z) * list string) :=
  match children with
  | [] => Ok (indegree_map, zero_indegree)
  | child :: rest =>
      match lookup child indegree_map with
      | None => Raise RuntimeError
      | Some d =>
          let d' := (d - 1)%Z in
          if (d' =? 0)%Z
          then process_children rest (remove_key child indegree_map)
                                (zero_indegree ++ [child])
          else process_children rest (upsert child d' indegree_map)
                                zero_indegree
      end
  end.

Fixpoint process_generation (g : DiGraph) (this_generation : list string)
    (indegree_map : list (string * Z)) (zero_indegree : list string)
  : result (list (string * Z) * list string) :=
  match this_generation with
  | [] => Ok (indegree_map, zero_indegree)
  | node :: rest =>
      if has_node g node then
        match process_children (successors g node) indegree_map zero_indegree with
        | Ok (m, z) => process_generation g rest m z
        | Raise e => Raise e
        end
      else Raise RuntimeError
  end.

(** How the generator ends: exhausted, by an exception, or (in this model
    only) because the loop counter ran out. *)
Inductive gen_end : Type :=
| GenDone
| GenRaise (e : exn)
| GenFuel.

(** The [while zero_indegree:] loop; the nodes yielded so far come first. *)
Fixpoint generations (fuel : nat) (g : DiGraph)
    (indegree_map : list (string * Z)) (zero_indegree : list string)
  : list string * gen_end :=
  match zero_indegree with
  | [] =>
      match indegree_map with
      | [] => ([], GenDone)
      | _ :: _ => ([], GenRaise NetworkXUnfeasible)
      end
  | _ :: _ =>
      match fuel with
      | O => ([], GenFuel)
      | S fuel' =>
          match process_generation g zero_indegree indegree_map [] with
          | Raise e => ([], GenRaise e)
          | Ok (m, z) =>
              let (ys, fin) := generations fuel' g m z in
              (zero_indegree ++ ys, fin)
          end
      end
  end.

Definition initial_indegree_map (g : DiGraph) : list (string * Z) :=
  map (fun n => (n, in_degree g n))
      (filter (fun n => (0 <? in_degree g n)%Z) (keys (nodes g))).

Definition initial_zero_indegree (g : DiGraph) : list string :=
  filter (fun n => (in_degree g n =? 0)%Z) (keys (nodes g)).

Definition topological_run (g : DiGraph) : list string * gen_end :=
  generations (S (List.length (nodes g))) g
              (initial_indegree_map g) (initial_zero_indegree g).

(** [nx.topological_sort(G)] as a generator: the nodes it yields, and the
    exception that ends it, if any.  The loop counter never runs out
    ([topological_run_fuel] below), so the last case is dead. *)
Definition topological_sort (g : DiGraph) : list string * option exn :=
  match topological_run g with
  | (ys, GenDone) => (ys, None)
  | (ys, GenRaise e) => (ys, Some e)
  | (ys, GenFuel) => (ys, Some RuntimeError)
  end.

(** [nx.is_directed_acyclic_graph(G)]: the sort runs to its end; only
    [NetworkXUnfeasible] is caught and means a cycle. *)
Definition is_directed_acyclic_graph (g : DiGraph) : result bool :=
  match snd (topological_sort g) with
  | None => Ok true
  | Some NetworkXUnfeasible => Ok false
  | Some e => Raise e
  end.

(** [G.predecessors(n)] as a call: an unknown node is an error. *)
Definition predecessors_of (g : DiGraph) (n : string) : result (list string) :=
  if has_node g n then Ok (predecessors g n) else Raise NetworkXError.

End nx.

(** ** Methods: graph state and exceptions *)

Definition M (A : Type) : Type := nx.DiGraph -> nx.DiGraph * result A.

Definition ret {A : Type} (a : A) : M A := fun g => (g, Ok a).

Definition raise {A : Type} (e : exn) : M A := fun g => (g, Raise e).

Definition bind {A B : Type} (m : M A) (k : A -> M B) : M B :=
  fun g =>
    match m g with
    | (g', Ok a) => k a g'
    | (g', Raise e) => (g', Raise e)
    end.

Definition gets {A : Type} (f : nx.DiGraph -> A) : M A := fun g => (g, Ok (f g)).

Notation "x <- m ;; k" := (bind m (fun x => k))
  (at level 61, m at next level, right associativity).
Notation "m ;;; k" := (bind m (fun _ => k))
  (at level 61, right associativity).

(** ** goal_graph.py *)

Module GoalGraph.

(** [self.g.nodes[n]["goal"]] *)
Definition node_goal (n : string) : M Goal :=
  fun g =>
    match lookup n (nx.nodes g) with
    | Some (Some goal) => (g, Ok goal)
    | _ => (g, Raise KeyError)
    end.

(** Writing through the [Goal] object held by node [n]. *)
Definition store_goal (n : string) (goal : Goal) : M unit :=
  fun g =>
    ({| nx.nodes := upsert n (Some goal) (nx.nodes g); nx.edges := nx.edges g |},
     Ok tt).

Definition add_goal (goal : Goal) : M unit :=
  fun g => (nx.add_node g (id goal) goal, Ok tt).

Definition add_dependency (goal_id depends_on_id : string) : M unit :=
  fun g =>
    let g' := nx.add_edge g depends_on_id goal_id in
    match nx.is_directed_acyclic_graph g' with
    | Ok true => (g', Ok tt)
    | Ok false => (g', Raise AssertionError)
    | Raise e => (g', Raise e)
    end.

Definition set_status (goal_id : string) (s : GoalStatus) : M unit :=
  goal <- node_goal goal_id ;;
  store_goal goal_id (with_status s goal).

Definition get (goal_id : string) : M Goal := node_goal goal_id.

Definition is_terminal (s : GoalStatus) : bool :=
  match s with DONE | FAILED => true | _ => false end.

Definition mark_in_progress (goal_id : string) : M unit :=
  g <- get goal_id ;;
  if is_terminal (status g) then ret tt else set_status goal_id IN_PROGRESS.

Definition mark_done (goal_id : string) (success : bool) : M unit :=
  set_status goal_id (if success then DONE else FAILED).

(** [[data["goal"] for _, data in self.g.nodes(data=True)]] *)
Fixpoint goals_of (ns : list (string * option Goal)) : result (list Goal) :=
  match ns with
  | [] => Ok []
  | (_, None) :: _ => Raise KeyError
  | (_, Some goal) :: r =>
      match goals_of r with
      | Ok gs => Ok (goal :: gs)
      | Raise e => Raise e
      end
  end.

Definition goals : M (list Goal) := fun g => (g, goals_of (nx.nodes g)).

Definition predecessors (goal_id : string) : M (list string) :=
  fun g => (g, nx.predecessors_of g goal_id).

(** The statuses a readiness pass leaves alone. *)
Definition is_settled (s : GoalStatus) : bool :=
  match s with IN_PROGRESS | DONE | FAILED => true | _ => false end.

(** [all(self.g.nodes[p]["goal"].status == DONE for p in preds)], which
    stops at the first predecessor that is not done. *)
Fixpoint all_done (preds : list string) : M bool :=
  match preds with
  | [] => ret true
  | p :: rest =>
      goal <- node_goal p ;;
      if status_eqb (status goal) DONE then all_done rest else ret false
  end.

(** One turn of the loop of [recompute_readiness]. *)
Definition recompute_node (n : string) : M unit :=
  goal <- node_goal n ;;
  if is_settled (status goal) then ret tt
  else
    preds <- gets (fun g => nx.predecessors g n) ;;
    ok <- all_done preds ;;
    if ok then store_goal n (with_status READY goal)
    else store_goal n (with_status PENDING goal).

Fixpoint recompute_loop (order : list string) : M unit :=
  match order with
  | [] => ret tt
  | n :: rest => recompute_node n ;;; recompute_loop rest
  end.

(** The loop consumes the generator: the nodes it yields are visited, then
    the exception that ends it (if any) surfaces. *)
Definition recompute_readiness : M unit :=
  fun g =>
    let (order, fin) := nx.topological_sort g in
    (recompute_loop order ;;;
     match fin with None => ret tt | Some e => raise e end) g.

Fixpoint ready_loop (order : list string) (ready : list Goal) : M (list Goal) :=
  match order with
  | [] => ret ready
  | n :: rest =>
      goal <- node_goal n ;;
      if is_settled (status goal) then ready_loop rest ready
      else
        preds <- gets (fun g => nx.predecessors g n) ;;
        ok <- all_done preds ;;
        if ok then
          store_goal n (with_status READY goal) ;;;
          ready_loop rest (ready ++ [with_status READY goal])
        else
          store_goal n (with_status PENDING goal) ;;;
          ready_loop rest ready
  end.

Definition ready_goals : M (list Goal) :=
  fun g =>
    let (order, fin) := nx.topological_sort g in
    (ready <- ready_loop order [] ;;
     match fin with None => ret ready | Some e => raise e end) g.

(** One entry of the snapshot. *)
Definition state_entry (goal : Goal) (deps : list string) : json :=
  JDict [("id", JStr (id goal)); ("title", JStr (title goal));
         ("status", JStr (status_value (status goal)));
         ("dependencies", JList (map JStr deps))].

Fixpoint to_state_loop (order : list string) (goals_state : list json)
  : M (list json) :=
  match order with
  | [] => ret goals_state
  | n :: rest =>
      goal <- node_goal n ;;
      deps <- gets (fun g => nx.predecessors g n) ;;
      to_state_loop rest (goals_state ++ [state_entry goal deps])
  end.

Definition to_state : M (list (string * json)) :=
  fun g =>
    let (order, fin) := nx.topological_sort g in
    (goals_state <- to_state_loop order [] ;;
     match fin with
     | None => ret [("goals", JList goals_state)]
     | Some e => raise e
     end) g.

End GoalGraph.

(** ** planner.py *)

Module AdaptivePlanner.

(** [(-int(g.priority), len(g.dependencies))] *)
Definition sort_key (g : Goal) : Z * Z :=
  ((- priority_int (priority g))%Z, Z.of_nat (List.length (dependencies g))).

(** Tuple comparison [a <= b]. *)
Definition key_leb (a b : Z * Z) : bool :=
  (fst a <? fst b)%Z || ((fst a =? fst b)%Z && (snd a <=? snd b)%Z).

(** [list.sort(key=...)] is stable, and a stable sort has one possible
    output: the one insertion from the right builds. *)
Fixpoint insert_by_key (x : Goal) (l : list Goal) : list Goal :=
  match l with
  | [] => [x]
  | y :: r =>
      if key_leb (sort_key x) (sort_key y) then x :: l
      else y :: insert_by_key x r
  end.

Definition sort_by_key (l : list Goal) : list Goal :=
  fold_right insert_by_key [] l.

(** [l[:k]], for a [k] of either sign. *)
Definition slice_to {A : Type} (k : Z) (l : list A) : list A :=
  if (0 <=? k)%Z then firstn (Z.to_nat k) l
  else firstn (Z.to_nat (Z.of_nat (List.length l) + k)) l.

Definition next_batch (k : Z) : M (list Goal) :=
  ready <- GoalGraph.ready_goals ;;
  ret (slice_to k (sort_by_key ready)).

End AdaptivePlanner.

(** ** memory.py *)

Module SharedMemory.

(** What [json.load] finds at [state_path]: no file, a file that cannot be
    read or parsed, or a parsed document. *)
Inductive file : Type :=
| Missing
| Unreadable
| Doc (v : json).

(** The store object: the in-memory dictionary [_state] and the file at
    [_state_path].  Operations run one at a time (the lock). *)
Record store : Type := mkStore {
  _state : list (string * json);
  disk : file
}.

Definition SM (A : Type) : Type := store -> store * result A.

(** The three namespaces the store owns. *)
Definition is_owned (k : string) : bool :=
  String.eqb k "logs" || String.eqb k "artifacts" || String.eqb k "metrics".

(** The top-level keys of the document on disk. *)
Definition top_level (f : file) : list (string * json) :=
  match f with
  | Doc (JDict d) => d
  | _ => []
  end.

Section Builtins.
(** Python built-ins on values the store does not produce itself, fixed by
    the interpreter: [int] of a string, the characters of a string, and
    [dict] of a sequence of pairs. *)
Variable int_of_str : string -> result Z.
Variable chars_of_str : string -> list json.
Variable dict_of_items : list json -> result (list (string * json)).

(** [int(v)] *)
Definition py_int (v : json) : result Z :=
  match v with
  | JInt z => Ok z
  | JBool b => Ok (if b then 1 else 0)%Z
  | JStr s => int_of_str s
  | _ => Raise TypeError
  end.

(** [list(v)] *)
Definition py_list (v : json) : result (list json) :=
  match v with
  | JList l => Ok l
  | JDict d => Ok (map (fun kv => JStr (fst kv)) d)
  | JStr s => Ok (chars_of_str s)
  | _ => Raise TypeError
  end.

(** [dict(v)] *)
Definition py_dict (v : json) : result (list (string * json)) :=
  match v with
  | JDict d => Ok d
  | JList l => dict_of_items l
  | JStr s => dict_of_items (chars_of_str s)
  | _ => Raise TypeError
  end.

(** [d.get(k, default)] *)
Definition dict_get (k : string) (default : json) (d : list (string * json)) : json :=
  match lookup k d with Some v => v | None => default end.

(** [_persist]: read the file, keep what is there, overwrite the three
    owned namespaces, write the merged document (temporary file, then
    rename).  An exception before the write leaves the file as it was.
    Every value here is a JSON value, so [json.dump] has nothing to refuse;
    a write that failed would not reach the rename either. *)
Definition _persist : SM unit :=
  fun s =>
    let merged :=
      match disk s with
      | Doc (JDict current) => update_all [] current
      | _ => []
      end in
    match py_list (dict_get "logs" (JList []) (_state s)) with
    | Raise e => (s, Raise e)
    | Ok logs =>
        let merged := upsert "logs" (JList logs) merged in
        match py_dict (dict_get "artifacts" (JDict []) (_state s)) with
        | Raise e => (s, Raise e)
        | Ok artifacts =>
            let merged := upsert "artifacts" (JDict artifacts) merged in
            match py_dict (dict_get "metrics" (JDict []) (_state s)) with
            | Raise e => (s, Raise e)
            | Ok metrics =>
                let merged := upsert "metrics" (JDict metrics) merged in
                ({| _state := _state s; disk := Doc (JDict merged) |}, Ok tt)
            end
        end
    end.

Definition get (key : string) (default : json) : SM json :=
  fun s => (s, Ok (dict_get key default (_state s))).

Definition set (key : string) (value : json) : SM unit :=
  fun s => _persist {| _state := upsert key value (_state s); disk := disk s |}.

Definition append_log (item : json) : SM unit :=
  fun s =>
    match lookup "logs" (_state s) with
    | None =>
        _persist {| _state := upsert "logs" (JList [item]) (_state s);
                    disk := disk s |}
    | Some (JList l) =>
        _persist {| _state := upsert "logs" (JList (l ++ [item])) (_state s);
                    disk := disk s |}
    | Some _ => (s, Raise AttributeError)
    end.

Definition record_artifact (name : string) (value : json) : SM unit :=
  fun s =>
    match lookup "artifacts" (_state s) with
    | None =>
        _persist {| _state := upsert "artifacts" (JDict [(name, value)]) (_state s);
                    disk := disk s |}
    | Some (JDict d) =>
        _persist {| _state := upsert "artifacts" (JDict (upsert name value d)) (_state s);
                    disk := disk s |}
    | Some _ => (s, Raise TypeError)
    end.

Definition bump_metric (name : string) (inc : Z) : SM unit :=
  fun s =>
    (* m = self._state.setdefault("metrics", {}) *)
    let st :=
      match lookup "metrics" (_state s) with
      | None => upsert "metrics" (JDict []) (_state s)
      | Some _ => _state s
      end in
    match dict_get "metrics" (JDict []) st with
    | JDict m =>
        match py_int (dict_get name (JInt 0) m) with
        | Raise e => ({| _state := st; disk := disk s |}, Raise e)
        | Ok v =>
            _persist {| _state := upsert "metrics"
                                    (JDict (upsert name (JInt (v + inc)) m)) st;
                        disk := disk s |}
        end
    | _ => ({| _state := st; disk := disk s |}, Raise AttributeError)
    end.

Definition export_logs (s : store) : result (list json) :=
  py_list (dict_get "logs" (JList []) (_state s)).



(** The constructor: empty namespaces, then [_load_from_disk] adopts the
    owned namespaces of the right shape from a readable document. *)
Definition _load_from_disk (f : file) : store :=
  let st0 := [("logs", JList []); ("artifacts", JDict []); ("metrics", JDict [])] in
  let adopt (k : string) (shape : json -> bool) (d st : list (string * json)) :=
    match lookup k d with
    | Some v => if shape v then upsert k v st else st
    | None => st
    end in
  let is_list v := match v with JList _ => true | _ => false end in
  let is_dict v := match v with JDict _ => true | _ => false end in
  match f with
  | Doc (JDict d) =>
      {| _state := adopt "metrics" is_dict d
                     (adopt "artifacts" is_dict d (adopt "logs" is_list d st0));
         disk := f |}
  | _ => {| _state := st0; disk := f |}
  end.

(** The mutating operations, as a caller issues them; what a sequence of
    calls leaves behind whether or not a call raised. *)
Inductive op : Type :=
| Set_ (key : string) (value : json)
| AppendLog (item : json)
| RecordArtifact (name : string) (value : json)
| BumpMetric (name : string) (inc : Z).

Definition run_op (o : op) : SM unit :=
  match o with
  | Set_ k v => set k v
  | AppendLog item => append_log item
  | RecordArtifact n v => record_artifact n v
  | BumpMetric n inc => bump_metric n inc
  end.

Definition run_ops (os : list op) (s : store) : store :=
  fold_left (fun s o => fst (run_op o s)) os s.

(** The integer recorded under a metric name, if there is one. *)
Definition metric (s : store) (name : string) : option Z :=
  match lookup "metrics" (_state s) with
  | Some (JDict m) =>
      match lookup name m with
      | Some (JInt z) => Some z
      | _ => None
      end
  | _ => None
  end.
End Builtins.

End SharedMemory.

(** ** runtime.py: the snapshot the orchestrator writes *)

Module Orchestrator.

Section Builtins.
Variable chars_of_str : string -> list json.


End Builtins.

End Orchestrator.

(** ** tools.py: the tool registry *)

Module ToolRegistry.

Section Registry.
(** A tool is known to the registry by its [name]; [lower] is [str.lower]. *)
Variable Tool : Type.
Variable name : Tool -> string.
Variable lower : string -> string.

Definition registry : Type := list (string * Tool).

Definition register (tool : Tool) (r : registry) : registry * result unit :=
  let key := lower (name tool) in
  if has_key key r then (r, Raise ValueError)
  else (upsert key tool r, Ok tt).

Definition get (nm : string) (r : registry) : result Tool :=
  match lookup (lower nm) r with
  | Some tool => Ok tool
  | None => Raise KeyError
  end.

(** [sorted] on strings: code point order, which is the byte order of
    their UTF-8 encoding. *)
Fixpoint insert_sorted (x : string) (l : list string) : list string :=
  match l with
  | [] => [x]
  | y :: rest => if String.leb x y then x :: l else y :: insert_sorted x rest
  end.

Definition sorted (l : list string) : list string := fold_right insert_sorted [] l.

Definition list_ (r : registry) : list string := sorted (keys r).
End Registry.

End ToolRegistry.

(** ** Graph states and what the readiness pass should compute *)

(** The goal stored at node [n], if the node exists and carries one. *)
Definition goal_at (g : nx.DiGraph) (n : string) : option Goal :=
  match lookup n (nx.nodes g) with
  | Some (Some goal) => Some goal
  | _ => None
  end.

Definition status_of (g : nx.DiGraph) (n : string) : option GoalStatus :=
  option_map status (goal_at g n).

Definition is_done (g : nx.DiGraph) (n : string) : bool :=
  match status_of g n with
  | Some DONE => true
  | _ => false
  end.

(** Every dependency of [n] (every predecessor in the graph) is DONE. *)
Definition deps_done (g : nx.DiGraph) (n : string) : bool :=
  forallb (is_done g) (nx.predecessors g n).

Fixpoint nodupb (l : list string) : bool :=
  match l with
  | [] => true
  | x :: r => negb (existsb (String.eqb x) r) && nodupb r
  end.

Fixpoint edges_nodupb (l : list (string * string)) : bool :=
  match l with
  | [] => true
  | e :: r =>
      negb (existsb (fun e' => String.eqb (fst e') (fst e)
                               && String.eqb (snd e') (snd e)) r)
      && edges_nodupb r
  end.

(** What holds of every [DiGraph]: the node dictionary has each id once,
    an edge is there once, and both ends of an edge are nodes. *)
Definition well_formed (g : nx.DiGraph) : bool :=
  nodupb (keys (nx.nodes g))
  && (edges_nodupb (nx.edges g)
      && forallb (fun e => nx.has_node g (fst e) && nx.has_node g (snd e))
                 (nx.edges g)).

(** Every node was put there by [add_goal]: it carries a goal. *)
Definition goal_complete (g : nx.DiGraph) : bool :=
  forallb (fun kv => match snd kv with Some _ => true | None => false end)
          (nx.nodes g).

(** The check of the code answers yes.  On a well-formed graph that is the
    case exactly when no path leads from a node back to itself
    ([acyclic_no_cycle] below). *)
Definition acyclic (g : nx.DiGraph) : Prop :=
  nx.is_directed_acyclic_graph g = Ok true.

(** The readiness rule in the words of the specification: a goal that is
    not IN_PROGRESS, DONE or FAILED becomes READY iff all its dependencies
    are DONE, PENDING otherwise; the others keep their status. *)
Definition refreshed (g : nx.DiGraph) (n : string) (goal : Goal) : Goal :=
  if GoalGraph.is_settled (status goal) then goal
  else if deps_done g n then with_status READY goal
  else with_status PENDING goal.

Definition refresh (g : nx.DiGraph) : nx.DiGraph :=
  {| nx.nodes :=
       map (fun kv => (fst kv, option_map (refreshed g (fst kv)) (snd kv)))
           (nx.nodes g);
     nx.edges := nx.edges g |}.

Definition is_ready (goal : Goal) : bool := status_eqb (status goal) READY.

(** [sort_key a <= sort_key b] along a list. *)
Definition sorted_by_key (l : list Goal) : Prop :=
  StronglySorted
    (fun a b => AdaptivePlanner.key_leb (AdaptivePlanner.sort_key a)
                                        (AdaptivePlanner.sort_key b) = true) l.

(** The order [next_batch] promises, in the words of the specification:
    [a] may come before [b] when its priority is higher, or the priorities
    are equal and [a] has no more dependencies than [b]. *)
Definition may_precede (a b : Goal) : Prop :=
  (priority_int (priority b) < priority_int (priority a))%Z
  \/ (priority a = priority b
      /\ List.length (dependencies a) <= List.length (dependencies b)).

Definition in_batch_order (l : list Goal) : Prop := StronglySorted may_precede l.

(** Building a graph from nothing by [add_goal] alone. *)
Definition graph_of_goals (gs : list Goal) : nx.DiGraph :=
  fold_left (fun g goal => fst (GoalGraph.add_goal goal g)) gs nx.empty_graph.

(** The status-changing calls of the graph, as a caller issues them; a
    sequence goes on from whatever state a call leaves, raised or not. *)
Inductive graph_op : Type :=
| MarkInProgress (goal_id : string)
| MarkDone (goal_id : string) (success : bool)
| RecomputeReadiness
| ReadyGoals
| NextBatch (k : Z).

Definition run_graph_op (o : graph_op) (g : nx.DiGraph) : nx.DiGraph :=
  match o with
  | MarkInProgress n => fst (GoalGraph.mark_in_progress n g)
  | MarkDone n b => fst (GoalGraph.mark_done n b g)
  | RecomputeReadiness => fst (GoalGraph.recompute_readiness g)
  | ReadyGoals => fst (GoalGraph.ready_goals g)
  | NextBatch k => fst (AdaptivePlanner.next_batch k g)
  end.

Definition run_graph_ops (os : list graph_op) (g : nx.DiGraph) : nx.DiGraph :=
  fold_left (fun g o => run_graph_op o g) os g.

Definition is_mark_done_of (n : string) (o : graph_op) : bool :=
  match o with
  | MarkDone m _ => String.eqb m n
  | _ => false
  end.

(** The graph in the middle of a pass over [g]: the nodes in [visited] hold
    their refreshed goal, the others the goal they had. *)
Definition mid_pass (g : nx.DiGraph) (visited : list string) (cur : nx.DiGraph) : Prop :=
  keys (nx.nodes cur) = keys (nx.nodes g)
  /\ nx.edges cur = nx.edges g
  /\ forall k goal, goal_at g k = Some goal ->
       goal_at cur k
       = Some (if existsb (String.eqb k) visited then refreshed g k goal else goal).

(** What [ready_goals] collects at node [n]. *)
Definition ready_at (g : nx.DiGraph) (n : string) : list Goal :=
  match goal_at g n with
  | Some goal =>
      if GoalGraph.is_settled (status goal) then []
      else if deps_done g n then [with_status READY goal] else []
  | None => []
  end.

(** [goal.status = s] on the goal of node [n]. *)
Definition put_goal (n : string) (goal : Goal) (g : nx.DiGraph) : nx.DiGraph :=
  {| nx.nodes := upsert n (Some goal) (nx.nodes g); nx.edges := nx.edges g |}.

(** Two calls end the same way: both return, or both raise the same
    exception. *)
Definition same_outcome {A B : Type} (r1 : result A) (r2 : result B) : Prop :=
  match r1, r2 with
  | Ok _, Ok _ => True
  | Raise e1, Raise e2 => e1 = e2
  | _, _ => False
  end.

(** Two nodes and the edge that makes the second depend on the first. *)
Definition pair_graph (ia ib : string) (oa ob : option Goal) : nx.DiGraph :=
  {| nx.nodes := [(ia, oa); (ib, ob)]; nx.edges := [(ia, ib)] |}.

(** [g'] is [g] after a readiness pass as the specification words it: the
    same nodes and edges; a goal that was IN_PROGRESS, DONE or FAILED keeps
    its status, any other goal is READY if all its dependencies are DONE and
    PENDING otherwise; nothing but the status of a goal changes. *)
Definition follows_readiness_rule (g g' : nx.DiGraph) : Prop :=
  keys (nx.nodes g') = keys (nx.nodes g)
  /\ nx.edges g' = nx.edges g
  /\ forall n goal, goal_at g n = Some goal ->
       exists s,
         goal_at g' n = Some (with_status s goal)
         /\ s = (if GoalGraph.is_settled (status goal) then status goal
                 else if deps_done g' n then READY else PENDING)
         /\ deps_done g' n = deps_done g n.

(** Goal [a] without dependencies, goal [b] depending on [a]: a first pass,
    then [mark_done(a, True)] and a second pass. *)
Definition pair_scenario (a b : Goal) : Prop :=
  exists g1 g2,
    (GoalGraph.add_goal a ;;; GoalGraph.add_goal b ;;;
     GoalGraph.add_dependency (id b) (id a) ;;;
     GoalGraph.recompute_readiness) nx.empty_graph = (g1, Ok tt)
    /\ status_of g1 (id a) = Some READY
    /\ status_of g1 (id b) = Some PENDING
    /\ (GoalGraph.mark_done (id a) true ;;; GoalGraph.recompute_readiness) g1
       = (g2, Ok tt)
    /\ status_of g2 (id b) = Some READY.

(** The goals held by a node dictionary, in node order. *)
Definition node_goals (ns : list (string * option Goal)) : list Goal :=
  flat_map (fun kv => match snd kv with Some x => [x] | None => [] end) ns.

(** The node dictionary [add_goal] builds from goals with distinct ids. *)
Definition goal_nodes (gs : list Goal) : list (string * option Goal) :=
  map (fun x => (id x, Some x)) gs.

(** ** Sample goals and graphs *)

Definition sample_goal (i t : string) (p : Priority) (s : GoalStatus) : Goal :=
  {| id := i; title := t; description := ""; owner_agent := None;
     priority := p; status := s; dependencies := []; metadata := [];
     created_at := 0; updated_at := 0 |}.

Definition goal_A : Goal := sample_goal "A" "A" MEDIUM PENDING.
Definition goal_B : Goal := sample_goal "B" "B" MEDIUM PENDING.

(** [add_goal(A); add_goal(B); add_dependency(B, A)]: B depends on A. *)
Definition graph_AB : nx.DiGraph := pair_graph "A" "B" (Some goal_A) (Some goal_B).

(** A single goal that has finished successfully. *)
Definition graph_A_done : nx.DiGraph :=
  {| nx.nodes := [("A", Some (sample_goal "A" "A" MEDIUM DONE))]; nx.edges := [] |}.

(** A second goal object carrying the id of [goal_A]. *)
Definition goal_A_again : Goal := sample_goal "A" "A, again" HIGH PENDING.

(** Five goals, the third one CRITICAL and the others LOW. *)
Definition five_goals : list Goal :=
  [sample_goal "G0" "G0" LOW PENDING; sample_goal "G1" "G1" LOW PENDING;
   sample_goal "G2" "G2" CRITICAL PENDING; sample_goal "G3" "G3" LOW PENDING;
   sample_goal "G4" "G4" LOW PENDING].

(** ** Store operations that leave the counters alone or add to them *)

Definition keeps_counters (o : SharedMemory.op) : bool :=
  match o with
  | SharedMemory.BumpMetric _ inc => (0 <=? inc)%Z
  | SharedMemory.Set_ key _ => negb (String.eqb key "metrics")
  | _ => true
  end.

(** Stand-ins for the interpreter's built-ins, to run calls that never
    reach them. *)
Definition no_int_of_str (_ : string) : result Z := Raise ValueError.
Definition no_chars_of_str (_ : string) : list json := [].
Definition no_dict_of_items (_ : list json) : result (list (string * json)) :=
  Raise ValueError.

(** A store with one counter, and a file holding the orchestrator's goals
    next to the store's own namespaces. *)
Definition store_x5 : SharedMemory.store :=
  {| SharedMemory._state :=
       [("logs", JList []); ("artifacts", JDict []);
        ("metrics", JDict [("x", JInt 5)])];
     SharedMemory.disk :=
       SharedMemory.Doc
         (JDict [("goals", JList [JDict [("id", JStr "A"); ("status", JStr "done")]]);
                 ("logs", JList [])]) |}.

(** ** Bookkeeping of the topological sort, and cycles *)

Definition memb (x : string) (l : list string) : bool := existsb (String.eqb x) l.

(** The predecessors of [v] that the sort has not placed yet. *)
Definition waiting (g : nx.DiGraph) (placed : list string) (v : string) : list string :=
  filter (fun p => negb (memb p placed)) (nx.predecessors g v).

Definition pending_count (g : nx.DiGraph) (placed : list string) (v : string) : Z :=
  Z.of_nat (List.length (waiting g placed v)).

(** The entry [indegree_map] holds for a count: none once it is zero. *)
Definition as_entry (c : Z) : option Z := if (0 <? c)%Z then Some c else None.

(** [indegree_map] between two nodes of a generation: every node counts
    its predecessors not placed yet. *)
Definition counts_match (g : nx.DiGraph) (placed : list string)
    (m : list (string * Z)) : Prop :=
  NoDup (keys m)
  /\ forall v, lookup v m = as_entry (pending_count g placed v).

(** [indegree_map] inside the loop over the children of a node: the
    children seen so far ([seen]) have lost one. *)
Definition counts_mid (g : nx.DiGraph) (placed seen : list string)
    (m : list (string * Z)) : Prop :=
  NoDup (keys m)
  /\ forall v, lookup v m
               = as_entry (pending_count g placed v - (if memb v seen then 1 else 0)).

Definition all_placed (g : nx.DiGraph) (placed : list string) (v : string) : Prop :=
  forall p, In p (nx.predecessors g v) -> In p placed.

(** [ys] continues a topological order: each node comes after all its
    predecessors. *)
Inductive topo_from (g : nx.DiGraph) : list string -> list string -> Prop :=
| topo_nil placed : topo_from g placed []
| topo_cons placed v ys :
    all_placed g placed v -> topo_from g (v :: placed) ys ->
    topo_from g placed (v :: ys).

(** A numbering of the nodes that grows along every edge. *)
Definition ranked (g : nx.DiGraph) (rank : string -> nat) : Prop :=
  forall u v, In (u, v) (nx.edges g) -> rank u < rank v.

Fixpoint index_of (v : string) (l : list string) : nat :=
  match l with
  | [] => O
  | x :: r => if String.eqb v x then O else S (index_of v r)
  end.

(** A path of one edge or more. *)
Inductive reach (g : nx.DiGraph) : string -> string -> Prop :=
| reach_edge u v : In (u, v) (nx.edges g) -> reach g u v
| reach_step u v w : In (u, v) (nx.edges g) -> reach g v w -> reach g u w.

Definition cyclic (g : nx.DiGraph) : Prop := exists u, reach g u u.

(** ** The states the specification speaks of

    Graphs built from nothing by [add_goal], by [add_dependency] between
    goals that are there and that returned normally, and by the
    status-changing calls. *)
Inductive built : nx.DiGraph -> Prop :=
| built_empty : built nx.empty_graph
| built_add_goal g goal :
    built g -> built (fst (GoalGraph.add_goal goal g))
| built_add_dependency g a b :
    built g -> nx.has_node g a = true -> nx.has_node g b = true ->
    snd (GoalGraph.add_dependency a b g) = Ok tt ->
    built (fst (GoalGraph.add_dependency a b g))
| built_status g o :
    built g -> built (run_graph_op o g).

(** Every goal sits at the node named by its id, where [add_goal] puts it. *)
Definition ids_match (g : nx.DiGraph) : bool :=
  forallb (fun kv : string * option Goal =>
             match snd kv with
             | Some goal => String.eqb (id goal) (fst kv)
             | None => true
             end) (nx.nodes g).

(** [for g in batch: self.graph.mark_in_progress(g.id)] *)
Definition mark_batch (batch : list Goal) (g : nx.DiGraph) : nx.DiGraph :=
  fold_left (fun g x => fst (GoalGraph.mark_in_progress (id x) g)) batch g.

(** Two goals the sort of [next_batch] cannot tell apart: the same
    priority and the same number of dependencies. *)
Definition same_key (a b : Goal) : bool :=
  (fst (AdaptivePlanner.sort_key a) =? fst (AdaptivePlanner.sort_key b))%Z
  && (snd (AdaptivePlanner.sort_key a) =? snd (AdaptivePlanner.sort_key b))%Z.

(** ** The store's namespaces along a sequence of calls *)


(** Calls that do not [set] a namespace of the store to a value of the
    caller's. *)
Definition keeps_shape (o : SharedMemory.op) : bool :=
  match o with
  | SharedMemory.Set_ key _ => negb (SharedMemory.is_owned key)
  | _ => true
  end.


(** The items a sequence of calls appends to the logs. *)
Definition appended (os : list SharedMemory.op) : list json :=
  flat_map (fun o => match o with
                     | SharedMemory.AppendLog item => [item]
                     | _ => []
                     end) os.

(** The sum of the increments a sequence of calls gives to a counter. *)
Definition bumped (name : string) (os : list SharedMemory.op) : Z :=
  fold_right (fun o acc =>
                match o with
                | SharedMemory.BumpMetric n inc =>
                    if String.eqb n name then (inc + acc)%Z else acc
                | _ => acc
                end) 0%Z os.

(** The value the last [record_artifact] of a sequence of calls gave to an
    artifact, [old] when there was none. *)
Definition recorded (name : string) (os : list SharedMemory.op) (old : option json)
  : option json :=
  fold_left (fun acc o =>
               match o with
               | SharedMemory.RecordArtifact n v =>
                   if String.eqb n name then Some v else acc
               | _ => acc
               end) os old.

(** The counter as [bump_metric] reads it: a counter that is not there
    counts from 0. *)
Definition counter (s : SharedMemory.store) (name : string) : option Z :=
  match lookup "metrics" (SharedMemory._state s) with
  | Some (JDict m) =>
      match lookup name m with
      | None => Some 0%Z
      | Some (JInt z) => Some z
      | Some _ => None
      end
  | None => Some 0%Z
  | Some _ => None
  end.

(** What [_load_from_disk] takes of a namespace found in the file. *)
Definition adopted (is_list : bool) (found : option json) : json :=
  match found, is_list with
  | Some (JList l), true => JList l
  | Some (JDict d), false => JDict d
  | _, true => JList []
  | _, false => JDict []
  end.

(** ** Registering a list of tools, one call after the other; a call that
    raises leaves the registry as it was. *)
Definition register_all {Tool : Type} (name : Tool -> string)
    (lower : string -> string) (tools : list Tool)
    (r : ToolRegistry.registry Tool) : ToolRegistry.registry Tool :=
  fold_left (fun r tool => fst (ToolRegistry.register Tool name lower tool r))
            tools r.

(** ** More sample states *)

Definition goal_C : Goal := sample_goal "C" "C" HIGH PENDING.

(** B depends on A, and A has failed. *)
Definition graph_A_failed : nx.DiGraph :=
  pair_graph "A" "B" (Some (sample_goal "A" "A" MEDIUM FAILED)) (Some goal_B).


(** Calls on the store: two increments of one counter, a log line, an
    artifact and a key of the caller's. *)
Definition sample_ops : list SharedMemory.op :=
  [SharedMemory.BumpMetric "x" 2; SharedMemory.AppendLog (JStr "step");
   SharedMemory.BumpMetric "x" (-3);
   SharedMemory.RecordArtifact "result:A" (JBool true);
   SharedMemory.Set_ "world" (JDict [])].

(** ** gw_code/utils.py: [slugify]

    A character is its code point.  What [unicodedata] and [str] do before
    the loop is the interpreter's: [prepare text allow_unicode] stands for
    the characters of [text.lower().strip()] after the normalization, and
    [isalnum] for [str.isalnum] on one character. *)

Module Slug.

Definition dash : N := 45.

(** [ch in (" ", "_", "-")] *)
Definition is_separator (ch : N) : bool :=
  (ch =? 32)%N || (ch =? 95)%N || (ch =? dash)%N.

(** [s.lstrip("-")] and [s.strip("-")] *)
Fixpoint lstrip_dash (s : list N) : list N :=
  match s with
  | [] => []
  | ch :: rest => if (ch =? dash)%N then lstrip_dash rest else s
  end.

Definition strip_dash (s : list N) : list N :=
  rev (lstrip_dash (rev (lstrip_dash s))).

Section Slugify.
Variable isalnum : N -> bool.
Variable prepare : string -> bool -> list N.

(** The [for] loop, from the state [out], [prev_dash]. *)
Fixpoint slug_loop (chars out : list N) (prev_dash : bool) : list N :=
  match chars with
  | [] => out
  | ch :: rest =>
      if isalnum ch then slug_loop rest (out ++ [ch]) false
      else if is_separator ch then
        match out with
        | _ :: _ =>
            if negb prev_dash then slug_loop rest (out ++ [dash]) true
            else slug_loop rest out prev_dash
        | [] => slug_loop rest out prev_dash
        end
      else slug_loop rest out prev_dash
  end.

Definition slugify (text : string) (allow_unicode : bool) : list N :=
  strip_dash (slug_loop (prepare text allow_unicode) [] false).
End Slugify.

End Slug.

(** No two dashes in a row, and whether a string ends with a dash. *)
Fixpoint no_double_dash (s : list N) : bool :=
  match s with
  | a :: (b :: _) as r =>
      negb ((a =? Slug.dash)%N && (b =? Slug.dash)%N) && no_double_dash r
  | _ => true
  end.

Fixpoint last_is_dash (s : list N) : bool :=
  match s with
  | [] => false
  | [c] => (c =? Slug.dash)%N
  | _ :: r => last_is_dash r
  end.

(** [str.isalnum] on ASCII, and a text already lowered and stripped, one
    ASCII character per code point. *)
Definition ascii_isalnum (c : N) : bool :=
  ((48 <=? c)%N && (c <=? 57)%N) || ((65 <=? c)%N && (c <=? 90)%N)
  || ((97 <=? c)%N && (c <=? 122)%N).

Definition ascii_prepare (text : string) (_ : bool) : list N :=
  map Ascii.N_of_ascii (list_ascii_of_string text).

(** * Properties *)

(** ** Dictionaries *)

Section DictFacts.
Context {V : Type}.
Implicit Types (d : list (string * V)) (k : string) (v : V).

Lemma lookup_upsert_eq k v d : lookup k (upsert k v d) = Some v.
Proof.
  induction d as [|[k' v'] r IH]; simpl.
  - now rewrite String.eqb_refl.
  - destruct (String.eqb k k') eqn:E; simpl; rewrite E; auto.
Qed.

Lemma lookup_upsert_ne k k0 v d :
  k <> k0 -> lookup k (upsert k0 v d) = lookup k d.
Proof.
  intros Hne. induction d as [|[k' v'] r IH]; simpl.
  - destruct (String.eqb k k0) eqn:E; auto.
    apply String.eqb_eq in E. contradiction.
  - destruct (String.eqb k0 k') eqn:E; simpl.
    + apply String.eqb_eq in E. subst k'.
      destruct (String.eqb k k0) eqn:E'; auto.
      apply String.eqb_eq in E'. contradiction.
    + now rewrite IH.
Qed.

Lemma lookup_in_keys k d : lookup k d <> None <-> In k (keys d).
Proof.
  induction d as [|[k' v'] r IH]; simpl.
  - split; [congruence | tauto].
  - destruct (String.eqb k k') eqn:E.
    + apply String.eqb_eq in E. subst. split; [auto | congruence].
    + apply String.eqb_neq in E. rewrite IH. split; [auto | intros [H|H]; congruence].
Qed.

Lemma lookup_none k d : lookup k d = None <-> ~ In k (keys d).
Proof.
  rewrite <- lookup_in_keys. destruct (lookup k d); split; try congruence.
  intros H. exfalso. apply H. congruence.
Qed.

Lemma has_key_in k d : has_key k d = true <-> In k (keys d).
Proof.
  unfold has_key. rewrite <- lookup_in_keys.
  destruct (lookup k d); split; congruence.
Qed.

Lemma keys_upsert_present k v d :
  In k (keys d) -> keys (upsert k v d) = keys d.
Proof.
  induction d as [|[k' v'] r IH]; simpl; [tauto|].
  intros H. destruct (String.eqb k k') eqn:E; simpl; auto.
  apply String.eqb_neq in E. f_equal. apply IH.
  destruct H; congruence.
Qed.

Lemma keys_upsert_absent k v d :
  ~ In k (keys d) -> keys (upsert k v d) = keys d ++ [k].
Proof.
  induction d as [|[k' v'] r IH]; simpl; auto.
  intros H. destruct (String.eqb k k') eqn:E; simpl.
  - apply String.eqb_eq in E. subst. tauto.
  - f_equal. apply IH. tauto.
Qed.

Lemma lookup_of_in k v d :
  NoDup (keys d) -> In (k, v) d -> lookup k d = Some v.
Proof.
  induction d as [|[k' v'] r IH]; simpl; [tauto|].
  intros Hnd [H|H].
  - inversion H. subst. now rewrite String.eqb_refl.
  - inversion Hnd as [|? ? Hnot Hnd']. subst.
    destruct (String.eqb k k') eqn:E.
    + apply String.eqb_eq in E. subst. exfalso. apply Hnot.
      change k' with (fst (k', v)). now apply in_map.
    + auto.
Qed.

Lemma in_of_lookup k v d : lookup k d = Some v -> In (k, v) d.
Proof.
  induction d as [|[k' v'] r IH]; simpl; [congruence|].
  destruct (String.eqb k k') eqn:E.
  - apply String.eqb_eq in E. intros H. inversion H. subst. auto.
  - auto.
Qed.

(** Two dictionaries with the same keys in the same order and the same
    value under every key are the same dictionary. *)
Lemma dict_ext d1 d2 :
  NoDup (keys d1) -> keys d1 = keys d2 ->
  (forall k, lookup k d1 = lookup k d2) -> d1 = d2.
Proof.
  revert d2. induction d1 as [|[k1 v1] r1 IH]; intros [|[k2 v2] r2]; simpl;
    try congruence.
  intros Hnd Hk Hl. injection Hk as Hk1 Hk2. subst k2.
  inversion Hnd as [|? ? Hnot Hnd']. subst.
  pose proof (Hl k1) as Hv. rewrite String.eqb_refl in Hv.
  injection Hv as Hv. subst v2.
  f_equal. apply IH; auto.
  intros k. specialize (Hl k). destruct (String.eqb k k1) eqn:E; auto.
  apply String.eqb_eq in E. subst k.
  assert (Ha : lookup k1 r1 = None) by now apply lookup_none.
  assert (Hb : lookup k1 r2 = None).
  { apply lookup_none. unfold keys in *. now rewrite <- Hk2. }
  congruence.
Qed.

Lemma length_remove_key k d :
  In k (keys d) -> S (List.length (remove_key k d)) = List.length d.
Proof.
  induction d as [|[k' v'] r IH]; simpl; [tauto|].
  intros H. destruct (String.eqb k k') eqn:E; simpl; auto.
  apply String.eqb_neq in E. f_equal. apply IH. destruct H; congruence.
Qed.

Lemma keys_remove_key_perm k d :
  In k (keys d) -> Permutation (k :: keys (remove_key k d)) (keys d).
Proof.
  induction d as [|[k' v'] r IH]; simpl; [tauto|].
  intros H. destruct (String.eqb k k') eqn:E; simpl.
  - apply String.eqb_eq in E. subst. reflexivity.
  - apply String.eqb_neq in E.
    rewrite perm_swap. constructor. apply IH. destruct H; congruence.
Qed.
End DictFacts.

Lemma nodupb_NoDup l : nodupb l = true <-> NoDup l.
Proof.
  induction l as [|x r IH]; simpl.
  - split; [constructor | reflexivity].
  - rewrite andb_true_iff, negb_true_iff, IH. split.
    + intros [H1 H2]. constructor; auto. intros Hin.
      assert (existsb (String.eqb x) r = true).
      { apply existsb_exists. exists x. split; auto. apply String.eqb_refl. }
      congruence.
    + intros H. inversion H as [|? ? Hnot Hnd]. subst. split; auto.
      destruct (existsb (String.eqb x) r) eqn:E; auto.
      apply existsb_exists in E. destruct E as [y [Hy Hxy]].
      apply String.eqb_eq in Hxy. subst. contradiction.
Qed.

(** ** The topological order *)

Lemma filter_split_perm {A : Type} (f h : A -> bool) (l : list A) :
  (forall x, In x l -> h x = negb (f x)) ->
  Permutation (filter f l ++ filter h l) l.
Proof.
  induction l as [|x r IH]; simpl; intros Hc; [constructor|].
  rewrite (Hc x (or_introl eq_refl)).
  assert (IH' : Permutation (filter f r ++ filter h r) r) by (apply IH; auto).
  destruct (f x); simpl.
  - now constructor.
  - rewrite <- Permutation_middle. now constructor.
Qed.

Lemma process_children_perm cs : forall m z m' z',
  nx.process_children cs m z = Ok (m', z') ->
  Permutation (z' ++ keys m') (z ++ keys m).
Proof.
  induction cs as [|c r IH]; simpl; intros m z m' z' H.
  - injection H as <- <-. reflexivity.
  - destruct (lookup c m) as [d|] eqn:El; [|discriminate].
    assert (Hin : In c (keys m)).
    { apply lookup_in_keys. congruence. }
    destruct (d - 1 =? 0)%Z.
    + apply IH in H. rewrite H. rewrite <- app_assoc. simpl.
      apply Permutation_app_head. now apply keys_remove_key_perm.
    + apply IH in H. rewrite H. now rewrite keys_upsert_present.
Qed.

Lemma process_generation_perm g gen : forall m z m' z',
  nx.process_generation g gen m z = Ok (m', z') ->
  Permutation (z' ++ keys m') (z ++ keys m).
Proof.
  induction gen as [|n r IH]; simpl; intros m z m' z' H.
  - injection H as <- <-. reflexivity.
  - destruct (nx.has_node g n); [|discriminate].
    destruct (nx.process_children (nx.successors g n) m z) as [[m1 z1]|e] eqn:E;
      [|discriminate].
    apply IH in H. rewrite H. eapply process_children_perm; eauto.
Qed.

Lemma generations_step f g m n z :
  nx.generations (S f) g m (n :: z)
  = match nx.process_generation g (n :: z) m [] with
    | Raise e => ([], nx.GenRaise e)
    | Ok (m1, z1) =>
        let (ys, fin) := nx.generations f g m1 z1 in ((n :: z) ++ ys, fin)
    end.
Proof. reflexivity. Qed.

Lemma generations_perm fuel g : forall m z ys,
  nx.generations fuel g m z = (ys, nx.GenDone) ->
  Permutation ys (z ++ keys m).
Proof.
  induction fuel as [|f IH]; intros m z ys; destruct z as [|n z].
  - simpl. destruct m; intros H; inversion H. constructor.
  - simpl. intros H; discriminate H.
  - simpl. destruct m; intros H; inversion H. constructor.
  - rewrite generations_step.
    destruct (nx.process_generation g (n :: z) m []) as [[m1 z1]|e] eqn:E;
      [|intros H; discriminate H].
    destruct (nx.generations f g m1 z1) as [ys1 fin] eqn:Er.
    intros H. injection H as <- ->.
    apply IH in Er. apply process_generation_perm in E. simpl in E.
    change (Permutation ((n :: z) ++ ys1) ((n :: z) ++ keys m)).
    apply Permutation_app_head. now rewrite Er.
Qed.

Lemma in_degree_nonneg g n : (0 <= nx.in_degree g n)%Z.
Proof. unfold nx.in_degree. lia. Qed.

Lemma initial_partition g :
  Permutation (nx.initial_zero_indegree g ++ keys (nx.initial_indegree_map g))
              (keys (nx.nodes g)).
Proof.
  assert (Hk : keys (nx.initial_indegree_map g)
               = filter (fun n => (0 <? nx.in_degree g n)%Z) (keys (nx.nodes g))).
  { unfold nx.initial_indegree_map, keys. rewrite map_map. simpl. apply map_id. }
  rewrite Hk. unfold nx.initial_zero_indegree.
  apply filter_split_perm. intros x _.
  pose proof (in_degree_nonneg g x).
  destruct (Z.eqb_spec (nx.in_degree g x) 0); destruct (Z.ltb_spec 0 (nx.in_degree g x));
    simpl; auto; lia.
Qed.

(** When the sort runs to its end it has yielded every node once. *)
Lemma topological_sort_perm g order :
  nx.topological_sort g = (order, None) ->
  Permutation order (keys (nx.nodes g)).
Proof.
  unfold nx.topological_sort, nx.topological_run.
  destruct (nx.generations _ g _ _) as [ys fin] eqn:E.
  destruct fin; intros H; inversion H. subst.
  apply generations_perm in E. rewrite E. apply initial_partition.
Qed.

Lemma generations_fuel fuel g : forall m z,
  z = [] \/ List.length m < fuel ->
  snd (nx.generations fuel g m z) <> nx.GenFuel.
Proof.
  induction fuel as [|f IH]; intros m z Hf; destruct z as [|n z].
  - simpl. destruct m; simpl; discriminate.
  - destruct Hf; [discriminate | lia].
  - simpl. destruct m; simpl; discriminate.
  - rewrite generations_step.
    destruct (nx.process_generation g (n :: z) m []) as [[m1 z1]|e] eqn:E;
      [|simpl; discriminate].
    apply process_generation_perm in E.
    specialize (IH m1 z1).
    destruct (nx.generations f g m1 z1) as [ys1 fin]. simpl in *.
    apply IH.
    apply Permutation_length in E. rewrite length_app in E.
    unfold keys in E. rewrite !length_map in E.
    destruct z1; [now left | right].
    destruct Hf as [Hf|Hf]; [discriminate|]. simpl in E. lia.
Qed.

(** The loop counter of the model is never what stops the sort. *)
Lemma topological_run_fuel g : snd (nx.topological_run g) <> nx.GenFuel.
Proof.
  apply generations_fuel. right.
  unfold nx.initial_indegree_map. rewrite length_map.
  pose proof (filter_length_le (fun n => (0 <? nx.in_degree g n)%Z) (keys (nx.nodes g))).
  unfold keys in *. rewrite length_map in *. lia.
Qed.

(** ** One readiness pass *)

Lemma goal_at_lookup g n goal :
  goal_at g n = Some goal <-> lookup n (nx.nodes g) = Some (Some goal).
Proof.
  unfold goal_at. destruct (lookup n (nx.nodes g)) as [[x|]|]; split; congruence.
Qed.

Lemma node_goal_some g n goal :
  goal_at g n = Some goal -> GoalGraph.node_goal n g = (g, Ok goal).
Proof.
  intros H. apply goal_at_lookup in H. unfold GoalGraph.node_goal. now rewrite H.
Qed.

Lemma node_goal_none g n :
  goal_at g n = None -> GoalGraph.node_goal n g = (g, Raise KeyError).
Proof.
  unfold goal_at, GoalGraph.node_goal.
  destruct (lookup n (nx.nodes g)) as [[x|]|]; congruence.
Qed.

Lemma node_goal_state g n : fst (GoalGraph.node_goal n g) = g.
Proof.
  unfold GoalGraph.node_goal. destruct (lookup n (nx.nodes g)) as [[x|]|]; reflexivity.
Qed.

Lemma all_done_state preds : forall g, fst (GoalGraph.all_done preds g) = g.
Proof.
  induction preds as [|p r IH]; intros g; simpl; auto.
  unfold bind. destruct (goal_at g p) as [goal|] eqn:E.
  - rewrite (node_goal_some _ _ _ E).
    destruct (status_eqb (status goal) DONE); auto.
  - now rewrite (node_goal_none _ _ E).
Qed.

Lemma is_done_status g p goal :
  goal_at g p = Some goal -> is_done g p = status_eqb (status goal) DONE.
Proof.
  intros H. unfold is_done, status_of. rewrite H. simpl.
  now destruct (status goal).
Qed.

Lemma all_done_ok preds : forall g,
  (forall p, In p preds -> goal_at g p <> None) ->
  GoalGraph.all_done preds g = (g, Ok (forallb (is_done g) preds)).
Proof.
  induction preds as [|p r IH]; intros g H; simpl; auto.
  unfold bind. destruct (goal_at g p) as [goal|] eqn:E.
  - rewrite (node_goal_some _ _ _ E), (is_done_status _ _ _ E).
    destruct (status_eqb (status goal) DONE); simpl; auto.
    apply IH. intros q Hq. apply H. now right.
  - exfalso. apply (H p); auto. now left.
Qed.

Lemma with_status_twice s s' goal :
  with_status s (with_status s' goal) = with_status s goal.
Proof. reflexivity. Qed.

Lemma status_with_status s goal : status (with_status s goal) = s.
Proof. reflexivity. Qed.

Lemma refreshed_settled g n goal :
  GoalGraph.is_settled (status goal) = true -> refreshed g n goal = goal.
Proof. unfold refreshed. now intros ->. Qed.

Lemma refreshed_unsettled g n goal :
  GoalGraph.is_settled (status goal) = false ->
  refreshed g n goal = with_status (if deps_done g n then READY else PENDING) goal.
Proof. unfold refreshed. intros ->. now destruct (deps_done g n). Qed.

Lemma settled_refreshed g n goal :
  GoalGraph.is_settled (status (refreshed g n goal))
  = GoalGraph.is_settled (status goal).
Proof.
  unfold refreshed. destruct (GoalGraph.is_settled (status goal)) eqn:E; auto.
  now destruct (deps_done g n).
Qed.

Lemma done_refreshed g n goal :
  status_eqb (status (refreshed g n goal)) DONE = status_eqb (status goal) DONE.
Proof.
  unfold refreshed. destruct (status goal) eqn:E; simpl; rewrite ?E; auto;
    destruct (deps_done g n); auto.
Qed.


Lemma forallb_agree {A : Type} (f h : A -> bool) (l : list A) :
  (forall x, In x l -> f x = h x) -> forallb f l = forallb h l.
Proof.
  induction l as [|x r IH]; simpl; intros H; auto.
  rewrite (H x) by now left. f_equal. apply IH. intros y Hy. apply H. now right.
Qed.

Lemma mid_pass_is_done g visited cur p :
  mid_pass g visited cur -> goal_at g p <> None -> is_done cur p = is_done g p.
Proof.
  intros (_ & _ & Hg) Hp. destruct (goal_at g p) as [goal|] eqn:E; [|congruence].
  rewrite (is_done_status _ _ _ (Hg p goal E)), (is_done_status _ _ _ E).
  destruct (existsb (String.eqb p) visited); auto. apply done_refreshed.
Qed.

Lemma mid_pass_all_done g visited cur n :
  mid_pass g visited cur ->
  (forall p, In p (nx.predecessors g n) -> goal_at g p <> None) ->
  GoalGraph.all_done (nx.predecessors cur n) cur = (cur, Ok (deps_done g n)).
Proof.
  intros Hmid Hp. pose proof Hmid as (Hk & He & Hg).
  assert (Hpred : nx.predecessors cur n = nx.predecessors g n).
  { unfold nx.predecessors. now rewrite He. }
  rewrite Hpred, all_done_ok.
  - unfold deps_done. do 2 f_equal. apply forallb_agree.
    intros p Hin. eapply mid_pass_is_done; eauto.
  - intros p Hin. specialize (Hp p Hin).
    destruct (goal_at g p) as [goal|] eqn:E; [|congruence].
    rewrite (Hg p goal E). discriminate.
Qed.

Lemma mid_pass_visit g visited cur n goal :
  mid_pass g visited cur -> goal_at g n = Some goal ->
  mid_pass g (n :: visited) (put_goal n (refreshed g n goal) cur).
Proof.
  intros (Hk & He & Hg) Hn. split; [|split]; simpl.
  - rewrite keys_upsert_present; auto.
    rewrite Hk. apply lookup_in_keys. apply goal_at_lookup in Hn. congruence.
  - exact He.
  - intros k goal' Hk'. destruct (String.eqb k n) eqn:E; simpl.
    + apply String.eqb_eq in E. subst k. apply goal_at_lookup.
      simpl. rewrite lookup_upsert_eq. congruence.
    + apply String.eqb_neq in E. unfold goal_at. simpl.
      rewrite lookup_upsert_ne by auto. apply (Hg k goal' Hk').
Qed.

Lemma mid_pass_skip g visited cur n goal :
  mid_pass g visited cur -> goal_at g n = Some goal ->
  GoalGraph.is_settled (status goal) = true ->
  mid_pass g (n :: visited) cur.
Proof.
  intros (Hk & He & Hg) Hn Hs. split; [|split]; auto.
  intros k goal' Hk'. rewrite (Hg k goal' Hk'). simpl.
  destruct (String.eqb k n) eqn:E; simpl; auto.
  apply String.eqb_eq in E. subst k.
  assert (goal' = goal) by congruence. subst goal'.
  rewrite refreshed_settled by auto. now destruct (existsb _ visited).
Qed.

Lemma ready_loop_spec g :
  (forall n p, In p (nx.predecessors g n) -> goal_at g p <> None) ->
  forall order visited cur acc,
    (forall n, In n order -> goal_at g n <> None) ->
    mid_pass g visited cur ->
    exists cur',
      GoalGraph.ready_loop order acc cur
      = (cur', Ok (acc ++ flat_map (ready_at g) order))
      /\ mid_pass g (rev order ++ visited) cur'.
Proof.
  intros Hall. induction order as [|n r IH]; intros visited cur acc Hord Hmid.
  - exists cur. simpl. rewrite app_nil_r. auto.
  - destruct (goal_at g n) as [goal|] eqn:En;
      [|exfalso; apply (Hord n); [now left | assumption]].
    pose proof Hmid as (Hk & He & Hg). pose proof (Hg n goal En) as Hcur.
    assert (Hset : GoalGraph.is_settled
                     (status (if existsb (String.eqb n) visited
                              then refreshed g n goal else goal))
                   = GoalGraph.is_settled (status goal)).
    { destruct (existsb _ visited); auto. apply settled_refreshed. }
    assert (Hrest : forall m, In m r -> goal_at g m <> None)
      by (intros m Hm; apply Hord; now right).
    simpl GoalGraph.ready_loop. unfold bind at 1.
    rewrite (node_goal_some _ _ _ Hcur), Hset.
    simpl rev. rewrite <- app_assoc. simpl app.
    simpl flat_map. unfold ready_at at 1. rewrite En.
    destruct (GoalGraph.is_settled (status goal)) eqn:Es.
    + destruct (IH (n :: visited) cur acc Hrest) as (cur' & Hrun & Hmid').
      { eapply mid_pass_skip; eauto. }
      exists cur'. simpl. auto.
    + unfold bind at 1, gets. unfold bind at 1.
      rewrite (mid_pass_all_done g visited cur n Hmid (Hall n)).
      assert (Hgoal : forall s,
                 with_status s (if existsb (String.eqb n) visited
                                then refreshed g n goal else goal)
                 = with_status s goal).
      { intros s. destruct (existsb _ visited); auto.
        rewrite refreshed_unsettled by auto. apply with_status_twice. }
      pose proof (mid_pass_visit g visited cur n goal Hmid En) as Hnext.
      rewrite refreshed_unsettled in Hnext by auto.
      destruct (deps_done g n) eqn:Ed; unfold bind at 1;
        unfold GoalGraph.store_goal; rewrite Hgoal.
      * destruct (IH (n :: visited) (put_goal n (with_status READY goal) cur)
                     (acc ++ [with_status READY goal]) Hrest Hnext)
          as (cur' & Hrun & Hmid').
        exists cur'. split; auto. unfold put_goal in Hrun. rewrite Hrun.
        now rewrite <- app_assoc.
      * destruct (IH (n :: visited) (put_goal n (with_status PENDING goal) cur)
                     acc Hrest Hnext) as (cur' & Hrun & Hmid').
        exists cur'. split; auto.
Qed.

(** One turn of each loop, written out. *)
Lemma recompute_loop_cons n r g :
  GoalGraph.recompute_loop (n :: r) g
  = match goal_at g n with
    | None => (g, Raise KeyError)
    | Some goal =>
        if GoalGraph.is_settled (status goal) then GoalGraph.recompute_loop r g
        else
          match GoalGraph.all_done (nx.predecessors g n) g with
          | (g1, Ok ok) =>
              GoalGraph.recompute_loop r
                (put_goal n (with_status (if ok then READY else PENDING) goal) g1)
          | (g1, Raise e) => (g1, Raise e)
          end
    end.
Proof.
  simpl. unfold GoalGraph.recompute_node, bind, gets, GoalGraph.node_goal, goal_at.
  destruct (lookup n (nx.nodes g)) as [[goal|]|]; auto.
  destruct (GoalGraph.is_settled (status goal)); auto.
  destruct (GoalGraph.all_done (nx.predecessors g n) g) as [g1 [[|]|e]]; auto.
Qed.

Lemma ready_loop_cons n r acc g :
  GoalGraph.ready_loop (n :: r) acc g
  = match goal_at g n with
    | None => (g, Raise KeyError)
    | Some goal =>
        if GoalGraph.is_settled (status goal) then GoalGraph.ready_loop r acc g
        else
          match GoalGraph.all_done (nx.predecessors g n) g with
          | (g1, Ok ok) =>
              GoalGraph.ready_loop r
                (if ok then acc ++ [with_status READY goal] else acc)
                (put_goal n (with_status (if ok then READY else PENDING) goal) g1)
          | (g1, Raise e) => (g1, Raise e)
          end
    end.
Proof.
  simpl. unfold bind, gets, GoalGraph.node_goal, goal_at.
  destruct (lookup n (nx.nodes g)) as [[goal|]|]; auto.
  destruct (GoalGraph.is_settled (status goal)); auto.
  destruct (GoalGraph.all_done (nx.predecessors g n) g) as [g1 [[|]|e]]; auto.
Qed.

(** [ready_goals] and [recompute_readiness] run the same loop: whatever the
    graph, they leave the same state and end the same way. *)
Lemma loops_agree order : forall acc g,
  fst (GoalGraph.ready_loop order acc g) = fst (GoalGraph.recompute_loop order g)
  /\ same_outcome (snd (GoalGraph.ready_loop order acc g))
                  (snd (GoalGraph.recompute_loop order g)).
Proof.
  induction order as [|n r IH]; intros acc g.
  - simpl. auto.
  - rewrite recompute_loop_cons, ready_loop_cons.
    destruct (goal_at g n) as [goal|]; [|simpl; auto].
    destruct (GoalGraph.is_settled (status goal)); [apply IH|].
    destruct (GoalGraph.all_done (nx.predecessors g n) g) as [g1 [ok|e]];
      [apply IH | simpl; auto].
Qed.

Lemma passes_agree g :
  fst (GoalGraph.ready_goals g) = fst (GoalGraph.recompute_readiness g)
  /\ same_outcome (snd (GoalGraph.ready_goals g))
                  (snd (GoalGraph.recompute_readiness g)).
Proof.
  unfold GoalGraph.ready_goals, GoalGraph.recompute_readiness.
  destruct (nx.topological_sort g) as [order fin].
  destruct (loops_agree order [] g) as [Hs Ho]. unfold bind.
  destruct (GoalGraph.ready_loop order [] g) as [g1 [ready|e1]];
    destruct (GoalGraph.recompute_loop order g) as [g2 [u|e2]];
    simpl in *; try contradiction; subst; auto.
  destruct fin; simpl; auto.
Qed.

(** ** A whole pass over a well-formed, acyclic graph *)

Lemma acyclic_sort g :
  acyclic g <-> exists order, nx.topological_sort g = (order, None).
Proof.
  unfold acyclic, nx.is_directed_acyclic_graph.
  destruct (nx.topological_sort g) as [order [e|]]; simpl; split.
  - destruct e; discriminate.
  - intros [o H]. discriminate.
  - intros _. now exists order.
  - reflexivity.
Qed.

Lemma edges_nodupb_NoDup l : edges_nodupb l = true <-> NoDup l.
Proof.
  induction l as [|[u v] r IH]; simpl.
  - split; [constructor | reflexivity].
  - rewrite andb_true_iff, negb_true_iff, IH. split.
    + intros [H1 H2]. constructor; auto. intros Hin.
      assert (existsb (fun e' => String.eqb (fst e') u && String.eqb (snd e') v) r
              = true).
      { apply existsb_exists. exists (u, v). split; auto. simpl.
        now rewrite !String.eqb_refl. }
      congruence.
    + intros H. inversion H as [|? ? Hnot Hnd]. subst. split; auto.
      destruct (existsb _ r) eqn:E; auto.
      apply existsb_exists in E. destruct E as [[u' v'] [Hy Hxy]]. simpl in Hxy.
      apply andb_true_iff in Hxy. destruct Hxy as [Hu Hv].
      apply String.eqb_eq in Hu, Hv. subst. contradiction.
Qed.

Lemma well_formed_nodup_edges g : well_formed g = true -> NoDup (nx.edges g).
Proof.
  unfold well_formed. rewrite !andb_true_iff. intros [_ [H _]].
  now apply edges_nodupb_NoDup.
Qed.

Lemma well_formed_nodup g : well_formed g = true -> NoDup (keys (nx.nodes g)).
Proof.
  unfold well_formed. rewrite andb_true_iff. intros [H _]. now apply nodupb_NoDup.
Qed.

Lemma well_formed_edges g u v :
  well_formed g = true -> In (u, v) (nx.edges g) ->
  In u (keys (nx.nodes g)) /\ In v (keys (nx.nodes g)).
Proof.
  unfold well_formed. rewrite !andb_true_iff. intros [_ [_ H]] Hin.
  rewrite forallb_forall in H. specialize (H _ Hin). simpl in H.
  apply andb_true_iff in H. unfold nx.has_node in H.
  now rewrite !has_key_in in H.
Qed.

Lemma predecessors_in g n p :
  In p (nx.predecessors g n) <-> In (p, n) (nx.edges g).
Proof.
  unfold nx.predecessors. rewrite in_map_iff. split.
  - intros [[u v] [Hu Hin]]. apply filter_In in Hin. destruct Hin as [Hin Hv].
    simpl in *. apply String.eqb_eq in Hv. now subst.
  - intros Hin. exists (p, n). split; auto. apply filter_In. split; auto.
    apply String.eqb_refl.
Qed.

Lemma successors_in g n c :
  In c (nx.successors g n) <-> In (n, c) (nx.edges g).
Proof.
  unfold nx.successors. rewrite in_map_iff. split.
  - intros [[u v] [Hu Hin]]. apply filter_In in Hin. destruct Hin as [Hin Hv].
    simpl in *. apply String.eqb_eq in Hv. now subst.
  - intros Hin. exists (n, c). split; auto. apply filter_In. split; auto.
    apply String.eqb_refl.
Qed.

Lemma goal_complete_goal g k :
  goal_complete g = true -> In k (keys (nx.nodes g)) -> goal_at g k <> None.
Proof.
  unfold goal_complete. rewrite forallb_forall. intros H Hin.
  apply lookup_in_keys in Hin. unfold goal_at.
  destruct (lookup k (nx.nodes g)) as [og|] eqn:E; [|congruence].
  apply in_of_lookup in E. specialize (H _ E). simpl in H.
  destruct og; [discriminate | discriminate].
Qed.

Lemma lookup_map_values {V W : Type} (F : string -> V -> W) (d : list (string * V)) k :
  lookup k (map (fun kv => (fst kv, F (fst kv) (snd kv))) d)
  = option_map (F k) (lookup k d).
Proof.
  induction d as [|[k' v] r IH]; simpl; auto.
  destruct (String.eqb k k') eqn:E; auto.
  apply String.eqb_eq in E. now subst.
Qed.

Lemma keys_map_values {V W : Type} (F : string -> V -> W) (d : list (string * V)) :
  keys (map (fun kv => (fst kv, F (fst kv) (snd kv))) d) = keys d.
Proof. unfold keys. rewrite map_map. reflexivity. Qed.

Lemma goal_at_refresh g k :
  goal_at (refresh g) k = option_map (refreshed g k) (goal_at g k).
Proof.
  unfold goal_at, refresh. simpl.
  rewrite (lookup_map_values (fun k => option_map (refreshed g k))).
  destruct (lookup k (nx.nodes g)) as [[goal|]|]; reflexivity.
Qed.

Lemma mid_pass_start g : mid_pass g [] g.
Proof. repeat split. intros k goal H. exact H. Qed.

Lemma mid_pass_end g visited cur :
  well_formed g = true -> goal_complete g = true ->
  (forall k, In k (keys (nx.nodes g)) -> In k visited) ->
  mid_pass g visited cur -> cur = refresh g.
Proof.
  intros Hwf Hc Hall (Hk & He & Hg).
  destruct cur as [ns es]. unfold refresh. simpl in *. subst es. f_equal.
  apply dict_ext.
  - rewrite Hk. now apply well_formed_nodup.
  - rewrite Hk. symmetry. apply (keys_map_values (fun k => option_map (refreshed g k))).
  - intros k.
    rewrite (lookup_map_values (fun k => option_map (refreshed g k))).
    destruct (lookup k (nx.nodes g)) as [og|] eqn:E.
    + assert (Hin : In k (keys (nx.nodes g))) by (apply lookup_in_keys; congruence).
      pose proof (goal_complete_goal g k Hc Hin) as Hgoal.
      destruct (goal_at g k) as [goal|] eqn:Ek; [|congruence].
      pose proof (Hg k goal Ek) as Hcur.
      assert (Hv : existsb (String.eqb k) visited = true).
      { apply existsb_exists. exists k. split; auto. apply String.eqb_refl. }
      rewrite Hv in Hcur. apply goal_at_lookup in Hcur, Ek. simpl in Hcur.
      rewrite Hcur. rewrite Ek in E. injection E as <-. reflexivity.
    + simpl. apply lookup_none. rewrite Hk. now apply lookup_none.
Qed.

Lemma ready_goals_spec g order :
  well_formed g = true -> goal_complete g = true ->
  nx.topological_sort g = (order, None) ->
  GoalGraph.ready_goals g = (refresh g, Ok (flat_map (ready_at g) order)).
Proof.
  intros Hwf Hc Hsort. pose proof (topological_sort_perm g order Hsort) as Hperm.
  unfold GoalGraph.ready_goals. rewrite Hsort. unfold bind.
  destruct (ready_loop_spec g) with (order := order) (visited := @nil string)
    (cur := g) (acc := @nil Goal) as (cur' & Hrun & Hmid).
  - intros n p Hp. apply goal_complete_goal; auto.
    apply predecessors_in in Hp. apply (well_formed_edges g p n Hwf Hp).
  - intros n Hn. apply goal_complete_goal; auto.
    eapply Permutation_in; eauto.
  - apply mid_pass_start.
  - rewrite Hrun. simpl. unfold ret. f_equal.
    apply (mid_pass_end g (rev order ++ []) cur' Hwf Hc); [|exact Hmid].
    intros k Hk. rewrite app_nil_r. apply in_rev. rewrite rev_involutive.
    eapply Permutation_in; [symmetry|]; eauto.
Qed.

Lemma recompute_readiness_spec g :
  well_formed g = true -> goal_complete g = true -> acyclic g ->
  GoalGraph.recompute_readiness g = (refresh g, Ok tt).
Proof.
  intros Hwf Hc Ha. apply acyclic_sort in Ha. destruct Ha as [order Hsort].
  pose proof (ready_goals_spec g order Hwf Hc Hsort) as Hr.
  destruct (passes_agree g) as [Hs Ho]. rewrite Hr in Hs, Ho. simpl in Hs, Ho.
  destruct (GoalGraph.recompute_readiness g) as [g' [[]|e]]; simpl in *;
    [now subst | contradiction].
Qed.

Lemma is_done_refresh g p : is_done (refresh g) p = is_done g p.
Proof.
  unfold is_done, status_of. rewrite goal_at_refresh.
  destruct (goal_at g p) as [goal|]; simpl; auto.
  pose proof (done_refreshed g p goal) as H.
  destruct (status (refreshed g p goal)), (status goal); simpl in H; congruence.
Qed.

Lemma deps_done_refresh g n : deps_done (refresh g) n = deps_done g n.
Proof.
  unfold deps_done. simpl. apply forallb_agree. intros p _. apply is_done_refresh.
Qed.

Lemma refreshed_refresh g n goal :
  refreshed (refresh g) n (refreshed g n goal) = refreshed g n goal.
Proof.
  unfold refreshed at 1. rewrite settled_refreshed, deps_done_refresh.
  destruct (GoalGraph.is_settled (status goal)) eqn:E; auto.
  rewrite refreshed_unsettled by auto.
  destruct (deps_done g n); reflexivity.
Qed.

(** The rule of the specification is idempotent. *)
Lemma refresh_refresh g : refresh (refresh g) = refresh g.
Proof.
  unfold refresh at 1 3. f_equal. unfold refresh at 2. simpl.
  rewrite map_map. apply map_ext. intros [k [goal|]]; simpl; auto.
  now rewrite refreshed_refresh.
Qed.

Lemma keys_refresh g : keys (nx.nodes (refresh g)) = keys (nx.nodes g).
Proof. apply (keys_map_values (fun k => option_map (refreshed g k))). Qed.

Lemma has_key_ext {V W : Type} (d1 : list (string * V)) (d2 : list (string * W)) k :
  keys d1 = keys d2 -> has_key k d1 = has_key k d2.
Proof.
  intros H. destruct (has_key k d1) eqn:E1, (has_key k d2) eqn:E2; auto.
  - apply has_key_in in E1. rewrite H in E1. apply has_key_in in E1. congruence.
  - apply has_key_in in E2. rewrite <- H in E2. apply has_key_in in E2. congruence.
Qed.

Lemma process_generation_cons g n r m z :
  nx.process_generation g (n :: r) m z
  = if nx.has_node g n then
      match nx.process_children (nx.successors g n) m z with
      | Ok (m1, z1) => nx.process_generation g r m1 z1
      | Raise e => Raise e
      end
    else Raise RuntimeError.
Proof. reflexivity. Qed.

Section SortExt.
Variables g1 g2 : nx.DiGraph.
Hypothesis Hkeys : keys (nx.nodes g1) = keys (nx.nodes g2).
Hypothesis Hedges : nx.edges g1 = nx.edges g2.

Lemma has_node_ext n : nx.has_node g1 n = nx.has_node g2 n.
Proof. unfold nx.has_node. now apply has_key_ext. Qed.

Lemma process_generation_ext gen : forall m z,
  nx.process_generation g1 gen m z = nx.process_generation g2 gen m z.
Proof.
  induction gen as [|n r IH]; intros m z; [reflexivity|].
  rewrite !process_generation_cons, has_node_ext.
  unfold nx.successors. rewrite Hedges.
  destruct (nx.has_node g2 n); auto.
  destruct (nx.process_children _ m z) as [[m1 z1]|e]; auto.
Qed.

Lemma generations_ext fuel : forall m z,
  nx.generations fuel g1 m z = nx.generations fuel g2 m z.
Proof.
  induction fuel as [|f IH]; intros m z; destruct z as [|n z]; try reflexivity.
  rewrite !generations_step, process_generation_ext.
  destruct (nx.process_generation g2 (n :: z) m []) as [[m1 z1]|e]; auto.
  now rewrite IH.
Qed.

(** The order depends on the node ids and the edges, not on the goals. *)
Lemma topological_sort_ext : nx.topological_sort g1 = nx.topological_sort g2.
Proof.
  unfold nx.topological_sort, nx.topological_run.
  assert (Hl : List.length (nx.nodes g1) = List.length (nx.nodes g2)).
  { rewrite <- (length_map fst (nx.nodes g1)), <- (length_map fst (nx.nodes g2)).
    unfold keys in Hkeys. now rewrite Hkeys. }
  assert (Hd : forall n, nx.in_degree g1 n = nx.in_degree g2 n).
  { intros n. unfold nx.in_degree, nx.predecessors. now rewrite Hedges. }
  assert (Hm : nx.initial_indegree_map g1 = nx.initial_indegree_map g2).
  { unfold nx.initial_indegree_map. rewrite Hkeys.
    rewrite (filter_ext _ (fun n => (0 <? nx.in_degree g2 n)%Z))
      by (intros n; now rewrite Hd).
    apply map_ext. intros n. now rewrite Hd. }
  assert (Hz : nx.initial_zero_indegree g1 = nx.initial_zero_indegree g2).
  { unfold nx.initial_zero_indegree. rewrite Hkeys.
    apply filter_ext. intros n. now rewrite Hd. }
  now rewrite Hl, Hm, Hz, generations_ext.
Qed.
End SortExt.

Lemma topological_sort_refresh g :
  nx.topological_sort (refresh g) = nx.topological_sort g.
Proof. apply topological_sort_ext; [apply keys_refresh | reflexivity]. Qed.

Lemma acyclic_refresh g : acyclic g -> acyclic (refresh g).
Proof.
  unfold acyclic, nx.is_directed_acyclic_graph. now rewrite topological_sort_refresh.
Qed.

Lemma well_formed_refresh g : well_formed (refresh g) = well_formed g.
Proof.
  unfold well_formed. rewrite keys_refresh. do 2 f_equal. simpl.
  apply forallb_agree. intros [u v] _. simpl.
  now rewrite !(has_node_ext (refresh g) g (keys_refresh g)).
Qed.

Lemma goal_complete_refresh g : goal_complete (refresh g) = goal_complete g.
Proof.
  unfold goal_complete, refresh. simpl.
  induction (nx.nodes g) as [|[k [goal|]] r IH]; simpl; auto.
Qed.

(** ** Two goals, one depending on the other *)

Section Pair.
Variables ia ib : string.
Hypothesis Hne : ia <> ib.

Let Hab : String.eqb ia ib = false.
Proof. now apply String.eqb_neq. Qed.

Let Hba : String.eqb ib ia = false.
Proof. apply String.eqb_neq. congruence. Qed.

Lemma topological_sort_pair oa ob :
  nx.topological_sort (pair_graph ia ib oa ob) = ([ia; ib], None).
Proof.
  unfold nx.topological_sort, nx.topological_run, nx.initial_indegree_map,
    nx.initial_zero_indegree, nx.in_degree, nx.predecessors, pair_graph, keys.
  repeat (progress (simpl; unfold nx.has_node, has_key, nx.successors; simpl;
                    rewrite ?String.eqb_refl, ?Hab, ?Hba)).
  reflexivity.
Qed.

Lemma pair_acyclic oa ob : acyclic (pair_graph ia ib oa ob).
Proof. apply acyclic_sort. eexists. apply topological_sort_pair. Qed.

Lemma pair_well_formed oa ob : well_formed (pair_graph ia ib oa ob) = true.
Proof.
  unfold well_formed, nx.has_node, has_key, pair_graph, keys. simpl.
  now rewrite ?String.eqb_refl, ?Hab, ?Hba.
Qed.

Lemma pair_refresh a b :
  refresh (pair_graph ia ib (Some a) (Some b))
  = pair_graph ia ib (Some (refreshed (pair_graph ia ib (Some a) (Some b)) ia a))
               (Some (refreshed (pair_graph ia ib (Some a) (Some b)) ib b)).
Proof. reflexivity. Qed.

Lemma pair_deps_first oa ob : deps_done (pair_graph ia ib oa ob) ia = true.
Proof.
  unfold deps_done, nx.predecessors, pair_graph. simpl. now rewrite Hba.
Qed.

Lemma pair_deps_second a ob :
  deps_done (pair_graph ia ib (Some a) ob) ib = status_eqb (status a) DONE.
Proof.
  unfold deps_done, nx.predecessors, pair_graph. simpl.
  rewrite String.eqb_refl. simpl.
  unfold is_done, status_of, goal_at. simpl. rewrite String.eqb_refl. simpl.
  destruct (status a); reflexivity.
Qed.
End Pair.

(** ** The readiness pass *)

Lemma with_status_same goal : with_status (status goal) goal = goal.
Proof. now destruct goal. Qed.

Lemma refresh_follows_rule g : follows_readiness_rule g (refresh g).
Proof.
  split; [apply keys_refresh | split; [reflexivity|]].
  intros n goal Hn. rewrite goal_at_refresh, Hn. simpl.
  rewrite deps_done_refresh.
  exists (status (refreshed g n goal)). unfold refreshed.
  destruct (GoalGraph.is_settled (status goal)).
  - now rewrite with_status_same.
  - destruct (deps_done g n); simpl; auto.
Qed.

Lemma pair_scenario_holds (a b : Goal) :
  id a <> id b ->
  GoalGraph.is_settled (status a) = false ->
  GoalGraph.is_settled (status b) = false ->
  pair_scenario a b.
Proof.
  intros Hne Ha Hb.
  assert (Hab : String.eqb (id a) (id b) = false) by now apply String.eqb_neq.
  assert (Hba : String.eqb (id b) (id a) = false)
    by (apply String.eqb_neq; congruence).
  set (g0 := pair_graph (id a) (id b) (Some a) (Some b)).
  set (a1 := with_status READY a). set (b1 := with_status PENDING b).
  set (g1 := pair_graph (id a) (id b) (Some a1) (Some b1)).
  set (g1' := pair_graph (id a) (id b) (Some (with_status DONE a1)) (Some b1)).
  set (g2 := pair_graph (id a) (id b) (Some (with_status DONE a1))
                        (Some (with_status READY b1))).
  assert (Hbuild : (GoalGraph.add_goal a ;;; GoalGraph.add_goal b ;;;
                    GoalGraph.add_dependency (id b) (id a)) nx.empty_graph
                   = (g0, Ok tt)).
  { assert (Hadd : nx.add_edge
                     (nx.add_node (nx.add_node nx.empty_graph (id a) a) (id b) b)
                     (id a) (id b) = g0).
    { unfold nx.add_node, nx.add_edge, nx.touch_node, nx.has_edge, has_key. simpl.
      repeat (progress (simpl; rewrite ?String.eqb_refl, ?Hab, ?Hba)).
      reflexivity. }
    cbv beta iota zeta delta [bind GoalGraph.add_goal GoalGraph.add_dependency].
    rewrite Hadd. unfold g0.
    now rewrite (pair_acyclic (id a) (id b) Hne (Some a) (Some b)). }
  assert (H1 : GoalGraph.recompute_readiness g0 = (g1, Ok tt)).
  { rewrite recompute_readiness_spec;
      [| apply pair_well_formed; auto | reflexivity | apply pair_acyclic; auto].
    unfold g0. rewrite pair_refresh.
    rewrite !refreshed_unsettled by auto.
    rewrite pair_deps_first, pair_deps_second by auto.
    replace (status_eqb (status a) DONE) with false
      by (destruct (status a); simpl in *; congruence).
    reflexivity. }
  assert (Hmark : GoalGraph.mark_done (id a) true g1 = (g1', Ok tt)).
  { unfold GoalGraph.mark_done, GoalGraph.set_status, bind, GoalGraph.node_goal,
      GoalGraph.store_goal, g1, g1', pair_graph. simpl.
    rewrite !String.eqb_refl. simpl. rewrite !String.eqb_refl. reflexivity. }
  assert (H2 : GoalGraph.recompute_readiness g1' = (g2, Ok tt)).
  { rewrite recompute_readiness_spec;
      [| apply pair_well_formed; auto | reflexivity | apply pair_acyclic; auto].
    unfold g1'. rewrite pair_refresh.
    rewrite refreshed_settled by reflexivity.
    rewrite refreshed_unsettled by reflexivity.
    rewrite pair_deps_second by auto. reflexivity. }
  exists g1, g2. repeat split.
  - unfold bind in *.
    destruct ((GoalGraph.add_goal a) nx.empty_graph) as [ga [[]|ea]];
      [|discriminate].
    destruct (GoalGraph.add_goal b ga) as [gb [[]|eb]]; [|discriminate].
    rewrite Hbuild. exact H1.
  - unfold status_of, goal_at, g1, pair_graph. simpl. now rewrite String.eqb_refl.
  - unfold status_of, goal_at, g1, pair_graph. simpl.
    now rewrite Hba, String.eqb_refl.
  - unfold bind. rewrite Hmark. exact H2.
  - unfold status_of, goal_at, g2, pair_graph. simpl.
    now rewrite Hba, String.eqb_refl.
Qed.

(** C3: after [recompute_readiness] on an acyclic graph whose nodes all
    carry a goal, a goal that was not IN_PROGRESS, DONE or FAILED is READY
    iff all its dependencies are DONE and PENDING otherwise, and the other
    goals keep their status.  For [a] without dependencies and [b]
    depending on [a] (neither in progress nor finished when added), a first
    pass makes [a] READY and [b] PENDING, and after [mark_done(a, True)] a
    second pass makes [b] READY. *)
Theorem recompute_readiness_rule (g : nx.DiGraph) (a b : Goal) :
  well_formed g = true -> goal_complete g = true -> acyclic g ->
  id a <> id b ->
  GoalGraph.is_settled (status a) = false ->
  GoalGraph.is_settled (status b) = false ->
  (exists g', GoalGraph.recompute_readiness g = (g', Ok tt)
              /\ follows_readiness_rule g g')
  /\ pair_scenario a b.
Proof.
  intros Hwf Hc Hac Hne Ha Hb. split.
  - exists (refresh g). split.
    + now apply recompute_readiness_spec.
    + apply refresh_follows_rule.
  - now apply pair_scenario_holds.
Qed.

(** C4: on an acyclic graph, a second [recompute_readiness] right after a
    first one succeeds and changes nothing. *)
Theorem recompute_readiness_idempotent (g : nx.DiGraph) :
  well_formed g = true -> goal_complete g = true -> acyclic g ->
  exists g1,
    GoalGraph.recompute_readiness g = (g1, Ok tt)
    /\ GoalGraph.recompute_readiness g1 = (g1, Ok tt).
Proof.
  intros Hwf Hc Hac. exists (refresh g). split.
  - now apply recompute_readiness_spec.
  - rewrite recompute_readiness_spec.
    + now rewrite refresh_refresh.
    + now rewrite well_formed_refresh.
    + now rewrite goal_complete_refresh.
    + now apply acyclic_refresh.
Qed.

(** ** What [ready_goals] returns *)

Lemma goals_of_complete ns :
  forallb (fun kv : string * option Goal =>
             match snd kv with Some _ => true | None => false end) ns = true ->
  GoalGraph.goals_of ns = Ok (node_goals ns).
Proof.
  induction ns as [|[k [x|]] r IH]; simpl; intros H; auto; [|discriminate].
  now rewrite IH.
Qed.

Lemma ready_at_nodes g :
  NoDup (keys (nx.nodes g)) ->
  flat_map (ready_at g) (keys (nx.nodes g))
  = filter is_ready (node_goals (nx.nodes (refresh g))).
Proof.
  intros Hnd. unfold refresh. simpl.
  assert (Hsub : forall l, incl l (nx.nodes g) ->
            flat_map (ready_at g) (keys l)
            = filter is_ready
                (node_goals
                   (map (fun kv => (fst kv, option_map (refreshed g (fst kv)) (snd kv)))
                        l))).
  { induction l as [|[k og] r IH]; intros Hin; auto.
    assert (Hk : lookup k (nx.nodes g) = Some og).
    { apply lookup_of_in; auto. apply Hin. now left. }
    assert (IH' := IH (fun kv H => Hin kv (or_intror H))).
    simpl. rewrite IH'. unfold ready_at at 1, goal_at. rewrite Hk.
    destruct og as [x|]; simpl; auto.
    unfold refreshed, is_ready.
    destruct (GoalGraph.is_settled (status x)) eqn:Es.
    - destruct (status x); simpl in *; auto; discriminate.
    - destruct (deps_done g k); simpl; auto. }
  apply Hsub. apply incl_refl.
Qed.

Lemma ready_at_status g n x : In x (ready_at g n) -> status x = READY.
Proof.
  unfold ready_at. destruct (goal_at g n) as [goal|]; [|contradiction].
  destruct (GoalGraph.is_settled (status goal)); [contradiction|].
  destruct (deps_done g n); [|contradiction].
  intros [<-|[]]. reflexivity.
Qed.

Lemma goals_refresh g :
  goal_complete g = true ->
  GoalGraph.goals (refresh g) = (refresh g, Ok (node_goals (nx.nodes (refresh g)))).
Proof.
  intros Hc. unfold GoalGraph.goals. f_equal. apply goals_of_complete.
  rewrite <- goal_complete_refresh in Hc. exact Hc.
Qed.

Lemma ready_goals_listing g :
  well_formed g = true -> goal_complete g = true -> acyclic g ->
  exists ready,
    GoalGraph.ready_goals g = (refresh g, Ok ready)
    /\ Permutation ready (filter is_ready (node_goals (nx.nodes (refresh g))))
    /\ Forall (fun x => status x = READY) ready.
Proof.
  intros Hwf Hc Hac. apply acyclic_sort in Hac. destruct Hac as [order Hsort].
  exists (flat_map (ready_at g) order). split; [|split].
  - now apply ready_goals_spec.
  - rewrite <- ready_at_nodes by now apply well_formed_nodup.
    apply Permutation_flat_map. now apply topological_sort_perm.
  - apply Forall_forall. intros x Hx. apply in_flat_map in Hx.
    destruct Hx as [n [_ Hx]]. eapply ready_at_status; eauto.
Qed.

(** C10: on an acyclic graph whose nodes all carry a goal, [next_batch]
    (through [ready_goals]) leaves the graph exactly as
    [recompute_readiness] leaves it from the same state, and the list
    [ready_goals] returns is, up to order, the list of the goals that are
    READY in the graph after the pass. *)
Theorem next_batch_recomputes (g : nx.DiGraph) (k : Z) :
  well_formed g = true -> goal_complete g = true -> acyclic g ->
  exists g' ready all,
    GoalGraph.recompute_readiness g = (g', Ok tt)
    /\ GoalGraph.ready_goals g = (g', Ok ready)
    /\ fst (AdaptivePlanner.next_batch k g) = g'
    /\ GoalGraph.goals g' = (g', Ok all)
    /\ Permutation ready (filter is_ready all).
Proof.
  intros Hwf Hc Hac.
  destruct (ready_goals_listing g Hwf Hc Hac) as (ready & Hr & Hp & _).
  exists (refresh g), ready, (node_goals (nx.nodes (refresh g))).
  split; [now apply recompute_readiness_spec|].
  split; [exact Hr|]. split; [|split].
  - unfold AdaptivePlanner.next_batch, bind. now rewrite Hr.
  - now apply goals_refresh.
  - exact Hp.
Qed.

(** Off the acyclic case too, the two passes cannot be told apart by the
    state they leave or by how they end. *)
Lemma next_batch_state g k :
  fst (AdaptivePlanner.next_batch k g) = fst (GoalGraph.recompute_readiness g).
Proof.
  destruct (passes_agree g) as [Hs _]. rewrite <- Hs.
  unfold AdaptivePlanner.next_batch, bind.
  now destruct (GoalGraph.ready_goals g) as [g' [ready|e]].
Qed.

(** ** The planner's sort and slice *)

Lemma key_leb_total a b :
  AdaptivePlanner.key_leb a b = false -> AdaptivePlanner.key_leb b a = true.
Proof.
  unfold AdaptivePlanner.key_leb. destruct a as [a1 a2], b as [b1 b2]. simpl.
  rewrite orb_false_iff, andb_false_iff, orb_true_iff, andb_true_iff.
  rewrite !Z.ltb_ge, !Z.ltb_lt, !Z.eqb_eq, !Z.eqb_neq, !Z.leb_le, !Z.leb_gt.
  lia.
Qed.

Lemma key_leb_trans a b c :
  AdaptivePlanner.key_leb a b = true -> AdaptivePlanner.key_leb b c = true ->
  AdaptivePlanner.key_leb a c = true.
Proof.
  unfold AdaptivePlanner.key_leb.
  destruct a as [a1 a2], b as [b1 b2], c as [c1 c2]. simpl.
  rewrite !orb_true_iff, !andb_true_iff.
  rewrite !Z.ltb_lt, !Z.eqb_eq, !Z.leb_le.
  lia.
Qed.

Lemma insert_by_key_perm x l :
  Permutation (AdaptivePlanner.insert_by_key x l) (x :: l).
Proof.
  induction l as [|y r IH]; simpl; auto.
  destruct (AdaptivePlanner.key_leb _ _); auto.
  rewrite IH. apply perm_swap.
Qed.

Lemma sort_by_key_perm l : Permutation (AdaptivePlanner.sort_by_key l) l.
Proof.
  induction l as [|x r IH]; simpl; auto.
  rewrite insert_by_key_perm. now constructor.
Qed.

Lemma insert_by_key_sorted x l :
  sorted_by_key l -> sorted_by_key (AdaptivePlanner.insert_by_key x l).
Proof.
  unfold sorted_by_key. induction l as [|y r IH]; simpl; intros Hs.
  - repeat constructor.
  - inversion Hs as [|? ? Hr Hy]. subst.
    destruct (AdaptivePlanner.key_leb (AdaptivePlanner.sort_key x)
                                      (AdaptivePlanner.sort_key y)) eqn:E.
    + constructor; auto. constructor; auto.
      eapply Forall_impl; [|exact Hy]. intros z Hz.
      eapply key_leb_trans; eauto.
    + constructor; auto.
      eapply Permutation_Forall; [symmetry; apply insert_by_key_perm|].
      constructor; auto. now apply key_leb_total.
Qed.

Lemma sort_by_key_sorted l : sorted_by_key (AdaptivePlanner.sort_by_key l).
Proof.
  induction l as [|x r IH]; simpl.
  - constructor.
  - now apply insert_by_key_sorted.
Qed.

Lemma firstn_sorted n : forall l, sorted_by_key l -> sorted_by_key (firstn n l).
Proof.
  unfold sorted_by_key. induction n as [|n IH]; intros [|x r] Hs; simpl;
    try constructor.
  - apply IH. now inversion Hs.
  - inversion Hs as [|? ? Hr Hx]. subst.
    apply Forall_forall. intros y Hy. rewrite Forall_forall in Hx.
    apply Hx. rewrite <- (firstn_skipn n r). apply in_or_app. now left.
Qed.

Lemma priority_int_inj p q : priority_int p = priority_int q -> p = q.
Proof. destruct p, q; simpl; intros H; congruence || discriminate. Qed.

Lemma key_leb_may_precede a b :
  AdaptivePlanner.key_leb (AdaptivePlanner.sort_key a) (AdaptivePlanner.sort_key b)
  = true <-> may_precede a b.
Proof.
  unfold AdaptivePlanner.key_leb, AdaptivePlanner.sort_key, may_precede. simpl.
  rewrite orb_true_iff, andb_true_iff, Z.ltb_lt, Z.eqb_eq, Z.leb_le. split.
  - intros [H|[H1 H2]]; [left; lia | right].
    split; [apply priority_int_inj; lia | lia].
  - intros [H|[H1 H2]]; [left; lia | right]. rewrite H1. split; lia.
Qed.

Lemma sorted_in_batch_order l : sorted_by_key l -> in_batch_order l.
Proof.
  unfold sorted_by_key, in_batch_order.
  induction 1 as [|x r _ IH Hx]; constructor; auto.
  eapply Forall_impl; [|exact Hx]. intros y. apply key_leb_may_precede.
Qed.

Lemma in_firstn {A : Type} n (l : list A) x : In x (firstn n l) -> In x l.
Proof.
  intros H. rewrite <- (firstn_skipn n l). apply in_or_app. now left.
Qed.

Lemma slice_to_nonneg {A : Type} (k : Z) (l : list A) :
  (0 <= k)%Z -> AdaptivePlanner.slice_to k l = firstn (Z.to_nat k) l.
Proof.
  intros H. unfold AdaptivePlanner.slice_to.
  destruct (Z.leb_spec 0 k); auto. lia.
Qed.

Lemma slice_to_length {A : Type} (k : Z) (l : list A) :
  (0 <= k)%Z -> (Z.of_nat (List.length (AdaptivePlanner.slice_to k l)) <= k)%Z.
Proof.
  intros H. rewrite slice_to_nonneg by auto.
  pose proof (firstn_le_length (Z.to_nat k) l). lia.
Qed.

Lemma sort_key_with_status s x :
  AdaptivePlanner.sort_key (with_status s x) = AdaptivePlanner.sort_key x.
Proof. reflexivity. Qed.

(** ** Graphs without edges *)

Lemma upsert_absent {V : Type} k (v : V) d :
  ~ In k (keys d) -> upsert k v d = d ++ [(k, v)].
Proof.
  induction d as [|[k' v'] r IH]; simpl; auto.
  intros H. destruct (String.eqb k k') eqn:E.
  - apply String.eqb_eq in E. subst. tauto.
  - f_equal. apply IH. tauto.
Qed.

Lemma keys_goal_nodes gs : keys (goal_nodes gs) = map id gs.
Proof. unfold keys, goal_nodes. rewrite map_map. reflexivity. Qed.

Lemma add_goals_nodes gs : forall ns,
  NoDup (keys ns ++ map id gs) ->
  fold_left (fun g goal => fst (GoalGraph.add_goal goal g)) gs
            {| nx.nodes := ns; nx.edges := [] |}
  = {| nx.nodes := ns ++ goal_nodes gs; nx.edges := [] |}.
Proof.
  induction gs as [|x r IH]; intros ns Hnd; simpl.
  - now rewrite app_nil_r.
  - unfold nx.add_node. simpl.
    assert (Hx : ~ In (id x) (keys ns)).
    { intros Hin. apply NoDup_remove_2 in Hnd. apply Hnd.
      apply in_or_app. now left. }
    rewrite upsert_absent by auto. rewrite IH.
    + now rewrite <- app_assoc.
    + unfold keys in *. rewrite map_app, <- app_assoc. exact Hnd.
Qed.

Lemma graph_of_goals_nodes gs :
  NoDup (map id gs) ->
  graph_of_goals gs = {| nx.nodes := goal_nodes gs; nx.edges := [] |}.
Proof.
  intros Hnd. unfold graph_of_goals, nx.empty_graph.
  now rewrite add_goals_nodes.
Qed.

Lemma process_generation_edgeless g gen : forall m z,
  nx.edges g = [] -> (forall n, In n gen -> nx.has_node g n = true) ->
  nx.process_generation g gen m z = Ok (m, z).
Proof.
  induction gen as [|n r IH]; intros m z He Hn; [reflexivity|].
  rewrite process_generation_cons, (Hn n) by now left.
  unfold nx.successors. rewrite He. simpl.
  apply IH; auto. intros k Hk. apply Hn. now right.
Qed.

Lemma edgeless_sort ns :
  nx.topological_sort {| nx.nodes := ns; nx.edges := [] |} = (keys ns, None).
Proof.
  unfold nx.topological_sort, nx.topological_run, nx.initial_indegree_map,
    nx.initial_zero_indegree, nx.in_degree, nx.predecessors. simpl.
  assert (Hz : forall l : list string, filter (fun _ => true) l = l).
  { induction l as [|k r IH]; simpl; [|rewrite IH]; reflexivity. }
  assert (Hp : forall l : list string, filter (fun _ => false) l = []).
  { induction l as [|k r IH]; simpl; auto. }
  rewrite Hz, Hp. simpl.
  destruct (keys ns) as [|k r] eqn:Ek; [reflexivity|].
  rewrite process_generation_edgeless; auto.
  - replace (nx.generations (List.length ns) {| nx.nodes := ns; nx.edges := [] |} [] [])
      with (@nil string, nx.GenDone) by (destruct (List.length ns); reflexivity).
    simpl. now rewrite app_nil_r.
  - intros n Hn. unfold nx.has_node. simpl. apply has_key_in. now rewrite Ek.
Qed.

Lemma edgeless_acyclic ns : acyclic {| nx.nodes := ns; nx.edges := [] |}.
Proof. apply acyclic_sort. eexists. apply edgeless_sort. Qed.

Lemma goal_nodes_well_formed gs :
  NoDup (map id gs) ->
  well_formed {| nx.nodes := goal_nodes gs; nx.edges := [] |} = true.
Proof.
  intros Hnd. unfold well_formed. simpl. rewrite keys_goal_nodes.
  rewrite andb_true_r. now apply nodupb_NoDup.
Qed.

Lemma goal_nodes_complete gs :
  goal_complete {| nx.nodes := goal_nodes gs; nx.edges := [] |} = true.
Proof.
  unfold goal_complete, goal_nodes. simpl. induction gs; simpl; auto.
Qed.

Lemma goal_nodes_goal_at gs x :
  NoDup (map id gs) -> In x gs ->
  goal_at {| nx.nodes := goal_nodes gs; nx.edges := [] |} (id x) = Some x.
Proof.
  intros Hnd Hin. apply goal_at_lookup. simpl. apply lookup_of_in.
  - now rewrite keys_goal_nodes.
  - unfold goal_nodes. apply in_map_iff. now exists x.
Qed.

Lemma edgeless_ready_at gs x :
  NoDup (map id gs) -> In x gs ->
  ready_at {| nx.nodes := goal_nodes gs; nx.edges := [] |} (id x)
  = if GoalGraph.is_settled (status x) then [] else [with_status READY x].
Proof.
  intros Hnd Hin. unfold ready_at. rewrite goal_nodes_goal_at by auto.
  reflexivity.
Qed.

(** ** [next_batch] *)

Lemma next_batch_general g k :
  (0 <= k)%Z ->
  well_formed g = true -> goal_complete g = true -> acyclic g ->
  exists g' batch all,
    AdaptivePlanner.next_batch k g = (g', Ok batch)
    /\ (Z.of_nat (List.length batch) <= k)%Z
    /\ Forall (fun x => status x = READY) batch
    /\ in_batch_order batch
    /\ GoalGraph.goals g' = (g', Ok all)
    /\ incl batch all.
Proof.
  intros Hk Hwf Hc Hac.
  destruct (ready_goals_listing g Hwf Hc Hac) as (ready & Hr & Hp & Hst).
  exists (refresh g), (AdaptivePlanner.slice_to k (AdaptivePlanner.sort_by_key ready)),
    (node_goals (nx.nodes (refresh g))).
  assert (Hin : forall x,
             In x (AdaptivePlanner.slice_to k (AdaptivePlanner.sort_by_key ready)) ->
             In x ready).
  { intros x Hx. rewrite slice_to_nonneg in Hx by auto.
    apply in_firstn in Hx.
    eapply Permutation_in; [apply sort_by_key_perm | exact Hx]. }
  split; [|split; [|split; [|split; [|split]]]].
  - unfold AdaptivePlanner.next_batch, bind. now rewrite Hr.
  - now apply slice_to_length.
  - apply Forall_forall. intros x Hx. rewrite Forall_forall in Hst. auto.
  - rewrite slice_to_nonneg by auto.
    apply sorted_in_batch_order, firstn_sorted, sort_by_key_sorted.
  - now apply goals_refresh.
  - intros x Hx. apply Hin in Hx.
    eapply Permutation_in in Hx; [|exact Hp]. now apply filter_In in Hx.
Qed.

Lemma nodup_map_inj {A B : Type} (f : A -> B) (l : list A) x y :
  NoDup (map f l) -> In x l -> In y l -> f x = f y -> x = y.
Proof.
  induction l as [|a r IH]; simpl; [tauto|].
  intros Hnd Hx Hy Hf. inversion Hnd as [|? ? Hnot Hnd']. subst.
  destruct Hx as [->|Hx], Hy as [->|Hy]; auto.
  - exfalso. apply Hnot. rewrite Hf. now apply in_map.
  - exfalso. apply Hnot. rewrite <- Hf. now apply in_map.
Qed.

Lemma next_batch_critical gs c :
  NoDup (map id gs) -> In c gs -> priority c = CRITICAL ->
  (forall x, In x gs -> x <> c -> priority x = LOW) ->
  GoalGraph.is_settled (status c) = false ->
  exists g', AdaptivePlanner.next_batch 1 (graph_of_goals gs)
             = (g', Ok [with_status READY c]).
Proof.
  intros Hnd Hc Hpc Hlow Hs.
  rewrite graph_of_goals_nodes by auto.
  set (g := {| nx.nodes := goal_nodes gs; nx.edges := [] |}).
  exists (refresh g).
  unfold AdaptivePlanner.next_batch, bind.
  rewrite (ready_goals_spec g (keys (goal_nodes gs)));
    [| now apply goal_nodes_well_formed | apply goal_nodes_complete
     | apply edgeless_sort].
  unfold ret. f_equal. f_equal.
  set (ready := flat_map (ready_at g) (keys (goal_nodes gs))).
  assert (Hform : forall h, In h ready ->
             exists x, In x gs /\ h = with_status READY x).
  { intros h Hh. apply in_flat_map in Hh. destruct Hh as [n [Hn Hh]].
    rewrite keys_goal_nodes in Hn. apply in_map_iff in Hn.
    destruct Hn as [x [<- Hx]]. unfold g in Hh.
    rewrite edgeless_ready_at in Hh by auto.
    destruct (GoalGraph.is_settled (status x)); [contradiction|].
    destruct Hh as [<-|[]]. now exists x. }
  assert (Hcin : In (with_status READY c) ready).
  { apply in_flat_map. exists (id c). split.
    - rewrite keys_goal_nodes. now apply in_map.
    - unfold g. rewrite edgeless_ready_at by auto. rewrite Hs. now left. }
  pose proof (sort_by_key_sorted ready) as Hsorted.
  pose proof (sort_by_key_perm ready) as Hperm.
  destruct (AdaptivePlanner.sort_by_key ready) as [|h t] eqn:Esort.
  - exfalso. apply Permutation_nil in Hperm.
    rewrite Hperm in Hcin. contradiction.
  - unfold AdaptivePlanner.slice_to. simpl. f_equal.
    assert (Hh : In h ready).
    { eapply Permutation_in; [exact Hperm | now left]. }
    destruct (Hform h Hh) as [x [Hx ->]].
    assert (Hle : AdaptivePlanner.key_leb
                    (AdaptivePlanner.sort_key (with_status READY x))
                    (AdaptivePlanner.sort_key (with_status READY c)) = true).
    { assert (Hc' : In (with_status READY c) (with_status READY x :: t)).
      { eapply Permutation_in; [symmetry; exact Hperm | exact Hcin]. }
      inversion Hsorted as [|? ? _ Hall]. subst.
      destruct Hc' as [Heq|Hct].
      - rewrite Heq. unfold AdaptivePlanner.key_leb.
        rewrite Z.eqb_refl, Z.leb_refl. simpl. apply orb_true_r.
      - rewrite Forall_forall in Hall. now apply Hall. }
    destruct (priority x) eqn:Epx.
    1-3: exfalso; rewrite !sort_key_with_status in Hle;
      unfold AdaptivePlanner.key_leb, AdaptivePlanner.sort_key in Hle;
      rewrite Hpc, Epx in Hle; simpl in Hle; discriminate.
    assert (Hxc : x = c); [|now subst].
    destruct (string_dec (id x) (id c)) as [Hid|Hid].
    + eapply nodup_map_inj; eauto.
    + assert (Hp : priority x = LOW) by (apply Hlow; auto; congruence).
      congruence.
Qed.

(** C7: for a batch size [k >= 0], on an acyclic graph whose nodes all
    carry a goal, [next_batch(k)] returns at most [k] goals, each of them a
    goal of the graph with status READY, ordered by priority descending and
    then by number of dependencies ascending.  Over goals added to an empty
    graph (five of them, or any number; no dependencies), exactly one of
    them CRITICAL and the rest LOW, [next_batch(1)] returns the CRITICAL
    goal, the goal being neither in progress nor finished. *)
Theorem next_batch_bounded_ready_sorted
    (g : nx.DiGraph) (k : Z) (gs : list Goal) (c : Goal) :
  (0 <= k)%Z ->
  well_formed g = true -> goal_complete g = true -> acyclic g ->
  NoDup (map id gs) -> In c gs ->
  priority c = CRITICAL ->
  (forall x, In x gs -> x <> c -> priority x = LOW) ->
  GoalGraph.is_settled (status c) = false ->
  (exists g' batch all,
     AdaptivePlanner.next_batch k g = (g', Ok batch)
     /\ (Z.of_nat (List.length batch) <= k)%Z
     /\ Forall (fun x => status x = READY) batch
     /\ in_batch_order batch
     /\ GoalGraph.goals g' = (g', Ok all)
     /\ incl batch all)
  /\ (exists g', AdaptivePlanner.next_batch 1 (graph_of_goals gs)
                 = (g', Ok [with_status READY c])).
Proof.
  intros Hk Hwf Hc Hac Hnd Hin Hpc Hlow Hs. split.
  - now apply next_batch_general.
  - now apply next_batch_critical.
Qed.

(** ** Terminal statuses *)

Lemma status_of_put_ne m goal g n :
  m <> n -> status_of (put_goal m goal g) n = status_of g n.
Proof.
  intros H. unfold status_of, goal_at, put_goal. simpl.
  rewrite lookup_upsert_ne by congruence. reflexivity.
Qed.

Lemma status_of_put_eq n goal g : status_of (put_goal n goal g) n = Some (status goal).
Proof.
  unfold status_of, goal_at, put_goal. simpl. now rewrite lookup_upsert_eq.
Qed.

Lemma status_of_goal g n s :
  status_of g n = Some s <-> exists goal, goal_at g n = Some goal /\ status goal = s.
Proof.
  unfold status_of. destruct (goal_at g n) as [goal|]; simpl; split.
  - intros H. injection H as <-. now exists goal.
  - intros [x [Hx <-]]. congruence.
  - discriminate.
  - intros [x [Hx _]]. discriminate.
Qed.

Lemma set_status_eval g m s :
  GoalGraph.set_status m s g
  = match goal_at g m with
    | Some goal => (put_goal m (with_status s goal) g, Ok tt)
    | None => (g, Raise KeyError)
    end.
Proof.
  unfold GoalGraph.set_status, bind, GoalGraph.node_goal, goal_at.
  destruct (lookup m (nx.nodes g)) as [[goal|]|]; reflexivity.
Qed.

Lemma mark_in_progress_eval g m :
  GoalGraph.mark_in_progress m g
  = match goal_at g m with
    | Some goal =>
        if GoalGraph.is_terminal (status goal) then (g, Ok tt)
        else (put_goal m (with_status IN_PROGRESS goal) g, Ok tt)
    | None => (g, Raise KeyError)
    end.
Proof.
  unfold GoalGraph.mark_in_progress, GoalGraph.get, bind.
  destruct (goal_at g m) as [goal|] eqn:E.
  - rewrite (node_goal_some _ _ _ E).
    destruct (GoalGraph.is_terminal (status goal)); auto.
    now rewrite set_status_eval, E.
  - now rewrite (node_goal_none _ _ E).
Qed.

Lemma mark_in_progress_keeps g m n s :
  status_of g n = Some s -> GoalGraph.is_terminal s = true ->
  status_of (fst (GoalGraph.mark_in_progress m g)) n = Some s.
Proof.
  intros Hs Ht. rewrite mark_in_progress_eval.
  destruct (goal_at g m) as [goal|] eqn:E; auto.
  destruct (GoalGraph.is_terminal (status goal)) eqn:Et; auto. simpl.
  rewrite status_of_put_ne; auto. intros ->.
  apply status_of_goal in Hs. destruct Hs as [x [Hx <-]]. congruence.
Qed.

Lemma mark_done_other g m b n :
  m <> n -> status_of (fst (GoalGraph.mark_done m b g)) n = status_of g n.
Proof.
  intros H. unfold GoalGraph.mark_done. rewrite set_status_eval.
  destruct (goal_at g m); auto. simpl. now apply status_of_put_ne.
Qed.

Lemma mark_done_same g n b s :
  status_of g n = Some s ->
  status_of (fst (GoalGraph.mark_done n b g)) n
  = Some (if b then DONE else FAILED).
Proof.
  intros Hs. apply status_of_goal in Hs. destruct Hs as [x [Hx _]].
  unfold GoalGraph.mark_done. rewrite set_status_eval, Hx. simpl.
  now rewrite status_of_put_eq.
Qed.

Lemma terminal_settled s :
  GoalGraph.is_terminal s = true -> GoalGraph.is_settled s = true.
Proof. now destruct s. Qed.

Lemma recompute_loop_keeps order : forall g n s,
  status_of g n = Some s -> GoalGraph.is_settled s = true ->
  status_of (fst (GoalGraph.recompute_loop order g)) n = Some s.
Proof.
  induction order as [|m r IH]; intros g n s Hs Ht; auto.
  rewrite recompute_loop_cons.
  destruct (goal_at g m) as [goal|] eqn:E; auto.
  destruct (GoalGraph.is_settled (status goal)) eqn:Eg; [now apply IH|].
  pose proof (all_done_state (nx.predecessors g m) g) as Hst.
  destruct (GoalGraph.all_done (nx.predecessors g m) g) as [g1 [ok|e]];
    simpl in Hst; subst g1; auto.
  apply IH; auto. rewrite status_of_put_ne; auto. intros ->.
  apply status_of_goal in Hs. destruct Hs as [x [Hx <-]]. congruence.
Qed.

Lemma recompute_readiness_keeps g n s :
  status_of g n = Some s -> GoalGraph.is_settled s = true ->
  status_of (fst (GoalGraph.recompute_readiness g)) n = Some s.
Proof.
  intros Hs Ht. unfold GoalGraph.recompute_readiness.
  destruct (nx.topological_sort g) as [order fin]. unfold bind.
  pose proof (recompute_loop_keeps order g n s Hs Ht) as H.
  destruct (GoalGraph.recompute_loop order g) as [g1 [u|e]]; auto.
  destruct fin; auto.
Qed.

Lemma run_graph_op_keeps o g n s :
  status_of g n = Some s -> GoalGraph.is_terminal s = true ->
  is_mark_done_of n o = false ->
  status_of (run_graph_op o g) n = Some s.
Proof.
  intros Hs Ht Ho. destruct o as [m|m b| | |k]; simpl in *.
  - now apply mark_in_progress_keeps.
  - rewrite mark_done_other; auto. now apply String.eqb_neq.
  - apply recompute_readiness_keeps; auto using terminal_settled.
  - destruct (passes_agree g) as [-> _].
    apply recompute_readiness_keeps; auto using terminal_settled.
  - rewrite next_batch_state.
    apply recompute_readiness_keeps; auto using terminal_settled.
Qed.

Lemma run_graph_op_terminal o g n s :
  status_of g n = Some s -> GoalGraph.is_terminal s = true ->
  exists s', status_of (run_graph_op o g) n = Some s'
             /\ GoalGraph.is_terminal s' = true.
Proof.
  intros Hs Ht. destruct (is_mark_done_of n o) eqn:Eo.
  - destruct o as [m|m b| | |k]; try discriminate. simpl in *.
    apply String.eqb_eq in Eo. subst m.
    rewrite (mark_done_same g n b s Hs). eexists. split; eauto.
    now destruct b.
  - exists s. split; auto. now apply run_graph_op_keeps.
Qed.

(** C2: once a goal is DONE or FAILED, no sequence of [mark_in_progress],
    [recompute_readiness], [ready_goals] and [next_batch] calls changes its
    status, whatever the graph and whether or not a call raises; with
    [mark_done] calls in the sequence the status stays DONE or FAILED (a
    [mark_done] on that goal sets it again, to DONE or FAILED by its
    flag). *)
Theorem terminal_status_kept (os : list graph_op) (g : nx.DiGraph)
    (n : string) (s : GoalStatus) :
  status_of g n = Some s -> GoalGraph.is_terminal s = true ->
  (exists s', status_of (run_graph_ops os g) n = Some s'
              /\ GoalGraph.is_terminal s' = true)
  /\ (existsb (is_mark_done_of n) os = false ->
      status_of (run_graph_ops os g) n = Some s).
Proof.
  revert g s. unfold run_graph_ops.
  induction os as [|o r IH]; intros g s Hs Ht; simpl.
  - split; eauto.
  - destruct (run_graph_op_terminal o g n s Hs Ht) as (s1 & Hs1 & Ht1).
    destruct (IH _ _ Hs1 Ht1) as [Hex Hkeep]. split; auto.
    intros Hno. apply orb_false_iff in Hno. destruct Hno as [Ho Hr].
    pose proof (run_graph_op_keeps o g n s Hs Ht Ho) as Hsame.
    destruct (IH _ _ Hsame Ht) as [_ Hk]. auto.
Qed.

(** ** [add_goal] and [add_dependency] *)

Lemma lookup_app {V : Type} k (d1 d2 : list (string * V)) :
  lookup k (d1 ++ d2)
  = match lookup k d1 with Some v => Some v | None => lookup k d2 end.
Proof.
  induction d1 as [|[k' v'] r IH]; simpl; auto.
  destruct (String.eqb k k'); auto.
Qed.

Lemma has_key_touch_same n ns : has_key n (nx.touch_node n ns) = true.
Proof.
  unfold nx.touch_node. destruct (has_key n ns) eqn:E; auto.
  unfold has_key in *. rewrite lookup_app.
  destruct (lookup n ns); [discriminate|]. simpl. now rewrite String.eqb_refl.
Qed.

Lemma lookup_touch_present k n ns :
  has_key k ns = true -> lookup k (nx.touch_node n ns) = lookup k ns.
Proof.
  intros H. unfold nx.touch_node. destruct (has_key n ns); auto.
  rewrite lookup_app. unfold has_key in H. now destruct (lookup k ns).
Qed.

Lemma lookup_touch_absent n ns :
  has_key n ns = false -> lookup n (nx.touch_node n ns) = Some None.
Proof.
  intros H. unfold nx.touch_node. rewrite H. rewrite lookup_app.
  unfold has_key in H. destruct (lookup n ns); [discriminate|].
  simpl. now rewrite String.eqb_refl.
Qed.

Lemma has_key_touch_other k n ns :
  has_key k ns = true -> has_key k (nx.touch_node n ns) = true.
Proof.
  intros H. unfold has_key. rewrite lookup_touch_present by auto. exact H.
Qed.

Lemma has_edge_add_edge g u v : nx.has_edge (nx.add_edge g u v) u v = true.
Proof.
  unfold nx.add_edge, nx.has_edge at 1. simpl.
  destruct (nx.has_edge g u v) eqn:E; auto.
  rewrite existsb_app. simpl. rewrite !String.eqb_refl. simpl.
  apply orb_true_r.
Qed.

Lemma process_children_raises cs : forall m z e,
  nx.process_children cs m z = Raise e -> e = RuntimeError.
Proof.
  induction cs as [|c r IH]; simpl; intros m z e H; [discriminate|].
  destruct (lookup c m) as [d|]; [|congruence].
  destruct (d - 1 =? 0)%Z; eauto.
Qed.

Lemma process_generation_raises g gen : forall m z e,
  nx.process_generation g gen m z = Raise e -> e = RuntimeError.
Proof.
  induction gen as [|n r IH]; intros m z e; [discriminate|].
  rewrite process_generation_cons.
  destruct (nx.has_node g n); [|congruence].
  destruct (nx.process_children (nx.successors g n) m z) as [[m1 z1]|e1] eqn:E.
  - apply IH.
  - intros H. injection H as <-. eapply process_children_raises; eauto.
Qed.

Lemma generations_raises fuel g : forall m z e,
  snd (nx.generations fuel g m z) = nx.GenRaise e ->
  e = RuntimeError \/ e = NetworkXUnfeasible.
Proof.
  induction fuel as [|f IH]; intros m z e; destruct z as [|n z].
  - simpl. destruct m; simpl; intros H; [discriminate|]. injection H as <-. auto.
  - simpl. discriminate.
  - simpl. destruct m; simpl; intros H; [discriminate|]. injection H as <-. auto.
  - rewrite generations_step.
    destruct (nx.process_generation g (n :: z) m []) as [[m1 z1]|e1] eqn:E.
    + specialize (IH m1 z1 e).
      destruct (nx.generations f g m1 z1) as [ys fin]. exact IH.
    + simpl. intros H. injection H as <-. left.
      eapply process_generation_raises; eauto.
Qed.

(** The acyclicity check either answers or fails inside the sort. *)
Lemma is_directed_acyclic_graph_raises g e :
  nx.is_directed_acyclic_graph g = Raise e -> e = RuntimeError.
Proof.
  unfold nx.is_directed_acyclic_graph, nx.topological_sort.
  pose proof (generations_raises (S (List.length (nx.nodes g))) g
                (nx.initial_indegree_map g) (nx.initial_zero_indegree g)) as H.
  unfold nx.topological_run.
  destruct (nx.generations _ g _ _) as [ys fin]. simpl in *.
  destruct fin as [|e1|]; simpl; try discriminate.
  - destruct (H e1 eq_refl) as [->| ->]; [|discriminate].
    intros H1. now injection H1 as <-.
  - intros H1. now injection H1 as <-.
Qed.

Lemma add_dependency_state g a b :
  fst (GoalGraph.add_dependency a b g) = nx.add_edge g b a.
Proof.
  unfold GoalGraph.add_dependency.
  now destruct (nx.is_directed_acyclic_graph (nx.add_edge g b a)) as [[|]|e].
Qed.

(** ** What the topological sort decides *)

Lemma memb_In x l : memb x l = true <-> In x l.
Proof.
  unfold memb. rewrite existsb_exists. split.
  - intros [y [Hy E]]. apply String.eqb_eq in E. now subst.
  - intros H. exists x. split; auto. apply String.eqb_refl.
Qed.

Lemma memb_false x l : memb x l = false <-> ~ In x l.
Proof.
  rewrite <- memb_In. destruct (memb x l); split; congruence.
Qed.

Lemma memb_app x l1 l2 : memb x (l1 ++ l2) = memb x l1 || memb x l2.
Proof. apply existsb_app. Qed.

Lemma filter_out_one (u : string) (placed l : list string) :
  NoDup l -> ~ In u placed ->
  List.length (filter (fun p => negb (memb p (u :: placed))) l)
  + (if memb u l then 1 else 0)
  = List.length (filter (fun p => negb (memb p placed)) l).
Proof.
  intros Hnd Hu.
  remember (fun p => negb (memb p (u :: placed))) as f1 eqn:Ef1.
  remember (fun p => negb (memb p placed)) as f2 eqn:Ef2.
  assert (Hf : forall p, f1 p = negb (String.eqb p u) && f2 p).
  { intros p. subst. unfold memb. simpl. now rewrite negb_orb. }
  assert (Hp : f2 u = true).
  { subst. apply memb_false in Hu. now rewrite Hu. }
  induction l as [|x r IH]; auto.
  inversion Hnd as [|x' r' Hx Hr]. subst x' r'. specialize (IH Hr).
  change (filter f1 (x :: r)) with (if f1 x then x :: filter f1 r else filter f1 r).
  change (filter f2 (x :: r)) with (if f2 x then x :: filter f2 r else filter f2 r).
  change (memb u (x :: r)) with (String.eqb u x || memb u r).
  rewrite Hf. destruct (String.eqb_spec x u) as [->|Hne].
  - rewrite String.eqb_refl, Hp. simpl.
    assert (Hr' : memb u r = false) by now apply memb_false.
    rewrite Hr' in IH. lia.
  - assert (E : String.eqb u x = false) by (apply String.eqb_neq; congruence).
    rewrite E. simpl. destruct (f2 x); simpl; lia.
Qed.

Lemma nodup_predecessors g v : NoDup (nx.edges g) -> NoDup (nx.predecessors g v).
Proof.
  unfold nx.predecessors. induction (nx.edges g) as [|[a b] r IH]; simpl; intros H.
  - constructor.
  - inversion H as [|? ? Hnot Hr]. subst.
    destruct (String.eqb_spec b v) as [->|Hne]; simpl; auto.
    constructor; auto. intros Hin. apply in_map_iff in Hin.
    destruct Hin as [[a' b'] [Ha Hin]]. apply filter_In in Hin.
    destruct Hin as [Hin Hb]. simpl in *. apply String.eqb_eq in Hb. subst.
    contradiction.
Qed.

Lemma nodup_successors g u : NoDup (nx.edges g) -> NoDup (nx.successors g u).
Proof.
  unfold nx.successors. induction (nx.edges g) as [|[a b] r IH]; simpl; intros H.
  - constructor.
  - inversion H as [|? ? Hnot Hr]. subst.
    destruct (String.eqb_spec a u) as [->|Hne]; simpl; auto.
    constructor; auto. intros Hin. apply in_map_iff in Hin.
    destruct Hin as [[a' b'] [Ha Hin]]. apply filter_In in Hin.
    destruct Hin as [Hin Hb]. simpl in *. apply String.eqb_eq in Hb. subst.
    contradiction.
Qed.

Lemma memb_pred_succ g u v :
  memb u (nx.predecessors g v) = memb v (nx.successors g u).
Proof.
  destruct (memb u (nx.predecessors g v)) eqn:E1, (memb v (nx.successors g u)) eqn:E2;
    auto.
  - apply memb_In, predecessors_in, successors_in, memb_In in E1. congruence.
  - apply memb_In, successors_in, predecessors_in, memb_In in E2. congruence.
Qed.

Lemma pending_count_cons g placed u v :
  NoDup (nx.edges g) -> ~ In u placed ->
  pending_count g (u :: placed) v
  = (pending_count g placed v - (if memb v (nx.successors g u) then 1 else 0))%Z.
Proof.
  intros He Hu. unfold pending_count, waiting.
  pose proof (filter_out_one u placed (nx.predecessors g v)
                (nodup_predecessors g v He) Hu) as H.
  rewrite memb_pred_succ in H.
  destruct (memb v (nx.successors g u)); lia.
Qed.

Lemma pending_zero_placed g placed v :
  pending_count g placed v = 0%Z -> all_placed g placed v.
Proof.
  unfold pending_count, waiting, all_placed. intros H p Hp.
  destruct (memb p placed) eqn:E; [now apply memb_In|].
  assert (Hin : In p (filter (fun p => negb (memb p placed)) (nx.predecessors g v))).
  { apply filter_In. split; auto. now rewrite E. }
  destruct (filter _ _); [contradiction | simpl in H; lia].
Qed.

Lemma pending_positive g placed u v :
  In u (nx.predecessors g v) -> ~ In u placed ->
  (1 <= pending_count g placed v)%Z.
Proof.
  intros Hp Hu. unfold pending_count, waiting.
  assert (Hin : In u (filter (fun p => negb (memb p placed)) (nx.predecessors g v))).
  { apply filter_In. split; auto. apply memb_false in Hu. now rewrite Hu. }
  destruct (filter _ _); [contradiction | simpl; lia].
Qed.

Lemma all_placed_more g placed placed' v :
  incl placed placed' -> all_placed g placed v -> all_placed g placed' v.
Proof. unfold all_placed. auto. Qed.

Lemma lookup_remove_key_eq {V : Type} k (d : list (string * V)) :
  NoDup (keys d) -> lookup k (remove_key k d) = None.
Proof.
  induction d as [|[k' v'] r IH]; simpl; auto. intros H.
  inversion H as [|? ? Hnot Hr]. subst.
  destruct (String.eqb k k') eqn:E.
  - apply String.eqb_eq in E. subst. now apply lookup_none.
  - simpl. rewrite E. auto.
Qed.

Lemma lookup_remove_key_ne {V : Type} k k0 (d : list (string * V)) :
  k <> k0 -> lookup k (remove_key k0 d) = lookup k d.
Proof.
  intros Hne. induction d as [|[k' v'] r IH]; simpl; auto.
  destruct (String.eqb k0 k') eqn:E; simpl.
  - apply String.eqb_eq in E. subst.
    destruct (String.eqb k k') eqn:E'; auto.
    apply String.eqb_eq in E'. contradiction.
  - now rewrite IH.
Qed.

Lemma keys_remove_key_incl {V : Type} k (d : list (string * V)) x :
  In x (keys (remove_key k d)) -> In x (keys d).
Proof.
  induction d as [|[k' v'] r IH]; simpl; auto.
  destruct (String.eqb k k'); simpl; intuition.
Qed.

Lemma nodup_remove_key {V : Type} k (d : list (string * V)) :
  NoDup (keys d) -> NoDup (keys (remove_key k d)).
Proof.
  induction d as [|[k' v'] r IH]; simpl; auto. intros H.
  inversion H as [|? ? Hnot Hr]. subst.
  destruct (String.eqb k k'); simpl; auto.
  constructor; auto. intros Hin. apply Hnot. eapply keys_remove_key_incl; eauto.
Qed.

Lemma as_entry_positive c : (1 <= c)%Z -> as_entry c = Some c.
Proof. unfold as_entry. intros H. destruct (Z.ltb_spec 0 c); auto. lia. Qed.

Lemma as_entry_zero : as_entry 0 = None.
Proof. reflexivity. Qed.

Lemma counts_match_mid g placed m :
  counts_match g placed m -> counts_mid g placed [] m.
Proof.
  intros [Hnd Hl]. split; auto. intros v. rewrite Hl. simpl. f_equal. lia.
Qed.

Lemma counts_mid_match g placed u m :
  NoDup (nx.edges g) -> ~ In u placed ->
  counts_mid g placed (nx.successors g u) m -> counts_match g (u :: placed) m.
Proof.
  intros He Hu [Hnd Hl]. split; auto. intros v.
  rewrite Hl. now rewrite pending_count_cons.
Qed.

Section Children.
Variable g : nx.DiGraph.
Variable placed : list string.
Variable u : string.
Hypothesis Hu : ~ In u placed.

(** The loop over the children of [u] never misses an entry, and a child
    joins the next generation exactly when [u] was the last predecessor it
    was waiting for. *)
Lemma process_children_ok cs2 : forall seen m z,
  NoDup (seen ++ cs2) ->
  (forall c, In c cs2 -> In u (nx.predecessors g c)) ->
  counts_mid g placed seen m ->
  exists m' z',
    nx.process_children cs2 m z = Ok (m', z')
    /\ counts_mid g placed (seen ++ cs2) m'
    /\ forall v, In v z' ->
         In v z \/ (In v cs2 /\ pending_count g placed v = 1%Z).
Proof.
  induction cs2 as [|c r IH]; intros seen m z Hnd Hsucc [Hk Hl].
  - exists m, z. rewrite app_nil_r.
    split; [reflexivity|]. split; [split; assumption|]. auto.
  - assert (Hc : memb c seen = false).
    { apply memb_false. intros Hin. apply NoDup_remove_2 in Hnd.
      apply Hnd. apply in_or_app. now left. }
    pose proof (pending_positive g placed u c (Hsucc c (or_introl eq_refl)) Hu) as Hpos.
    pose proof (Hl c) as Hlc. rewrite Hc, Z.sub_0_r, as_entry_positive in Hlc by auto.
    simpl. rewrite Hlc.
    assert (Hnd' : NoDup ((seen ++ [c]) ++ r)) by now rewrite <- app_assoc.
    assert (Hsucc' : forall c', In c' r -> In u (nx.predecessors g c'))
      by (intros c' Hc'; apply Hsucc; now right).
    assert (Hmemb : forall v, memb v (seen ++ [c])
                              = if String.eqb v c then true else memb v seen).
    { intros v. rewrite memb_app. unfold memb at 2. simpl.
      destruct (String.eqb v c); simpl.
      - apply orb_true_r.
      - now rewrite orb_false_r. }
    destruct (Z.eqb_spec (pending_count g placed c - 1) 0) as [Hz|Hz].
    + destruct (IH (seen ++ [c]) (remove_key c m) (z ++ [c]) Hnd' Hsucc')
        as (m' & z' & Hrun & Hmid & Hz').
      { split; [now apply nodup_remove_key|]. intros v. rewrite Hmemb.
        destruct (String.eqb_spec v c) as [->|Hne].
        - rewrite Hz. now apply lookup_remove_key_eq.
        - rewrite lookup_remove_key_ne by auto. apply Hl. }
      exists m', z'. rewrite <- app_assoc in Hmid.
      split; [exact Hrun|]. split; [exact Hmid|].
      intros v Hv. destruct (Hz' v Hv) as [Hin|[Hin Hcnt]].
      * apply in_app_or in Hin. destruct Hin as [Hin|[<-|[]]]; auto.
        right. split; [now left | lia].
      * right. split; [now right | auto].
    + destruct (IH (seen ++ [c]) (upsert c (pending_count g placed c - 1)%Z m) z
                   Hnd' Hsucc') as (m' & z' & Hrun & Hmid & Hz').
      { split.
        - rewrite keys_upsert_present; auto. apply lookup_in_keys. congruence.
        - intros v. rewrite Hmemb.
          destruct (String.eqb_spec v c) as [->|Hne].
          + rewrite lookup_upsert_eq. symmetry. apply as_entry_positive. lia.
          + rewrite lookup_upsert_ne by auto. apply Hl. }
      exists m', z'. rewrite <- app_assoc in Hmid.
      split; [exact Hrun|]. split; [exact Hmid|].
      intros v Hv. destruct (Hz' v Hv) as [Hin|[Hin Hcnt]]; [now left|].
      right. split; [now right | auto].
Qed.
End Children.

Section Generation.
Variable g : nx.DiGraph.
Hypothesis He : NoDup (nx.edges g).

Lemma process_generation_ok gen : forall placed m z,
  NoDup gen ->
  (forall n, In n gen -> ~ In n placed) ->
  (forall n, In n gen -> nx.has_node g n = true) ->
  counts_match g placed m ->
  exists m' z',
    nx.process_generation g gen m z = Ok (m', z')
    /\ counts_match g (rev gen ++ placed) m'
    /\ forall v, In v z' -> In v z \/ all_placed g (rev gen ++ placed) v.
Proof.
  induction gen as [|n r IH]; intros placed m z Hnd Hfresh Hnode Hm.
  - exists m, z. split; [reflexivity|]. split; [exact Hm|]. auto.
  - inversion Hnd as [|? ? Hn Hr]. subst.
    assert (Hnp : ~ In n placed) by (apply Hfresh; now left).
    destruct (process_children_ok g placed n Hnp (nx.successors g n) [] m z)
      as (m1 & z1 & Hrun1 & Hmid1 & Hz1).
    { simpl. now apply nodup_successors. }
    { intros c Hc. now apply predecessors_in, successors_in. }
    { now apply counts_match_mid. }
    simpl in Hmid1. apply counts_mid_match in Hmid1; auto.
    destruct (IH (n :: placed) m1 z1 Hr) as (m' & z' & Hrun & Hm' & Hz'); auto.
    { intros k Hk [->|Hin]; [contradiction|]. apply (Hfresh k); auto. now right. }
    { intros k Hk. apply Hnode. now right. }
    exists m', z'. rewrite process_generation_cons, (Hnode n) by now left.
    rewrite Hrun1. simpl rev. rewrite <- app_assoc. simpl app.
    split; [exact Hrun|]. split; [exact Hm'|].
    intros v Hv. destruct (Hz' v Hv) as [Hin|Hall]; auto.
    destruct (Hz1 v Hin) as [Hin'|[Hc Hcnt]]; auto.
    right. eapply all_placed_more with (placed := n :: placed).
    + intros x Hx. apply in_or_app. right. exact Hx.
    + apply pending_zero_placed. rewrite pending_count_cons by auto.
      apply memb_In in Hc. rewrite Hc. lia.
Qed.
End Generation.

Lemma nodup_app_disjoint {A : Type} (l1 l2 : list A) a :
  NoDup (l1 ++ l2) -> In a l1 -> ~ In a l2.
Proof.
  induction l1 as [|x r IH]; simpl; [tauto|].
  intros H [->|Hin] Ha; inversion H as [|? ? Hnot Hr]; subst.
  - apply Hnot. apply in_or_app. now right.
  - now apply IH.
Qed.

Lemma topo_app g z : forall placed ys,
  (forall v, In v z -> all_placed g placed v) ->
  topo_from g (rev z ++ placed) ys -> topo_from g placed (z ++ ys).
Proof.
  induction z as [|v r IH]; intros placed ys Hall Hys; simpl in *; auto.
  constructor; [apply Hall; now left|].
  apply IH.
  - intros w Hw. eapply all_placed_more; [|apply Hall; now right].
    intros x Hx. now right.
  - now rewrite <- app_assoc in Hys.
Qed.

Lemma lookup_map_filter (f : string -> Z) (keep : string -> bool) (l : list string) v :
  lookup v (map (fun n => (n, f n)) (filter keep l))
  = if memb v l && keep v then Some (f v) else None.
Proof.
  induction l as [|x r IH]; auto.
  change (memb v (x :: r)) with (String.eqb v x || memb v r).
  change (filter keep (x :: r)) with (if keep x then x :: filter keep r else filter keep r).
  destruct (String.eqb_spec v x) as [->|Hne].
  - destruct (keep x) eqn:E; simpl.
    + now rewrite String.eqb_refl.
    + rewrite IH. now rewrite andb_false_r.
  - apply String.eqb_neq in Hne.
    destruct (keep x); simpl; rewrite ?Hne; exact IH.
Qed.

Lemma ranked_reach g rank u v : ranked g rank -> reach g u v -> rank u < rank v.
Proof.
  intros Hr. induction 1 as [u v Huv|u v w Huv _ IH].
  - now apply Hr.
  - apply Hr in Huv. lia.
Qed.

Lemma ranked_not_cyclic g rank : ranked g rank -> ~ cyclic g.
Proof.
  intros Hr [u Hu]. apply (ranked_reach g rank) in Hu; auto. lia.
Qed.

Lemma reach_trans g u v w : reach g u v -> reach g v w -> reach g u w.
Proof.
  induction 1 as [u v Huv|u v x Huv _ IH]; intros Hw.
  - eapply reach_step; eauto.
  - eapply reach_step; eauto.
Qed.

(** A finite, non-empty set of nodes in which every node has a predecessor
    holds a cycle.  Proved for any relation, by taking the nodes out one at
    a time and bridging over the node taken out. *)
Lemma closed_backwards_cycle (S : list string) :
  forall (R : string -> string -> Prop),
    (forall a b, R a b \/ ~ R a b) ->
    S <> [] ->
    (forall v, In v S -> exists p, In p S /\ R p v) ->
    exists u, Relation_Operators.clos_trans string R u u.
Proof.
  induction S as [|v S' IH]; intros R Rdec Hne Hback; [congruence|].
  destruct (Rdec v v) as [Hvv|Hvv].
  { exists v. now constructor. }
  set (R' := fun p w => R p w \/ (R p v /\ R v w)).
  assert (Hsub : forall a b, R' a b -> Relation_Operators.clos_trans string R a b).
  { intros a b [H|[H1 H2]].
    - now constructor.
    - eapply Relation_Operators.t_trans; constructor; eauto. }
  destruct (Hback v (or_introl eq_refl)) as [q [Hq Hqv]].
  destruct Hq as [->|Hq]; [contradiction|].
  destruct (IH R') as [u Hu].
  - intros a b. unfold R'.
    destruct (Rdec a b); [left; left; assumption|].
    destruct (Rdec a v); [|right; tauto].
    destruct (Rdec v b); [|right; tauto]. left. right. tauto.
  - intros ->. contradiction.
  - intros w Hw. destruct (Hback w (or_intror Hw)) as [p [Hp Hpw]].
    destruct Hp as [->|Hp].
    + exists q. split; auto. right. tauto.
    + exists p. split; auto. now left.
  - exists u.
    assert (Hall : forall a b, Relation_Operators.clos_trans string R' a b ->
                               Relation_Operators.clos_trans string R a b).
    { intros a b Hab. induction Hab as [a b H|a b c _ IH1 _ IH2].
      - now apply Hsub.
      - eapply Relation_Operators.t_trans; eauto. }
    now apply Hall.
Qed.

Lemma clos_trans_reach g u v :
  Relation_Operators.clos_trans string (fun a b => In (a, b) (nx.edges g)) u v ->
  reach g u v.
Proof.
  induction 1 as [a b H|a b c _ IH1 _ IH2].
  - now constructor.
  - eapply reach_trans; eauto.
Qed.

Lemma edge_decidable g a b : In (a, b) (nx.edges g) \/ ~ In (a, b) (nx.edges g).
Proof.
  destruct (in_dec (fun x y : string * string =>
                      ltac:(decide equality; apply string_dec))
                   (a, b) (nx.edges g)); auto.
Qed.

Section Sort.
Variable g : nx.DiGraph.
Hypothesis Hwf : well_formed g = true.

Let Hn : NoDup (keys (nx.nodes g)) := well_formed_nodup g Hwf.
Let He : NoDup (nx.edges g) := well_formed_nodup_edges g Hwf.

Lemma generations_ok fuel : forall placed m z ys fin,
  nx.generations fuel g m z = (ys, fin) ->
  counts_match g placed m ->
  Permutation (placed ++ z ++ keys m) (keys (nx.nodes g)) ->
  (forall v, In v z -> all_placed g placed v) ->
  fin <> nx.GenRaise RuntimeError
  /\ (fin = nx.GenDone -> topo_from g placed ys)
  /\ (fin = nx.GenRaise NetworkXUnfeasible -> cyclic g).
Proof.
  assert (Hstuck : forall placed m,
             counts_match g placed m ->
             Permutation (placed ++ keys m) (keys (nx.nodes g)) ->
             m <> [] -> cyclic g).
  { intros placed m [Hk Hl] Hperm Hm.
    destruct (closed_backwards_cycle (keys m)
                (fun a b => In (a, b) (nx.edges g)) (edge_decidable g))
      as [u Hu]; [| |exists u; now apply clos_trans_reach].
    - destruct m; [congruence | discriminate].
    - intros v Hv. apply lookup_in_keys in Hv. rewrite Hl in Hv.
      unfold as_entry, pending_count in Hv.
      destruct (waiting g placed v) as [|p w] eqn:Ew; [contradiction|].
      assert (Hp : In p (waiting g placed v)) by (rewrite Ew; now left).
      apply filter_In in Hp. destruct Hp as [Hp Hnp].
      apply negb_true_iff, memb_false in Hnp.
      apply predecessors_in in Hp.
      exists p. split; [|exact Hp].
      destruct (well_formed_edges g p v Hwf Hp) as [Hpn _].
      eapply Permutation_in in Hpn; [|symmetry; exact Hperm].
      apply in_app_or in Hpn. tauto. }
  induction fuel as [|f IH]; intros placed m z ys fin Hrun Hm Hperm Hz;
    destruct z as [|n z].
  - simpl in Hrun. destruct m; injection Hrun as <- <-.
    + split; [discriminate|]. split; [constructor | discriminate].
    + split; [discriminate|]. split; [discriminate|]. intros _.
      eapply Hstuck; eauto. discriminate.
  - simpl in Hrun. injection Hrun as <- <-.
    split; [discriminate|]. split; discriminate.
  - simpl in Hrun. destruct m; injection Hrun as <- <-.
    + split; [discriminate|]. split; [constructor | discriminate].
    + split; [discriminate|]. split; [discriminate|]. intros _.
      eapply Hstuck; eauto. discriminate.
  - rewrite generations_step in Hrun.
    assert (Hall : NoDup (placed ++ (n :: z) ++ keys m)).
    { eapply Permutation_NoDup; [symmetry; exact Hperm | exact Hn]. }
    destruct (process_generation_ok g He (n :: z) placed m [])
      as (m1 & z1 & Hgen & Hm1 & Hz1); auto.
    { eapply NoDup_app_remove_r, NoDup_app_remove_l. exact Hall. }
    { intros k Hk Hp. eapply (nodup_app_disjoint placed); eauto.
      apply in_or_app. now left. }
    { intros k Hk. apply has_key_in.
      eapply Permutation_in; [exact Hperm|].
      apply in_or_app. right. apply in_or_app. now left. }
    rewrite Hgen in Hrun.
    destruct (nx.generations f g m1 z1) as [ys1 fin1] eqn:Erec.
    injection Hrun as <- <-.
    destruct (IH (rev (n :: z) ++ placed) m1 z1 ys1 fin1 Erec Hm1)
      as (Hno & Hdone & Hcyc).
    { apply process_generation_perm in Hgen. simpl app in Hgen.
      transitivity (placed ++ (n :: z) ++ keys m); [|exact Hperm].
      rewrite (app_assoc placed). apply Permutation_app; [|exact Hgen].
      transitivity (placed ++ rev (n :: z)); [apply Permutation_app_comm|].
      apply Permutation_app_head. symmetry. apply Permutation_rev. }
    { intros v Hv. destruct (Hz1 v Hv) as [[]|Hp]. exact Hp. }
    split; [exact Hno|]. split; [|exact Hcyc].
    intros Hfin. apply (topo_app g (n :: z)); [exact Hz | exact (Hdone Hfin)].
Qed.
End Sort.

Lemma topo_rank g placed ys :
  topo_from g placed ys ->
  forall u v, In (u, v) (nx.edges g) -> In v ys -> ~ In u placed ->
  index_of u ys < index_of v ys.
Proof.
  induction 1 as [placed|placed w ys Hw Hys IH]; intros u v Huv Hv Hu.
  - contradiction.
  - simpl. destruct (String.eqb_spec v w) as [->|Hvw].
    + exfalso. apply Hu, Hw. now apply predecessors_in.
    + destruct Hv as [->|Hv]; [congruence|].
      destruct (String.eqb_spec u w) as [->|Huw]; [lia|].
      assert (Hlt : index_of u ys < index_of v ys); [|lia].
      apply IH; auto.
      intros [->|Hin]; [congruence | contradiction].
Qed.

Section Decides.
Variable g : nx.DiGraph.
Hypothesis Hwf : well_formed g = true.

Let Hn : NoDup (keys (nx.nodes g)) := well_formed_nodup g Hwf.
Let He : NoDup (nx.edges g) := well_formed_nodup_edges g Hwf.

Lemma no_predecessors_outside v :
  ~ In v (keys (nx.nodes g)) -> nx.predecessors g v = [].
Proof.
  intros Hv. destruct (nx.predecessors g v) as [|p r] eqn:E; auto.
  exfalso. apply Hv.
  assert (Hp : In p (nx.predecessors g v)) by (rewrite E; now left).
  apply predecessors_in in Hp. now apply (well_formed_edges g p v Hwf Hp).
Qed.

Lemma pending_count_start v : pending_count g [] v = nx.in_degree g v.
Proof.
  unfold pending_count, waiting, nx.in_degree. do 2 f_equal.
  induction (nx.predecessors g v) as [|p r IH]; [reflexivity|].
  change (p :: filter (fun q => negb (memb q [])) r = p :: r). now rewrite IH.
Qed.

Lemma initial_counts : counts_match g [] (nx.initial_indegree_map g).
Proof.
  split.
  - assert (Hk : keys (nx.initial_indegree_map g)
                 = filter (fun n => (0 <? nx.in_degree g n)%Z) (keys (nx.nodes g))).
    { unfold nx.initial_indegree_map, keys. rewrite map_map. simpl. apply map_id. }
    rewrite Hk. now apply NoDup_filter.
  - intros v. unfold nx.initial_indegree_map.
    rewrite lookup_map_filter, pending_count_start. unfold as_entry.
    destruct (memb v (keys (nx.nodes g))) eqn:E; simpl; auto.
    apply memb_false, no_predecessors_outside in E.
    unfold nx.in_degree. now rewrite E.
Qed.

Lemma initial_zero_placed v :
  In v (nx.initial_zero_indegree g) -> all_placed g [] v.
Proof.
  unfold nx.initial_zero_indegree. intros Hv. apply filter_In in Hv.
  destruct Hv as [_ Hz]. apply Z.eqb_eq in Hz.
  apply pending_zero_placed. now rewrite pending_count_start.
Qed.

(** On a well-formed graph the sort either yields a topological order of
    all nodes, or stops on [NetworkXUnfeasible] with a cycle in the graph;
    it never fails otherwise. *)
Lemma topological_sort_ok :
  exists order fin,
    nx.topological_sort g = (order, fin)
    /\ fin <> Some RuntimeError
    /\ (fin = None -> topo_from g [] order)
    /\ (fin = Some NetworkXUnfeasible -> cyclic g).
Proof.
  unfold nx.topological_sort.
  pose proof (topological_run_fuel g) as Hfuel. unfold nx.topological_run in *.
  destruct (nx.generations _ g _ _) as [ys fin] eqn:Erun.
  destruct (generations_ok g Hwf _ [] _ _ ys fin Erun initial_counts)
    as (Hno & Hdone & Hcyc).
  { simpl. apply initial_partition. }
  { apply initial_zero_placed. }
  simpl in Hfuel. destruct fin as [|e|]; [| |congruence].
  - exists ys, None. repeat split; auto; discriminate.
  - exists ys, (Some e). split; [reflexivity|]. split; [congruence|].
    split; [discriminate|]. intros H. injection H as ->. auto.
Qed.

Lemma dag_check_answers :
  nx.is_directed_acyclic_graph g = Ok true
  \/ nx.is_directed_acyclic_graph g = Ok false.
Proof.
  destruct (nx.is_directed_acyclic_graph g) as [[|]|e] eqn:E; auto.
  exfalso. pose proof (is_directed_acyclic_graph_raises g e E). subst e.
  unfold nx.is_directed_acyclic_graph in E.
  destruct topological_sort_ok as (order & fin & Hs & Hno & _).
  rewrite Hs in E. simpl in E.
  destruct fin as [[]|]; try discriminate. congruence.
Qed.

(** The check of the code says acyclic exactly when the nodes can be
    numbered so that every edge goes up. *)
Lemma acyclic_ranked : acyclic g <-> exists rank, ranked g rank.
Proof.
  split.
  - intros Ha. apply acyclic_sort in Ha. destruct Ha as [order Hsort].
    destruct topological_sort_ok as (order' & fin & Hs & _ & Hdone & _).
    rewrite Hsort in Hs. injection Hs as <- <-.
    exists (fun v => index_of v order). intros u v Huv.
    apply (topo_rank g [] order (Hdone eq_refl)); auto.
    eapply Permutation_in; [symmetry; eapply topological_sort_perm; eauto|].
    now apply (well_formed_edges g u v Hwf Huv).
  - intros [rank Hr]. destruct dag_check_answers as [H|H]; auto.
    exfalso. unfold nx.is_directed_acyclic_graph in H.
    destruct topological_sort_ok as (order & fin & Hs & _ & _ & Hcyc).
    rewrite Hs in H. simpl in H.
    destruct fin as [[]|]; try discriminate.
    now apply (ranked_not_cyclic g rank Hr), Hcyc.
Qed.

(** ... and exactly when no path leads from a node back to itself. *)
Lemma acyclic_no_cycle : acyclic g <-> ~ cyclic g.
Proof.
  split.
  - intros Ha. apply acyclic_ranked in Ha. destruct Ha as [rank Hr].
    now apply (ranked_not_cyclic g rank).
  - intros Hnc. destruct dag_check_answers as [H|H]; auto.
    exfalso. apply Hnc. unfold nx.is_directed_acyclic_graph in H.
    destruct topological_sort_ok as (order & fin & Hs & _ & _ & Hcyc).
    rewrite Hs in H. simpl in H.
    destruct fin as [[]|]; try discriminate. now apply Hcyc.
Qed.

Lemma cyclic_check_false : cyclic g -> nx.is_directed_acyclic_graph g = Ok false.
Proof.
  intros Hc. destruct dag_check_answers as [H|H]; auto.
  exfalso. now apply acyclic_no_cycle in H.
Qed.
End Decides.

(** ** Well-formed graphs are what the methods build *)

Lemma well_formed_iff g :
  well_formed g = true
  <-> NoDup (keys (nx.nodes g)) /\ NoDup (nx.edges g)
      /\ forall u v, In (u, v) (nx.edges g) ->
           In u (keys (nx.nodes g)) /\ In v (keys (nx.nodes g)).
Proof.
  split.
  - intros H. split; [now apply well_formed_nodup|].
    split; [now apply well_formed_nodup_edges|].
    intros u v. now apply well_formed_edges.
  - intros (Hn & He & Hc). unfold well_formed.
    apply andb_true_iff. split; [now apply nodupb_NoDup|].
    apply andb_true_iff. split; [now apply edges_nodupb_NoDup|].
    apply forallb_forall. intros [u v] Huv. simpl.
    destruct (Hc u v Huv) as [Hu Hv]. unfold nx.has_node.
    apply andb_true_iff. split; now apply has_key_in.
Qed.

Lemma well_formed_ext g1 g2 :
  keys (nx.nodes g1) = keys (nx.nodes g2) -> nx.edges g1 = nx.edges g2 ->
  well_formed g1 = well_formed g2.
Proof.
  intros Hk He. unfold well_formed. rewrite Hk, He. do 2 f_equal.
  apply forallb_agree. intros [u v] _. simpl.
  now rewrite !(has_node_ext g1 g2 Hk).
Qed.

Lemma keys_upsert_cases {V : Type} k (v : V) d :
  keys (upsert k v d) = keys d \/ (~ In k (keys d) /\ keys (upsert k v d) = keys d ++ [k]).
Proof.
  destruct (in_dec string_dec k (keys d)) as [Hin|Hout].
  - left. now apply keys_upsert_present.
  - right. split; auto. now apply keys_upsert_absent.
Qed.

Lemma nodup_snoc {A : Type} (l : list A) x : NoDup l -> ~ In x l -> NoDup (l ++ [x]).
Proof.
  intros Hl Hx. apply NoDup_app; auto.
  - repeat constructor. intros [].
  - intros a Ha [<-|[]]. contradiction.
Qed.

Lemma keys_touch n ns :
  keys (nx.touch_node n ns) = keys ns
  \/ (~ In n (keys ns) /\ keys (nx.touch_node n ns) = keys ns ++ [n]).
Proof.
  unfold nx.touch_node. destruct (has_key n ns) eqn:E; [now left|].
  right. split.
  - intros Hin. apply has_key_in in Hin. congruence.
  - unfold keys. now rewrite map_app.
Qed.

Lemma nodup_touch n ns : NoDup (keys ns) -> NoDup (keys (nx.touch_node n ns)).
Proof.
  intros H. destruct (keys_touch n ns) as [->|[Hn ->]]; auto.
  now apply nodup_snoc.
Qed.

Lemma in_keys_touch k n ns : In k (keys ns) -> In k (keys (nx.touch_node n ns)).
Proof.
  intros H. destruct (keys_touch n ns) as [->|[Hn ->]]; auto.
  apply in_or_app. now left.
Qed.

Lemma in_keys_touch_same n ns : In n (keys (nx.touch_node n ns)).
Proof. apply has_key_in, has_key_touch_same. Qed.

Lemma has_edge_In g u v : nx.has_edge g u v = true <-> In (u, v) (nx.edges g).
Proof.
  unfold nx.has_edge. rewrite existsb_exists. split.
  - intros [[a b] [Hin H]]. simpl in H. apply andb_true_iff in H.
    destruct H as [Ha Hb]. apply String.eqb_eq in Ha, Hb. now subst.
  - intros H. exists (u, v). split; auto. simpl. now rewrite !String.eqb_refl.
Qed.

Lemma edges_add_edge g u v :
  nx.edges (nx.add_edge g u v)
  = if nx.has_edge g u v then nx.edges g else nx.edges g ++ [(u, v)].
Proof. reflexivity. Qed.

Lemma in_edges_add_edge g u v a b :
  In (a, b) (nx.edges (nx.add_edge g u v))
  <-> In (a, b) (nx.edges g) \/ (a, b) = (u, v).
Proof.
  rewrite edges_add_edge. destruct (nx.has_edge g u v) eqn:E.
  - split; auto. intros [H|H]; auto. rewrite H. now apply has_edge_In.
  - rewrite in_app_iff. simpl. intuition congruence.
Qed.

Lemma well_formed_add_node g n goal :
  well_formed g = true -> well_formed (nx.add_node g n goal) = true.
Proof.
  rewrite !well_formed_iff. intros (Hn & He & Hc). simpl.
  assert (Hin : forall k, In k (keys (nx.nodes g)) ->
                          In k (keys (upsert n (Some goal) (nx.nodes g)))).
  { intros k Hk. destruct (keys_upsert_cases n (Some goal) (nx.nodes g))
      as [->|[_ ->]]; auto. apply in_or_app. now left. }
  split; [|split; auto].
  - destruct (keys_upsert_cases n (Some goal) (nx.nodes g)) as [->|[Hout ->]]; auto.
    now apply nodup_snoc.
  - intros u v Huv. destruct (Hc u v Huv). auto.
Qed.

Lemma well_formed_add_edge g u v :
  well_formed g = true -> well_formed (nx.add_edge g u v) = true.
Proof.
  rewrite !well_formed_iff. intros (Hn & He & Hc).
  split; [|split].
  - simpl. now apply nodup_touch, nodup_touch.
  - rewrite edges_add_edge. destruct (nx.has_edge g u v) eqn:E; auto.
    apply nodup_snoc; auto. intros Hin. apply has_edge_In in Hin. congruence.
  - intros a b Hab. apply in_edges_add_edge in Hab. simpl nx.nodes.
    destruct Hab as [Hab|Hab].
    + destruct (Hc a b Hab). split; now apply in_keys_touch, in_keys_touch.
    + injection Hab as -> ->. split.
      * apply in_keys_touch, in_keys_touch_same.
      * apply in_keys_touch_same.
Qed.

Lemma put_goal_frame n goal g :
  goal_at g n <> None ->
  keys (nx.nodes (put_goal n goal g)) = keys (nx.nodes g)
  /\ nx.edges (put_goal n goal g) = nx.edges g.
Proof.
  intros H. split; [|reflexivity]. simpl. apply keys_upsert_present.
  apply lookup_in_keys. unfold goal_at in H.
  destruct (lookup n (nx.nodes g)); congruence.
Qed.

Lemma recompute_loop_frame order : forall g,
  keys (nx.nodes (fst (GoalGraph.recompute_loop order g))) = keys (nx.nodes g)
  /\ nx.edges (fst (GoalGraph.recompute_loop order g)) = nx.edges g.
Proof.
  induction order as [|n r IH]; intros g; [now split|].
  rewrite recompute_loop_cons.
  destruct (goal_at g n) as [goal|] eqn:E; [|now split].
  destruct (GoalGraph.is_settled (status goal)); [apply IH|].
  pose proof (all_done_state (nx.predecessors g n) g) as Hst.
  destruct (GoalGraph.all_done (nx.predecessors g n) g) as [g1 [ok|e]];
    simpl in Hst; subst g1; [|now split].
  destruct (IH (put_goal n (with_status (if ok then READY else PENDING) goal) g))
    as [Hk He].
  destruct (put_goal_frame n (with_status (if ok then READY else PENDING) goal) g)
    as [Hk' He']; [congruence|].
  split; congruence.
Qed.

Lemma recompute_readiness_frame g :
  keys (nx.nodes (fst (GoalGraph.recompute_readiness g))) = keys (nx.nodes g)
  /\ nx.edges (fst (GoalGraph.recompute_readiness g)) = nx.edges g.
Proof.
  unfold GoalGraph.recompute_readiness.
  destruct (nx.topological_sort g) as [order fin]. unfold bind.
  pose proof (recompute_loop_frame order g) as H.
  destruct (GoalGraph.recompute_loop order g) as [g1 [u|e]]; auto.
  destruct fin; auto.
Qed.

Lemma set_status_frame g n s :
  keys (nx.nodes (fst (GoalGraph.set_status n s g))) = keys (nx.nodes g)
  /\ nx.edges (fst (GoalGraph.set_status n s g)) = nx.edges g.
Proof.
  rewrite set_status_eval. destruct (goal_at g n) eqn:E; [|now split].
  apply put_goal_frame. congruence.
Qed.

Lemma mark_in_progress_frame g n :
  keys (nx.nodes (fst (GoalGraph.mark_in_progress n g))) = keys (nx.nodes g)
  /\ nx.edges (fst (GoalGraph.mark_in_progress n g)) = nx.edges g.
Proof.
  rewrite mark_in_progress_eval. destruct (goal_at g n) as [goal|] eqn:E;
    [|now split].
  destruct (GoalGraph.is_terminal (status goal)); [now split|].
  apply put_goal_frame. congruence.
Qed.

(** The status-changing calls keep the nodes and the edges, hence
    well-formedness and the outcome of the acyclicity check. *)
Lemma run_graph_op_frame o g :
  keys (nx.nodes (run_graph_op o g)) = keys (nx.nodes g)
  /\ nx.edges (run_graph_op o g) = nx.edges g.
Proof.
  destruct o as [n|n b| | |k]; simpl.
  - apply mark_in_progress_frame.
  - apply set_status_frame.
  - apply recompute_readiness_frame.
  - destruct (passes_agree g) as [-> _]. apply recompute_readiness_frame.
  - rewrite next_batch_state. apply recompute_readiness_frame.
Qed.

Lemma well_formed_run_graph_op o g :
  well_formed (run_graph_op o g) = well_formed g.
Proof. destruct (run_graph_op_frame o g). now apply well_formed_ext. Qed.

Lemma well_formed_add_goal goal g :
  well_formed g = true -> well_formed (fst (GoalGraph.add_goal goal g)) = true.
Proof. apply well_formed_add_node. Qed.

Lemma well_formed_add_dependency a b g :
  well_formed g = true ->
  well_formed (fst (GoalGraph.add_dependency a b g)) = true.
Proof. rewrite add_dependency_state. apply well_formed_add_edge. Qed.

(** ** [add_dependency] against the cycles of the graph *)

(** An edge that would close a cycle is refused, on every well-formed
    graph... *)
Lemma add_dependency_cycle_rejected g a b :
  well_formed g = true -> cyclic (nx.add_edge g b a) ->
  GoalGraph.add_dependency a b g = (nx.add_edge g b a, Raise AssertionError).
Proof.
  intros Hwf Hc. unfold GoalGraph.add_dependency.
  now rewrite (cyclic_check_false _ (well_formed_add_edge g b a Hwf) Hc).
Qed.

(** ... and the graph it leaves is not the acyclic graph it was given. *)
Lemma add_dependency_cycle_changes g a b :
  well_formed g = true -> acyclic g -> cyclic (nx.add_edge g b a) ->
  fst (GoalGraph.add_dependency a b g) <> g.
Proof.
  intros Hwf Ha Hc Heq. rewrite add_dependency_state in Heq.
  rewrite Heq in Hc. now apply (acyclic_no_cycle g Hwf) in Ha.
Qed.

(** An edge that closes no cycle is accepted. *)
Lemma add_dependency_accepted g a b :
  well_formed g = true -> ~ cyclic (nx.add_edge g b a) ->
  GoalGraph.add_dependency a b g = (nx.add_edge g b a, Ok tt).
Proof.
  intros Hwf Hc. unfold GoalGraph.add_dependency.
  apply (acyclic_no_cycle _ (well_formed_add_edge g b a Hwf)) in Hc.
  unfold acyclic in Hc. now rewrite Hc.
Qed.

Lemma add_edge_fresh_ranked g a b :
  well_formed g = true -> a <> b ->
  nx.has_node g a = false \/ nx.has_node g b = false ->
  (exists rank, ranked g rank) -> exists rank, ranked (nx.add_edge g b a) rank.
Proof.
  intros Hwf Hne Hfresh [rank Hr].
  assert (Hout : forall n, nx.has_node g n = false ->
                 forall u v, In (u, v) (nx.edges g) -> u <> n /\ v <> n).
  { intros n Hn u v Huv. destruct (well_formed_edges g u v Hwf Huv) as [Hu Hv].
    apply has_key_in in Hu, Hv. unfold nx.has_node in Hn.
    split; intros ->; congruence. }
  destruct (nx.has_node g b) eqn:Eb.
  - destruct Hfresh as [Ea|Ea]; [|discriminate].
    exists (fun x => if String.eqb x a then S (rank b) else rank x).
    intros u v Huv. apply in_edges_add_edge in Huv. destruct Huv as [Huv|Huv].
    + destruct (Hout a Ea u v Huv) as [Hu Hv].
      apply String.eqb_neq in Hu, Hv. rewrite Hu, Hv. now apply Hr.
    + injection Huv as -> ->. rewrite String.eqb_refl.
      assert (E : String.eqb b a = false) by (apply String.eqb_neq; congruence).
      rewrite E. lia.
  - exists (fun x => if String.eqb x b then 0 else S (rank x)).
    intros u v Huv. apply in_edges_add_edge in Huv. destruct Huv as [Huv|Huv].
    + destruct (Hout b Eb u v Huv) as [Hu Hv].
      apply String.eqb_neq in Hu, Hv. rewrite Hu, Hv.
      apply Hr in Huv. lia.
    + injection Huv as -> ->. rewrite String.eqb_refl.
      assert (E : String.eqb a b = false) by now apply String.eqb_neq.
      rewrite E. lia.
Qed.

(** A dependency on (or of) an id that is not in the graph yet is accepted:
    it cannot close a cycle. *)
Lemma add_dependency_fresh_ok g a b :
  well_formed g = true -> acyclic g -> a <> b ->
  nx.has_node g a = false \/ nx.has_node g b = false ->
  GoalGraph.add_dependency a b g = (nx.add_edge g b a, Ok tt).
Proof.
  intros Hwf Ha Hne Hfresh. apply add_dependency_accepted; auto.
  apply (acyclic_ranked g Hwf) in Ha.
  destruct (add_edge_fresh_ranked g a b Hwf Hne Hfresh Ha) as [rank Hr].
  now apply (ranked_not_cyclic _ rank).
Qed.

(** C5: [add_goal] with the id of a goal already in the graph does not
    fail: it replaces the stored goal by the new one, and leaves the node
    order, the other nodes and the edges as they were. *)
Theorem add_goal_replaces (g : nx.DiGraph) (goal : Goal) :
  nx.has_node g (id goal) = true ->
  exists g',
    GoalGraph.add_goal goal g = (g', Ok tt)
    /\ goal_at g' (id goal) = Some goal
    /\ keys (nx.nodes g') = keys (nx.nodes g)
    /\ nx.edges g' = nx.edges g
    /\ forall n, n <> id goal -> lookup n (nx.nodes g') = lookup n (nx.nodes g).
Proof.
  intros H. exists (nx.add_node g (id goal) goal).
  split; [reflexivity|]. split; [|split; [|split]]; simpl.
  - apply goal_at_lookup. simpl. apply lookup_upsert_eq.
  - apply keys_upsert_present. now apply has_key_in.
  - reflexivity.
  - intros n Hn. now apply lookup_upsert_ne.
Qed.

(** C6: [add_dependency] with an id that is not a node raises no lookup
    error: both ids are nodes afterwards, a missing one created without a
    goal, the edge [depends_on_id -> goal_id] is in the graph, and the nodes
    that were there are untouched.  On an acyclic graph the call returns
    normally, the two ids being different. *)
Theorem add_dependency_creates_missing (g : nx.DiGraph) (a b : string) :
  nx.has_node g a = false \/ nx.has_node g b = false ->
  snd (GoalGraph.add_dependency a b g) <> Raise KeyError
  /\ nx.has_node (fst (GoalGraph.add_dependency a b g)) a = true
  /\ nx.has_node (fst (GoalGraph.add_dependency a b g)) b = true
  /\ nx.has_edge (fst (GoalGraph.add_dependency a b g)) b a = true
  /\ (forall n, (n = a \/ n = b) -> nx.has_node g n = false ->
        lookup n (nx.nodes (fst (GoalGraph.add_dependency a b g))) = Some None)
  /\ (forall n, nx.has_node g n = true ->
        lookup n (nx.nodes (fst (GoalGraph.add_dependency a b g)))
        = lookup n (nx.nodes g))
  /\ (well_formed g = true -> acyclic g -> a <> b ->
      snd (GoalGraph.add_dependency a b g) = Ok tt).
Proof.
  intros Hfresh. split; [|split; [|split; [|split; [|split; [|split]]]]].
  7: { intros Hwf Ha Hne. now rewrite add_dependency_fresh_ok. }
  all: rewrite ?add_dependency_state.
  - unfold GoalGraph.add_dependency.
    destruct (nx.is_directed_acyclic_graph (nx.add_edge g b a)) as [[|]|e] eqn:E;
      simpl; try discriminate.
    apply is_directed_acyclic_graph_raises in E. subst. discriminate.
  - unfold nx.has_node, nx.add_edge. simpl. apply has_key_touch_same.
  - unfold nx.has_node, nx.add_edge. simpl.
    apply has_key_touch_other, has_key_touch_same.
  - apply has_edge_add_edge.
  - unfold nx.has_node, nx.add_edge. simpl. intros n Hn Habs.
    destruct (String.eqb_spec n b) as [->|Hnb].
    + rewrite lookup_touch_present by apply has_key_touch_same.
      now apply lookup_touch_absent.
    + destruct Hn as [-> | ->]; [|congruence].
      apply lookup_touch_absent.
      unfold nx.touch_node. destruct (has_key b (nx.nodes g)); auto.
      unfold has_key in *. rewrite lookup_app.
      destruct (lookup a (nx.nodes g)); [discriminate|]. simpl.
      apply String.eqb_neq in Hnb. now rewrite Hnb.
  - unfold nx.has_node, nx.add_edge. simpl. intros n Hn.
    rewrite lookup_touch_present by now apply has_key_touch_other.
    now apply lookup_touch_present.
Qed.

(** ** The states the specification speaks of *)

Lemma goal_complete_upsert n goal ns :
  forallb (fun kv : string * option Goal =>
             match snd kv with Some _ => true | None => false end) ns = true ->
  forallb (fun kv : string * option Goal =>
             match snd kv with Some _ => true | None => false end)
          (upsert n (Some goal) ns) = true.
Proof.
  induction ns as [|[k og] r IH]; simpl; auto.
  intros H. apply andb_true_iff in H. destruct H as [H1 H2].
  destruct (String.eqb n k); simpl; rewrite ?H1, ?H2; auto.
Qed.

Lemma goal_complete_put n goal g :
  goal_complete g = true -> goal_complete (put_goal n goal g) = true.
Proof. apply goal_complete_upsert. Qed.

Lemma goal_complete_set_status g n s :
  goal_complete g = true -> goal_complete (fst (GoalGraph.set_status n s g)) = true.
Proof.
  intros H. rewrite set_status_eval. destruct (goal_at g n); auto.
  now apply goal_complete_put.
Qed.

Lemma goal_complete_recompute_loop order : forall g,
  goal_complete g = true ->
  goal_complete (fst (GoalGraph.recompute_loop order g)) = true.
Proof.
  induction order as [|n r IH]; intros g H; auto.
  rewrite recompute_loop_cons.
  destruct (goal_at g n) as [goal|]; auto.
  destruct (GoalGraph.is_settled (status goal)); auto.
  pose proof (all_done_state (nx.predecessors g n) g) as Hst.
  destruct (GoalGraph.all_done (nx.predecessors g n) g) as [g1 [ok|e]];
    simpl in Hst; subst g1; auto.
  apply IH. now apply goal_complete_put.
Qed.

Lemma goal_complete_recompute_readiness g :
  goal_complete g = true ->
  goal_complete (fst (GoalGraph.recompute_readiness g)) = true.
Proof.
  intros H. unfold GoalGraph.recompute_readiness.
  destruct (nx.topological_sort g) as [order fin]. unfold bind.
  pose proof (goal_complete_recompute_loop order g H) as Hl.
  destruct (GoalGraph.recompute_loop order g) as [g1 [u|e]]; auto.
  destruct fin; auto.
Qed.

Lemma goal_complete_run_graph_op o g :
  goal_complete g = true -> goal_complete (run_graph_op o g) = true.
Proof.
  intros H. destruct o as [n|n b| | |k]; simpl.
  - rewrite mark_in_progress_eval. destruct (goal_at g n) as [goal|]; auto.
    destruct (GoalGraph.is_terminal (status goal)); auto.
    now apply goal_complete_put.
  - now apply goal_complete_set_status.
  - now apply goal_complete_recompute_readiness.
  - destruct (passes_agree g) as [-> _]. now apply goal_complete_recompute_readiness.
  - rewrite next_batch_state. now apply goal_complete_recompute_readiness.
Qed.

Lemma acyclic_run_graph_op o g : acyclic g -> acyclic (run_graph_op o g).
Proof.
  destruct (run_graph_op_frame o g) as [Hk He].
  unfold acyclic, nx.is_directed_acyclic_graph.
  now rewrite (topological_sort_ext _ _ Hk He).
Qed.

Lemma touch_node_known n ns : has_key n ns = true -> nx.touch_node n ns = ns.
Proof. unfold nx.touch_node. now intros ->. Qed.

Lemma add_edge_known_nodes g u v :
  nx.has_node g u = true -> nx.has_node g v = true ->
  nx.nodes (nx.add_edge g u v) = nx.nodes g.
Proof.
  intros Hu Hv. unfold nx.add_edge. simpl.
  rewrite (touch_node_known u) by exact Hu. now apply touch_node_known.
Qed.

(** Every such state is well formed, has a goal on every node and passes
    the acyclicity check: the readiness and planner theorems apply to it. *)
Lemma built_ok g :
  built g -> well_formed g = true /\ goal_complete g = true /\ acyclic g.
Proof.
  induction 1 as [|g goal _ (Hwf & Hc & Ha)|g a b _ (Hwf & Hc & Ha) Hna Hnb Hok
                  |g o _ (Hwf & Hc & Ha)].
  - repeat split; reflexivity.
  - split; [now apply well_formed_add_goal|]. split.
    + now apply goal_complete_upsert.
    + apply acyclic_ranked; [now apply well_formed_add_goal|].
      apply (acyclic_ranked g Hwf) in Ha. exact Ha.
  - split; [now apply well_formed_add_dependency|]. split.
    + rewrite add_dependency_state. unfold goal_complete.
      now rewrite add_edge_known_nodes.
    + rewrite add_dependency_state. unfold GoalGraph.add_dependency in Hok.
      unfold acyclic.
      destruct (nx.is_directed_acyclic_graph (nx.add_edge g b a)) as [[|]|e];
        simpl in Hok; congruence.
  - split; [now rewrite well_formed_run_graph_op|]. split.
    + now apply goal_complete_run_graph_op.
    + now apply acyclic_run_graph_op.
Qed.

(** ** The calls at concrete graphs *)

(** C1: with B depending on A, [add_dependency(A, B)] closes a cycle; the
    assertion fails, but the edge [B -> A] it added stays in the graph, and
    every later readiness pass fails on the cycle. *)
Theorem add_dependency_cycle_keeps_edge :
  acyclic graph_AB
  /\ GoalGraph.add_dependency "A" "B" graph_AB
     = ({| nx.nodes := nx.nodes graph_AB;
           nx.edges := [("A", "B"); ("B", "A")] |},
        Raise AssertionError)
  /\ fst (GoalGraph.add_dependency "A" "B" graph_AB) <> graph_AB
  /\ snd (GoalGraph.recompute_readiness
            (fst (GoalGraph.add_dependency "A" "B" graph_AB)))
     = Raise NetworkXUnfeasible.
Proof.
  split; [reflexivity|]. split; [reflexivity|]. split; [|reflexivity].
  intros H. apply (f_equal (fun g => List.length (nx.edges g))) in H.
  vm_compute in H. discriminate.
Qed.

(** The edge stays whenever the assertion fails, not only there. *)
Lemma add_dependency_failure_keeps_edge g a b e :
  snd (GoalGraph.add_dependency a b g) = Raise e ->
  nx.has_edge (fst (GoalGraph.add_dependency a b g)) b a = true.
Proof. intros _. rewrite add_dependency_state. apply has_edge_add_edge. Qed.

(** A goal that is DONE is FAILED after [mark_done(id, False)]. *)
Lemma mark_done_overwrites_done :
  status_of graph_A_done "A" = Some DONE
  /\ status_of (run_graph_ops [MarkDone "A" false] graph_A_done) "A" = Some FAILED.
Proof. split; reflexivity. Qed.

(** A second goal with the id of [goal_A] is accepted and takes its place. *)
Lemma add_goal_duplicate_accepted :
  goal_at graph_AB "A" = Some goal_A
  /\ snd (GoalGraph.add_goal goal_A_again graph_AB) = Ok tt
  /\ goal_at (fst (GoalGraph.add_goal goal_A_again graph_AB)) "A" = Some goal_A_again
  /\ goal_A_again <> goal_A.
Proof. repeat split; try reflexivity. discriminate. Qed.

(** A dependency on the unknown id [Z] is accepted: node [Z] and the edge
    [Z -> B] are added. *)
Lemma add_dependency_unknown_accepted :
  nx.has_node graph_AB "Z" = false
  /\ GoalGraph.add_dependency "B" "Z" graph_AB
     = ({| nx.nodes := nx.nodes graph_AB ++ [("Z", None)];
           nx.edges := [("A", "B"); ("Z", "B")] |},
        Ok tt).
Proof. split; reflexivity. Qed.

(** The readiness rule at [graph_AB]. *)
Lemma recompute_readiness_rule_witness :
  well_formed graph_AB = true /\ goal_complete graph_AB = true
  /\ acyclic graph_AB /\ id goal_A <> id goal_B
  /\ GoalGraph.is_settled (status goal_A) = false
  /\ GoalGraph.is_settled (status goal_B) = false
  /\ (exists g', GoalGraph.recompute_readiness graph_AB = (g', Ok tt)
                 /\ follows_readiness_rule graph_AB g')
  /\ pair_scenario goal_A goal_B.
Proof.
  assert (H1 : well_formed graph_AB = true) by reflexivity.
  assert (H2 : goal_complete graph_AB = true) by reflexivity.
  assert (H3 : acyclic graph_AB) by reflexivity.
  assert (H4 : id goal_A <> id goal_B) by (simpl; discriminate).
  assert (H5 : GoalGraph.is_settled (status goal_A) = false) by reflexivity.
  assert (H6 : GoalGraph.is_settled (status goal_B) = false) by reflexivity.
  repeat (split; [assumption|]).
  exact (recompute_readiness_rule graph_AB goal_A goal_B H1 H2 H3 H4 H5 H6).
Defined.

(** Two passes in a row at [graph_AB]. *)
Lemma recompute_readiness_idempotent_witness :
  well_formed graph_AB = true /\ goal_complete graph_AB = true
  /\ acyclic graph_AB
  /\ exists g1,
       GoalGraph.recompute_readiness graph_AB = (g1, Ok tt)
       /\ GoalGraph.recompute_readiness g1 = (g1, Ok tt).
Proof.
  assert (H1 : well_formed graph_AB = true) by reflexivity.
  assert (H2 : goal_complete graph_AB = true) by reflexivity.
  assert (H3 : acyclic graph_AB) by reflexivity.
  repeat (split; [assumption|]).
  exact (recompute_readiness_idempotent graph_AB H1 H2 H3).
Defined.

(** [next_batch(3)] against [recompute_readiness] at [graph_AB]. *)
Lemma next_batch_recomputes_witness :
  well_formed graph_AB = true /\ goal_complete graph_AB = true
  /\ acyclic graph_AB
  /\ exists g' ready all,
       GoalGraph.recompute_readiness graph_AB = (g', Ok tt)
       /\ GoalGraph.ready_goals graph_AB = (g', Ok ready)
       /\ fst (AdaptivePlanner.next_batch 3 graph_AB) = g'
       /\ GoalGraph.goals g' = (g', Ok all)
       /\ Permutation ready (filter is_ready all).
Proof.
  assert (H1 : well_formed graph_AB = true) by reflexivity.
  assert (H2 : goal_complete graph_AB = true) by reflexivity.
  assert (H3 : acyclic graph_AB) by reflexivity.
  repeat (split; [assumption|]).
  exact (next_batch_recomputes graph_AB 3 H1 H2 H3).
Defined.

(** A DONE goal through [mark_in_progress], both passes and [next_batch]. *)
Lemma terminal_status_kept_witness :
  status_of graph_A_done "A" = Some DONE
  /\ GoalGraph.is_terminal DONE = true
  /\ (exists s',
        status_of (run_graph_ops [MarkInProgress "A"; RecomputeReadiness;
                                  ReadyGoals; NextBatch 2] graph_A_done) "A"
        = Some s'
        /\ GoalGraph.is_terminal s' = true)
  /\ (existsb (is_mark_done_of "A")
              [MarkInProgress "A"; RecomputeReadiness; ReadyGoals; NextBatch 2]
      = false ->
      status_of (run_graph_ops [MarkInProgress "A"; RecomputeReadiness;
                                ReadyGoals; NextBatch 2] graph_A_done) "A"
      = Some DONE).
Proof.
  assert (H1 : status_of graph_A_done "A" = Some DONE) by reflexivity.
  assert (H2 : GoalGraph.is_terminal DONE = true) by reflexivity.
  repeat (split; [assumption|]).
  exact (terminal_status_kept
           [MarkInProgress "A"; RecomputeReadiness; ReadyGoals; NextBatch 2]
           graph_A_done "A" DONE H1 H2).
Defined.

(** [add_goal] of [goal_A_again] into [graph_AB]. *)
Lemma add_goal_replaces_witness :
  nx.has_node graph_AB (id goal_A_again) = true
  /\ exists g',
       GoalGraph.add_goal goal_A_again graph_AB = (g', Ok tt)
       /\ goal_at g' (id goal_A_again) = Some goal_A_again
       /\ keys (nx.nodes g') = keys (nx.nodes graph_AB)
       /\ nx.edges g' = nx.edges graph_AB
       /\ forall n, n <> id goal_A_again ->
            lookup n (nx.nodes g') = lookup n (nx.nodes graph_AB).
Proof.
  assert (H1 : nx.has_node graph_AB (id goal_A_again) = true) by reflexivity.
  split; [assumption|].
  exact (add_goal_replaces graph_AB goal_A_again H1).
Defined.

(** [add_dependency(B, Z)] at [graph_AB], [Z] unknown. *)
Lemma add_dependency_creates_missing_witness :
  (nx.has_node graph_AB "B" = false \/ nx.has_node graph_AB "Z" = false)
  /\ snd (GoalGraph.add_dependency "B" "Z" graph_AB) <> Raise KeyError
  /\ nx.has_node (fst (GoalGraph.add_dependency "B" "Z" graph_AB)) "B" = true
  /\ nx.has_node (fst (GoalGraph.add_dependency "B" "Z" graph_AB)) "Z" = true
  /\ nx.has_edge (fst (GoalGraph.add_dependency "B" "Z" graph_AB)) "Z" "B" = true
  /\ (forall n, (n = "B" \/ n = "Z") -> nx.has_node graph_AB n = false ->
        lookup n (nx.nodes (fst (GoalGraph.add_dependency "B" "Z" graph_AB)))
        = Some None)
  /\ (forall n, nx.has_node graph_AB n = true ->
        lookup n (nx.nodes (fst (GoalGraph.add_dependency "B" "Z" graph_AB)))
        = lookup n (nx.nodes graph_AB))
  /\ (well_formed graph_AB = true -> acyclic graph_AB -> "B" <> "Z" ->
      snd (GoalGraph.add_dependency "B" "Z" graph_AB) = Ok tt).
Proof.
  assert (H1 : nx.has_node graph_AB "B" = false \/ nx.has_node graph_AB "Z" = false)
    by (right; reflexivity).
  split; [assumption|].
  exact (add_dependency_creates_missing graph_AB "B" "Z" H1).
Defined.

(** [next_batch(2)] at [graph_AB], and [next_batch(1)] over [five_goals]. *)
Lemma next_batch_bounded_ready_sorted_witness :
  (0 <= 2)%Z
  /\ well_formed graph_AB = true /\ goal_complete graph_AB = true
  /\ acyclic graph_AB
  /\ NoDup (map id five_goals)
  /\ In (sample_goal "G2" "G2" CRITICAL PENDING) five_goals
  /\ priority (sample_goal "G2" "G2" CRITICAL PENDING) = CRITICAL
  /\ (forall x, In x five_goals -> x <> sample_goal "G2" "G2" CRITICAL PENDING ->
        priority x = LOW)
  /\ GoalGraph.is_settled (status (sample_goal "G2" "G2" CRITICAL PENDING)) = false
  /\ (exists g' batch all,
        AdaptivePlanner.next_batch 2 graph_AB = (g', Ok batch)
        /\ (Z.of_nat (List.length batch) <= 2)%Z
        /\ Forall (fun x => status x = READY) batch
        /\ in_batch_order batch
        /\ GoalGraph.goals g' = (g', Ok all)
        /\ incl batch all)
  /\ (exists g', AdaptivePlanner.next_batch 1 (graph_of_goals five_goals)
                 = (g', Ok [with_status READY (sample_goal "G2" "G2" CRITICAL PENDING)])).
Proof.
  assert (H0 : (0 <= 2)%Z) by lia.
  assert (H1 : well_formed graph_AB = true) by reflexivity.
  assert (H2 : goal_complete graph_AB = true) by reflexivity.
  assert (H3 : acyclic graph_AB) by reflexivity.
  assert (H4 : NoDup (map id five_goals)).
  { apply nodupb_NoDup. reflexivity. }
  assert (H5 : In (sample_goal "G2" "G2" CRITICAL PENDING) five_goals)
    by (simpl; tauto).
  assert (H6 : priority (sample_goal "G2" "G2" CRITICAL PENDING) = CRITICAL)
    by reflexivity.
  assert (H7 : forall x, In x five_goals ->
                 x <> sample_goal "G2" "G2" CRITICAL PENDING -> priority x = LOW).
  { simpl. intros x [<-|[<-|[<-|[<-|[<-|[]]]]]] Hx; try reflexivity.
    now contradiction Hx. }
  assert (H8 : GoalGraph.is_settled
                 (status (sample_goal "G2" "G2" CRITICAL PENDING)) = false)
    by reflexivity.
  repeat (split; [assumption|]).
  exact (next_batch_bounded_ready_sorted graph_AB 2 five_goals
           (sample_goal "G2" "G2" CRITICAL PENDING) H0 H1 H2 H3 H4 H5 H6 H7 H8).
Defined.

(** ** The shared state store *)

Lemma lookup_update_all {V : Type} k (other : list (string * V)) : forall d,
  NoDup (keys other) ->
  lookup k (update_all d other)
  = match lookup k other with Some v => Some v | None => lookup k d end.
Proof.
  unfold update_all.
  induction other as [|[k' v'] r IH]; intros d Hnd; simpl; auto.
  inversion Hnd as [|? ? Hnot Hnd']. subst.
  rewrite IH by auto. simpl.
  destruct (String.eqb k k') eqn:E.
  - apply String.eqb_eq in E. subst k'.
    apply lookup_none in Hnot. rewrite Hnot. apply lookup_upsert_eq.
  - apply String.eqb_neq in E.
    destruct (lookup k r); auto. now apply lookup_upsert_ne.
Qed.

Section StoreFacts.
Variable int_of_str : string -> result Z.
Variable chars_of_str : string -> list json.
Variable dict_of_items : list json -> result (list (string * json)).

Let persist := SharedMemory._persist chars_of_str dict_of_items.
Let run_op := SharedMemory.run_op int_of_str chars_of_str dict_of_items.
Let run_ops := SharedMemory.run_ops int_of_str chars_of_str dict_of_items.

(** What [_persist] writes: the document read, with the three owned
  namespaces set on top; the in-memory state is not touched. *)
Lemma persist_result s :
(exists e, persist s = (s, Raise e))
\/ (exists logs artifacts metrics,
      persist s
      = ({| SharedMemory._state := SharedMemory._state s;
            SharedMemory.disk :=
              SharedMemory.Doc
                (JDict (upsert "metrics" (JDict metrics)
                          (upsert "artifacts" (JDict artifacts)
                             (upsert "logs" (JList logs)
                                (update_all []
                                   (SharedMemory.top_level (SharedMemory.disk s))))))) |},
         Ok tt)).
Proof.
unfold persist, SharedMemory._persist.
destruct (SharedMemory.py_list _ _) as [logs|e]; [|left; eauto].
destruct (SharedMemory.py_dict _ _ (SharedMemory.dict_get "artifacts" _ _))
  as [artifacts|e]; [|left; eauto].
destruct (SharedMemory.py_dict _ _ (SharedMemory.dict_get "metrics" _ _))
  as [metrics|e]; [|left; eauto].
right. exists logs, artifacts, metrics. do 3 f_equal.
destruct (SharedMemory.disk s) as [| |[]]; reflexivity.
Qed.

Lemma persist_state s : SharedMemory._state (fst (persist s)) = SharedMemory._state s.
Proof.
destruct (persist_result s) as [[e ->]|(l & a & m & ->)]; reflexivity.
Qed.

Lemma persist_frame s k :
NoDup (keys (SharedMemory.top_level (SharedMemory.disk s))) ->
SharedMemory.is_owned k = false ->
lookup k (SharedMemory.top_level (SharedMemory.disk (fst (persist s))))
= lookup k (SharedMemory.top_level (SharedMemory.disk s)).
Proof.
intros Hnd Hk. unfold SharedMemory.is_owned in Hk.
apply orb_false_iff in Hk. destruct Hk as [Hk Hm].
apply orb_false_iff in Hk. destruct Hk as [Hl Ha].
apply String.eqb_neq in Hl, Ha, Hm.
destruct (persist_result s) as [[e ->]|(l & a & m & ->)]; [reflexivity|].
simpl. rewrite !lookup_upsert_ne by auto.
rewrite lookup_update_all by auto. simpl.
now destruct (lookup k _).
Qed.

Lemma persist_writes s :
snd (persist s) = Ok tt ->
exists d, SharedMemory.disk (fst (persist s)) = SharedMemory.Doc (JDict d).
Proof.
destruct (persist_result s) as [[e ->]|(l & a & m & ->)]; simpl;
  [discriminate | eauto].
Qed.

(** Every mutating operation either stops before it persists, with the
  file as it was, or ends in [_persist] on the updated state. *)
Lemma run_op_shape o s :
(exists st e,
    run_op o s
    = ({| SharedMemory._state := st; SharedMemory.disk := SharedMemory.disk s |},
       Raise e))
\/ (exists st,
      run_op o s
      = persist {| SharedMemory._state := st;
                   SharedMemory.disk := SharedMemory.disk s |}).
Proof.
destruct s as [st0 f]. unfold run_op, persist.
destruct o as [key value|item|name value|name inc]; simpl.
- right. unfold SharedMemory.set. simpl. eauto.
- unfold SharedMemory.append_log. simpl.
  destruct (lookup "logs" st0) as [[]|]; eauto.
- unfold SharedMemory.record_artifact. simpl.
  destruct (lookup "artifacts" st0) as [[]|]; eauto.
- unfold SharedMemory.bump_metric.
  cbv beta iota zeta delta [SharedMemory._state SharedMemory.disk].
  destruct (SharedMemory.dict_get "metrics" _ _); eauto.
  destruct (SharedMemory.py_int _ _); eauto.
Qed.

(** C9: whatever mutating operation runs, a top-level key of the document
  on disk other than [logs], [artifacts] and [metrics] has the same value
  in the file afterwards; and an operation that returns has written a
  document. *)
Theorem persist_keeps_foreign_keys (o : SharedMemory.op) (s : SharedMemory.store)
  (k : string) :
NoDup (keys (SharedMemory.top_level (SharedMemory.disk s))) ->
SharedMemory.is_owned k = false ->
lookup k (SharedMemory.top_level
            (SharedMemory.disk
               (fst (SharedMemory.run_op int_of_str chars_of_str dict_of_items o s))))
= lookup k (SharedMemory.top_level (SharedMemory.disk s))
/\ (snd (SharedMemory.run_op int_of_str chars_of_str dict_of_items o s) = Ok tt ->
    exists d,
      SharedMemory.disk
        (fst (SharedMemory.run_op int_of_str chars_of_str dict_of_items o s))
      = SharedMemory.Doc (JDict d)).
Proof.
intros Hnd Hk. fold run_op.
destruct (run_op_shape o s) as [(st & e & ->)|(st & ->)]; simpl.
- split; [reflexivity | discriminate].
- split.
  + now rewrite persist_frame.
  + apply persist_writes.
Qed.

Lemma metric_state s1 s2 name :
SharedMemory._state s1 = SharedMemory._state s2 ->
SharedMemory.metric s1 name = SharedMemory.metric s2 name.
Proof. unfold SharedMemory.metric. now intros ->. Qed.

Lemma metric_upsert_other st f key value name :
key <> "metrics" ->
SharedMemory.metric
  {| SharedMemory._state := upsert key value st; SharedMemory.disk := f |} name
= SharedMemory.metric {| SharedMemory._state := st; SharedMemory.disk := f |} name.
Proof.
intros H. unfold SharedMemory.metric. simpl.
rewrite lookup_upsert_ne by congruence. reflexivity.
Qed.

Lemma metric_persist s name :
SharedMemory.metric (fst (persist s)) name = SharedMemory.metric s name.
Proof. apply metric_state, persist_state. Qed.

Lemma run_op_metric o s name z :
SharedMemory.metric s name = Some z -> keeps_counters o = true ->
exists z', SharedMemory.metric (fst (run_op o s)) name = Some z' /\ (z <= z')%Z.
Proof.
intros Hm Hk. destruct s as [st f]. unfold run_op.
destruct o as [key value|item|nm value|nm inc]; simpl in *.
- unfold SharedMemory.set. simpl. fold persist.
  rewrite metric_persist, metric_upsert_other, Hm.
  + exists z. split; auto. lia.
  + apply negb_true_iff, String.eqb_neq in Hk. exact Hk.
- exists z. split; [|lia]. unfold SharedMemory.append_log. simpl. fold persist.
  destruct (lookup "logs" st) as [[]|]; simpl; auto;
    rewrite metric_persist, metric_upsert_other; auto; discriminate.
- exists z. split; [|lia]. unfold SharedMemory.record_artifact. simpl.
  fold persist.
  destruct (lookup "artifacts" st) as [[]|]; simpl; auto;
    rewrite metric_persist, metric_upsert_other; auto; discriminate.
- unfold SharedMemory.bump_metric.
  cbv beta iota zeta delta [SharedMemory._state SharedMemory.disk].
  fold persist. unfold SharedMemory.metric in Hm. simpl in Hm.
  destruct (lookup "metrics" st) as [[| | | | |m]|] eqn:Em; try discriminate.
  unfold SharedMemory.dict_get at 1. rewrite Em.
  destruct (String.eqb_spec nm name) as [->|Hne].
  + destruct (lookup name m) as [[| |z0| | |]|] eqn:En; try discriminate.
    injection Hm as ->.
    unfold SharedMemory.dict_get. rewrite En. simpl.
    rewrite metric_persist. unfold SharedMemory.metric. simpl.
    rewrite !lookup_upsert_eq. exists (z + inc)%Z. split; auto.
    apply Z.leb_le in Hk. lia.
  + exists z. split; [|lia].
    destruct (SharedMemory.py_int int_of_str _) as [v|e]; simpl.
    * rewrite metric_persist. unfold SharedMemory.metric. simpl.
      rewrite lookup_upsert_eq, lookup_upsert_ne by congruence. exact Hm.
    * unfold SharedMemory.metric. simpl. now rewrite Em.
Qed.

(** C8: along any sequence of [append_log], [record_artifact], [set] on a
  key other than [metrics] and [bump_metric] with an increment that is not
  negative, the integer recorded under a metric name never decreases. *)
Theorem metrics_never_decrease (os : list SharedMemory.op) (s : SharedMemory.store)
  (name : string) (z : Z) :
SharedMemory.metric s name = Some z ->
forallb keeps_counters os = true ->
exists z',
  SharedMemory.metric
    (SharedMemory.run_ops int_of_str chars_of_str dict_of_items os s) name
  = Some z'
  /\ (z <= z')%Z.
Proof.
revert s z. unfold SharedMemory.run_ops.
induction os as [|o r IH]; intros s z Hm Hk; simpl in *.
- exists z. split; auto. lia.
- apply andb_true_iff in Hk. destruct Hk as [Ho Hr].
  destruct (run_op_metric o s name z Hm Ho) as (z1 & Hz1 & Hle).
  destruct (IH _ _ Hz1 Hr) as (z2 & Hz2 & Hle2).
  exists z2. split; auto. lia.
Qed.
End StoreFacts.

(** ** The store at a concrete state *)

(** [bump_metric("x", -1)] takes the counter [x] from 5 to 4. *)
Lemma bump_metric_negative_decreases :
  SharedMemory.metric store_x5 "x" = Some 5%Z
  /\ SharedMemory.metric
       (SharedMemory.run_ops no_int_of_str no_chars_of_str no_dict_of_items
          [SharedMemory.BumpMetric "x" (-1)] store_x5) "x"
     = Some 4%Z.
Proof. split; reflexivity. Qed.

(** The counter [x] of [store_x5] along five operations. *)
Lemma metrics_never_decrease_witness :
  SharedMemory.metric store_x5 "x" = Some 5%Z
  /\ forallb keeps_counters
       [SharedMemory.BumpMetric "x" 2; SharedMemory.AppendLog (JStr "step");
        SharedMemory.BumpMetric "runs_completed" 1;
        SharedMemory.RecordArtifact "result:A" (JBool true);
        SharedMemory.Set_ "world" (JDict [])] = true
  /\ exists z',
       SharedMemory.metric
         (SharedMemory.run_ops no_int_of_str no_chars_of_str no_dict_of_items
            [SharedMemory.BumpMetric "x" 2; SharedMemory.AppendLog (JStr "step");
             SharedMemory.BumpMetric "runs_completed" 1;
             SharedMemory.RecordArtifact "result:A" (JBool true);
             SharedMemory.Set_ "world" (JDict [])] store_x5) "x"
       = Some z'
       /\ (5 <= z')%Z.
Proof.
  assert (H1 : SharedMemory.metric store_x5 "x" = Some 5%Z) by reflexivity.
  assert (H2 : forallb keeps_counters
                 [SharedMemory.BumpMetric "x" 2; SharedMemory.AppendLog (JStr "step");
                  SharedMemory.BumpMetric "runs_completed" 1;
                  SharedMemory.RecordArtifact "result:A" (JBool true);
                  SharedMemory.Set_ "world" (JDict [])] = true) by reflexivity.
  repeat (split; [assumption|]).
  exact (metrics_never_decrease no_int_of_str no_chars_of_str no_dict_of_items
           _ store_x5 "x" 5%Z H1 H2).
Defined.

(** [record_artifact] at [store_x5] keeps the [goals] key of the file. *)
Lemma persist_keeps_foreign_keys_witness :
  NoDup (keys (SharedMemory.top_level (SharedMemory.disk store_x5)))
  /\ SharedMemory.is_owned "goals" = false
  /\ lookup "goals"
       (SharedMemory.top_level
          (SharedMemory.disk
             (fst (SharedMemory.run_op no_int_of_str no_chars_of_str no_dict_of_items
                     (SharedMemory.RecordArtifact "x" (JInt 1)) store_x5))))
     = lookup "goals" (SharedMemory.top_level (SharedMemory.disk store_x5))
  /\ (snd (SharedMemory.run_op no_int_of_str no_chars_of_str no_dict_of_items
             (SharedMemory.RecordArtifact "x" (JInt 1)) store_x5) = Ok tt ->
      exists d,
        SharedMemory.disk
          (fst (SharedMemory.run_op no_int_of_str no_chars_of_str no_dict_of_items
                  (SharedMemory.RecordArtifact "x" (JInt 1)) store_x5))
        = SharedMemory.Doc (JDict d)).
Proof.
  assert (H1 : NoDup (keys (SharedMemory.top_level (SharedMemory.disk store_x5)))).
  { apply nodupb_NoDup. reflexivity. }
  assert (H2 : SharedMemory.is_owned "goals" = false) by reflexivity.
  repeat (split; [assumption|]).
  exact (persist_keeps_foreign_keys no_int_of_str no_chars_of_str no_dict_of_items
           (SharedMemory.RecordArtifact "x" (JInt 1)) store_x5 "goals" H1 H2).
Defined.

(** The store round trip of the specification: an artifact recorded, then a
    new store on the same file, with the orchestrator's [goals] key still
    in the file as it was. *)
Lemma record_artifact_round_trip :
  let s' := fst (SharedMemory.record_artifact no_chars_of_str no_dict_of_items
                   "x" (JInt 7) store_x5) in
  lookup "artifacts"
    (SharedMemory._state (SharedMemory._load_from_disk (SharedMemory.disk s')))
  = Some (JDict [("x", JInt 7)])
  /\ lookup "goals" (SharedMemory.top_level (SharedMemory.disk s'))
     = lookup "goals" (SharedMemory.top_level (SharedMemory.disk store_x5)).
Proof. split; reflexivity. Qed.

(** * Further properties: dependencies, batches, snapshots, the store
    over time, the tool registry and slugs *)

(** ** Dependencies: repeating a call, the order of calls, and which calls
    are accepted *)

Lemma add_edge_twice g u v : nx.add_edge (nx.add_edge g u v) u v = nx.add_edge g u v.
Proof.
  assert (Hu : has_key u (nx.touch_node v (nx.touch_node u (nx.nodes g))) = true).
  { apply has_key_touch_other, has_key_touch_same. }
  assert (Hv : has_key v (nx.touch_node v (nx.touch_node u (nx.nodes g))) = true).
  { apply has_key_touch_same. }
  unfold nx.add_edge at 1. rewrite has_edge_add_edge.
  cbn [nx.nodes nx.edges nx.add_edge].
  rewrite (touch_node_known u _ Hu), (touch_node_known v _ Hv).
  reflexivity.
Qed.

(** X1: a dependency declared a second time changes nothing: the call
    leaves the graph the first call left, edge and nodes there once, and
    ends the way the first call ended. *)
Theorem add_dependency_idempotent (g : nx.DiGraph) (a b : string) :
  GoalGraph.add_dependency a b (fst (GoalGraph.add_dependency a b g))
  = GoalGraph.add_dependency a b g.
Proof.
  rewrite add_dependency_state.
  unfold GoalGraph.add_dependency. now rewrite add_edge_twice.
Qed.

(** The check decides: on a well-formed graph [add_dependency] either
    returns, the new edge closing no cycle, or fails its assertion. *)
Lemma add_dependency_outcome g a b :
  well_formed g = true ->
  (~ cyclic (nx.add_edge g b a)
   /\ GoalGraph.add_dependency a b g = (nx.add_edge g b a, Ok tt))
  \/ (cyclic (nx.add_edge g b a)
      /\ GoalGraph.add_dependency a b g = (nx.add_edge g b a, Raise AssertionError)).
Proof.
  intros Hwf.
  pose proof (well_formed_add_edge g b a Hwf) as Hwf'.
  destruct (dag_check_answers _ Hwf') as [Hd|Hd].
  - left. assert (Hc : ~ cyclic (nx.add_edge g b a)).
    { now apply (acyclic_no_cycle _ Hwf'). }
    split; auto. now apply add_dependency_accepted.
  - right. assert (Hc : cyclic (nx.add_edge g b a)).
    { destruct (topological_sort_ok _ Hwf') as (order & fin & Hs & Hr & Hok & Hcyc).
      apply Hcyc. unfold nx.is_directed_acyclic_graph in Hd. rewrite Hs in Hd.
      simpl in Hd. destruct fin as [[]|]; try discriminate; reflexivity. }
    split; auto. now apply add_dependency_cycle_rejected.
Qed.

Lemma reach_edges g1 g2 u v :
  (forall x y, In (x, y) (nx.edges g1) -> In (x, y) (nx.edges g2)) ->
  reach g1 u v -> reach g2 u v.
Proof.
  intros Hsub H. induction H as [u v He|u v w He _ IH].
  - apply reach_edge. auto.
  - eapply reach_step; eauto.
Qed.

(** A path in the graph with the edge [b -> a] added is a path of [g], or
    runs through the new edge. *)
Lemma reach_add_edge g a b x y :
  reach (nx.add_edge g b a) x y ->
  (a = b \/ reach g a b)
  \/ reach g x y
  \/ ((x = b \/ reach g x b) /\ (y = a \/ reach g a y)).
Proof.
  intros H. induction H as [u v He|u v w He _ IH].
  - apply in_edges_add_edge in He. destruct He as [He|He].
    + right. left. now apply reach_edge.
    + injection He as -> ->. right. right. auto.
  - apply in_edges_add_edge in He.
    destruct IH as [Q|[Hvw|[Hvb Haw]]]; [now left | |].
    + destruct He as [He|He].
      * right. left. eapply reach_step; eauto.
      * injection He as -> ->. right. right. auto.
    + destruct He as [He|He].
      * right. right. split; auto. right.
        destruct Hvb as [->|Hvb]; [now apply reach_edge|].
        eapply reach_step; eauto.
      * injection He as -> ->. left.
        destruct Hvb as [Hvb|Hvb]; auto.
Qed.

Lemma cyclic_add_edge g a b :
  ~ cyclic g ->
  cyclic (nx.add_edge g b a) <-> a = b \/ reach g a b.
Proof.
  intros Hac. split.
  - intros [u Hu]. apply reach_add_edge in Hu.
    destruct Hu as [Q|[Hu|[Hub Hau]]]; auto.
    + exfalso. apply Hac. now exists u.
    + destruct Hub as [->|Hub], Hau as [Hau|Hau]; auto.
      * right. subst. exact Hub.
      * right. eapply reach_trans; eauto.
  - intros [->|H].
    + exists b. apply reach_edge. apply in_edges_add_edge. now right.
    + exists b. eapply reach_step.
      * apply in_edges_add_edge. right. reflexivity.
      * eapply reach_edges; [|exact H].
        intros x y Hxy. apply in_edges_add_edge. now left.
Qed.

(** X3: on a graph without a cycle, [add_dependency(a, b)] returns exactly
    when [a] is not [b] and no chain of dependencies leads from [a] to [b]
    already; in every other case it fails its assertion. *)
Theorem add_dependency_accepted_iff (g : nx.DiGraph) (a b : string) :
  well_formed g = true -> acyclic g ->
  (snd (GoalGraph.add_dependency a b g) = Ok tt <-> a <> b /\ ~ reach g a b)
  /\ (snd (GoalGraph.add_dependency a b g) = Ok tt
      \/ snd (GoalGraph.add_dependency a b g) = Raise AssertionError).
Proof.
  intros Hwf Hac.
  assert (Hnc : ~ cyclic g) by now apply (acyclic_no_cycle g Hwf).
  pose proof (cyclic_add_edge g a b Hnc) as Hiff.
  destruct (add_dependency_outcome g a b Hwf) as [[Hc ->]|[Hc ->]]; simpl.
  - split; [|now left]. split; auto. intros _.
    split; intros H; apply Hc, Hiff; auto.
  - split; [|now right]. split; [discriminate|].
    intros [Hne Hnr]. apply Hiff in Hc. destruct Hc; contradiction.
Qed.

Lemma add_dependency_accepted_iff_witness :
  well_formed graph_AB = true /\ acyclic graph_AB
  /\ (snd (GoalGraph.add_dependency "A" "B" graph_AB) = Ok tt
      <-> "A" <> "B" /\ ~ reach graph_AB "A" "B")
  /\ (snd (GoalGraph.add_dependency "A" "B" graph_AB) = Ok tt
      \/ snd (GoalGraph.add_dependency "A" "B" graph_AB) = Raise AssertionError).
Proof.
  assert (H1 : well_formed graph_AB = true) by reflexivity.
  assert (H2 : acyclic graph_AB) by reflexivity.
  repeat (split; [assumption|]).
  exact (add_dependency_accepted_iff graph_AB "A" "B" H1 H2).
Defined.

Lemma upsert_touch_same n (v : option Goal) ns :
  upsert n v (nx.touch_node n ns) = upsert n v ns.
Proof.
  unfold nx.touch_node. destruct (has_key n ns) eqn:E; auto.
  assert (Hn : lookup n ns = None).
  { unfold has_key in E. destruct (lookup n ns); [discriminate|reflexivity]. }
  clear E. induction ns as [|[k w] r IH]; simpl in *.
  - now rewrite String.eqb_refl.
  - destruct (String.eqb n k); [discriminate|]. now rewrite IH.
Qed.

Lemma has_key_upsert_same {V : Type} k (v : V) d : has_key k (upsert k v d) = true.
Proof. unfold has_key. now rewrite lookup_upsert_eq. Qed.

Lemma has_key_upsert_other {V : Type} k k0 (v : V) d :
  has_key k d = true -> has_key k (upsert k0 v d) = true.
Proof.
  unfold has_key. intros H.
  destruct (String.eqb_spec k k0) as [->|Hne].
  - now rewrite lookup_upsert_eq.
  - now rewrite lookup_upsert_ne.
Qed.

(** X2: a dependency on a goal that is added afterwards.  When [a] is a
    goal of the graph, [add_dependency(a, b)] followed by [add_goal] of the
    goal [b] ends as the two calls in the other order do, and when the
    dependency is accepted both orders leave the same graph, in which the
    node [b] carries its goal. *)
Theorem add_dependency_before_add_goal (g : nx.DiGraph) (goal : Goal) (a : string) :
  well_formed g = true -> nx.has_node g a = true ->
  snd ((GoalGraph.add_dependency a (id goal) ;;; GoalGraph.add_goal goal) g)
  = snd ((GoalGraph.add_goal goal ;;; GoalGraph.add_dependency a (id goal)) g)
  /\ (snd ((GoalGraph.add_dependency a (id goal) ;;; GoalGraph.add_goal goal) g) = Ok tt ->
      fst ((GoalGraph.add_dependency a (id goal) ;;; GoalGraph.add_goal goal) g)
      = fst ((GoalGraph.add_goal goal ;;; GoalGraph.add_dependency a (id goal)) g)
      /\ goal_at (fst ((GoalGraph.add_dependency a (id goal) ;;; GoalGraph.add_goal goal) g))
                 (id goal) = Some goal
      /\ In (id goal)
            (nx.predecessors
               (fst ((GoalGraph.add_dependency a (id goal) ;;; GoalGraph.add_goal goal) g)) a)
      /\ (goal_complete g = true ->
          goal_complete
            (fst ((GoalGraph.add_dependency a (id goal) ;;; GoalGraph.add_goal goal) g))
          = true)).
Proof.
  intros Hwf Ha. set (b := id goal).
  set (g1 := nx.add_node g b goal).
  assert (Hwf1 : well_formed g1 = true) by now apply well_formed_add_node.
  assert (Hedges : nx.edges (nx.add_edge g1 b a) = nx.edges (nx.add_edge g b a)).
  { reflexivity. }
  assert (Hcyc : cyclic (nx.add_edge g1 b a) <-> cyclic (nx.add_edge g b a)).
  { unfold cyclic. split; intros [u Hu]; exists u;
      (eapply reach_edges; [|exact Hu]); intros x y; now rewrite Hedges. }
  assert (Hnodes : nx.add_node (nx.add_edge g b a) b goal = nx.add_edge g1 b a).
  { unfold nx.add_node, nx.add_edge, g1. cbn [nx.nodes nx.edges nx.add_node].
    f_equal.
    assert (Ha' : has_key a (nx.touch_node b (nx.nodes g)) = true)
      by now apply has_key_touch_other.
    rewrite (touch_node_known a _ Ha'), upsert_touch_same.
    rewrite (touch_node_known b) by apply has_key_upsert_same.
    rewrite touch_node_known; auto.
    now apply has_key_upsert_other. }
  assert (E1 : (GoalGraph.add_goal goal ;;; GoalGraph.add_dependency a b) g
               = GoalGraph.add_dependency a b g1) by reflexivity.
  rewrite E1.
  assert (E2 : (GoalGraph.add_dependency a b ;;; GoalGraph.add_goal goal) g
               = match snd (GoalGraph.add_dependency a b g) with
                 | Ok _ => (nx.add_node (nx.add_edge g b a) b goal, Ok tt)
                 | Raise e => (nx.add_edge g b a, Raise e)
                 end).
  { unfold bind. rewrite (surjective_pairing (GoalGraph.add_dependency a b g)).
    rewrite add_dependency_state. cbn [snd].
    destruct (snd (GoalGraph.add_dependency a b g)); reflexivity. }
  rewrite E2. clear E1 E2.
  destruct (add_dependency_outcome g a b Hwf) as [[Hc ->]|[Hc ->]];
    destruct (add_dependency_outcome g1 a b Hwf1) as [[Hc1 ->]|[Hc1 ->]];
    try (exfalso; tauto).
  - cbn [fst snd]. rewrite Hnodes.
    split; auto. intros _. split; [reflexivity|].
    assert (Hn1 : nx.nodes (nx.add_edge g1 b a) = nx.nodes g1).
    { apply add_edge_known_nodes.
      - apply has_key_upsert_same.
      - unfold nx.has_node, g1. simpl. now apply has_key_upsert_other. }
    split; [|split].
    + unfold goal_at. rewrite Hn1. unfold g1. simpl.
      now rewrite lookup_upsert_eq.
    + apply predecessors_in. apply in_edges_add_edge. now right.
    + intros Hgc. unfold goal_complete in *. rewrite Hn1. unfold g1. simpl.
      now apply goal_complete_upsert.
  - cbn [fst snd]. split; [reflexivity|discriminate].
Qed.

(** ** A node without a goal, and calls on an id that is not a goal *)

Lemma goal_at_put_ne m goal g n : n <> m -> goal_at (put_goal m goal g) n = goal_at g n.
Proof.
  intros H. unfold goal_at, put_goal. simpl. now rewrite lookup_upsert_ne.
Qed.

Lemma goal_at_put_eq n goal g : goal_at (put_goal n goal g) n = Some goal.
Proof. unfold goal_at, put_goal. simpl. now rewrite lookup_upsert_eq. Qed.

Lemma all_done_outcome preds : forall g,
  (exists ok, snd (GoalGraph.all_done preds g) = Ok ok)
  \/ snd (GoalGraph.all_done preds g) = Raise KeyError.
Proof.
  induction preds as [|p r IH]; intros g; simpl.
  - left. now exists true.
  - unfold bind. destruct (goal_at g p) as [goal|] eqn:E.
    + rewrite (node_goal_some _ _ _ E).
      destruct (status_eqb (status goal) DONE); auto.
      left. now exists false.
    + rewrite (node_goal_none _ _ E). now right.
Qed.

Lemma recompute_loop_goalless order : forall g n,
  In n order -> goal_at g n = None ->
  snd (GoalGraph.recompute_loop order g) = Raise KeyError.
Proof.
  induction order as [|m r IH]; intros g n Hin Hn; [contradiction|].
  rewrite recompute_loop_cons.
  destruct (goal_at g m) as [goal|] eqn:E; [|reflexivity].
  assert (Hne : n <> m) by congruence.
  destruct Hin as [Hin|Hin]; [congruence|].
  destruct (GoalGraph.is_settled (status goal)); [now apply (IH g n)|].
  pose proof (all_done_state (nx.predecessors g m) g) as Hst.
  pose proof (all_done_outcome (nx.predecessors g m) g) as Hout.
  destruct (GoalGraph.all_done (nx.predecessors g m) g) as [g1 [ok|e]];
    simpl in Hst, Hout; subst g1.
  - apply (IH _ n); auto. now rewrite goal_at_put_ne.
  - destruct Hout as [[ok Hok]|Hr]; [discriminate|simpl; congruence].
Qed.

Lemma to_state_loop_goalless order : forall acc g n,
  In n order -> goal_at g n = None ->
  GoalGraph.to_state_loop order acc g = (g, Raise KeyError).
Proof.
  induction order as [|m r IH]; intros acc g n Hin Hn; [contradiction|].
  simpl. unfold bind, gets.
  destruct (goal_at g m) as [goal|] eqn:E.
  - rewrite (node_goal_some _ _ _ E). apply (IH _ g n); auto.
    destruct Hin as [Hin|Hin]; [congruence|auto].
  - now rewrite (node_goal_none _ _ E).
Qed.

Lemma goals_of_goalless ns n :
  lookup n ns = Some None -> GoalGraph.goals_of ns = Raise KeyError.
Proof.
  induction ns as [|[k [goal|]] r IH]; simpl; [discriminate| |reflexivity].
  destruct (String.eqb n k); [discriminate|].
  intros H. now rewrite (IH H).
Qed.

(** X4: a node that carries no goal, as [add_dependency] creates one for
    an id that is not a goal yet, stops every pass over the graph: with
    such a node in a graph that passes the check of [add_dependency],
    [recompute_readiness], [ready_goals], [next_batch], [goals] and
    [to_state] all raise [KeyError]. *)
Theorem node_without_goal_raises (g : nx.DiGraph) (n : string) :
  acyclic g -> lookup n (nx.nodes g) = Some None ->
  snd (GoalGraph.recompute_readiness g) = Raise KeyError
  /\ snd (GoalGraph.ready_goals g) = Raise KeyError
  /\ (forall k, snd (AdaptivePlanner.next_batch k g) = Raise KeyError)
  /\ snd (GoalGraph.goals g) = Raise KeyError
  /\ snd (GoalGraph.to_state g) = Raise KeyError.
Proof.
  intros Hac Hn.
  assert (Hg : goal_at g n = None) by (unfold goal_at; now rewrite Hn).
  destruct (proj1 (acyclic_sort g) Hac) as [order Hs].
  assert (Hin : In n order).
  { apply (Permutation_in n (Permutation_sym (topological_sort_perm g order Hs))).
    apply lookup_in_keys. congruence. }
  assert (H1 : snd (GoalGraph.recompute_readiness g) = Raise KeyError).
  { unfold GoalGraph.recompute_readiness. rewrite Hs. unfold bind.
    pose proof (recompute_loop_goalless order g n Hin Hg) as Hr.
    destruct (GoalGraph.recompute_loop order g) as [g1 [u|e]]; simpl in *;
      [discriminate|assumption]. }
  assert (H2 : snd (GoalGraph.ready_goals g) = Raise KeyError).
  { destruct (passes_agree g) as [_ Ho]. rewrite H1 in Ho.
    destruct (snd (GoalGraph.ready_goals g)); simpl in Ho;
      [contradiction|now subst]. }
  repeat split; auto.
  - intros k. unfold AdaptivePlanner.next_batch, bind.
    destruct (GoalGraph.ready_goals g) as [g1 [ready|e]]; simpl in *;
      [discriminate|assumption].
  - unfold GoalGraph.goals. simpl. now apply (goals_of_goalless _ n).
  - unfold GoalGraph.to_state. rewrite Hs. unfold bind.
    now rewrite (to_state_loop_goalless order [] g n Hin Hg).
Qed.

Lemma node_without_goal_raises_witness :
  acyclic (fst (GoalGraph.add_dependency "B" "Z" graph_AB))
  /\ lookup "Z" (nx.nodes (fst (GoalGraph.add_dependency "B" "Z" graph_AB)))
     = Some None
  /\ snd (GoalGraph.recompute_readiness
            (fst (GoalGraph.add_dependency "B" "Z" graph_AB))) = Raise KeyError
  /\ snd (GoalGraph.ready_goals
            (fst (GoalGraph.add_dependency "B" "Z" graph_AB))) = Raise KeyError
  /\ (forall k, snd (AdaptivePlanner.next_batch k
                       (fst (GoalGraph.add_dependency "B" "Z" graph_AB)))
                = Raise KeyError)
  /\ snd (GoalGraph.goals (fst (GoalGraph.add_dependency "B" "Z" graph_AB)))
     = Raise KeyError
  /\ snd (GoalGraph.to_state (fst (GoalGraph.add_dependency "B" "Z" graph_AB)))
     = Raise KeyError.
Proof.
  assert (H1 : acyclic (fst (GoalGraph.add_dependency "B" "Z" graph_AB)))
    by reflexivity.
  assert (H2 : lookup "Z" (nx.nodes (fst (GoalGraph.add_dependency "B" "Z" graph_AB)))
               = Some None) by reflexivity.
  repeat (split; [assumption|]).
  exact (node_without_goal_raises _ "Z" H1 H2).
Defined.

(** X5: the status calls and [get] on an id that is no goal of the graph
    (not a node, or a node without a goal) raise [KeyError] and leave the
    graph as it was; on a goal of the graph, [mark_done] returns and
    changes the status of that goal and nothing else. *)
Theorem status_calls_by_id (g : nx.DiGraph) (n : string) (b : bool) :
  match goal_at g n with
  | None =>
      GoalGraph.get n g = (g, Raise KeyError)
      /\ GoalGraph.mark_in_progress n g = (g, Raise KeyError)
      /\ GoalGraph.mark_done n b g = (g, Raise KeyError)
  | Some goal =>
      GoalGraph.get n g = (g, Ok goal)
      /\ snd (GoalGraph.mark_done n b g) = Ok tt
      /\ goal_at (fst (GoalGraph.mark_done n b g)) n
         = Some (with_status (if b then DONE else FAILED) goal)
      /\ keys (nx.nodes (fst (GoalGraph.mark_done n b g))) = keys (nx.nodes g)
      /\ nx.edges (fst (GoalGraph.mark_done n b g)) = nx.edges g
      /\ forall m, m <> n ->
           lookup m (nx.nodes (fst (GoalGraph.mark_done n b g)))
           = lookup m (nx.nodes g)
  end.
Proof.
  unfold GoalGraph.mark_done, GoalGraph.get.
  rewrite mark_in_progress_eval, set_status_eval.
  destruct (goal_at g n) as [goal|] eqn:E.
  - rewrite (node_goal_some _ _ _ E). simpl.
    destruct (put_goal_frame n (with_status (if b then DONE else FAILED) goal) g)
      as [Hk He]; [congruence|].
    repeat split; auto.
    + apply goal_at_put_eq.
    + intros m Hm. now apply lookup_upsert_ne.
  - rewrite (node_goal_none _ _ E). auto.
Qed.

(** ** The snapshot of the graph *)

Lemma to_state_loop_spec g order : forall acc,
  (forall n, In n order -> goal_at g n <> None) ->
  exists entries,
    GoalGraph.to_state_loop order acc g = (g, Ok (acc ++ entries))
    /\ Forall2 (fun n e =>
                  exists goal, goal_at g n = Some goal
                    /\ e = GoalGraph.state_entry goal (nx.predecessors g n))
               order entries.
Proof.
  induction order as [|n r IH]; intros acc H.
  - exists []. simpl. rewrite app_nil_r. split; [reflexivity|constructor].
  - destruct (goal_at g n) as [goal|] eqn:E.
    2:{ exfalso. apply (H n); auto. now left. }
    destruct (IH (acc ++ [GoalGraph.state_entry goal (nx.predecessors g n)]))
      as (entries & Hl & Hf).
    { intros m Hm. apply H. now right. }
    exists (GoalGraph.state_entry goal (nx.predecessors g n) :: entries).
    split.
    + simpl. unfold bind, gets. rewrite (node_goal_some _ _ _ E).
      rewrite Hl. now rewrite <- app_assoc.
    + constructor; auto. now exists goal.
Qed.

(** X6: the snapshot of a graph of goals without a cycle.  [to_state]
    returns and leaves the graph as it is; under ['goals'] it lists every
    node once, each after all the nodes it depends on, with the id, title
    and status value of the goal and its predecessors as dependencies. *)
Theorem to_state_snapshot (g : nx.DiGraph) :
  well_formed g = true -> goal_complete g = true -> acyclic g ->
  exists order entries,
    GoalGraph.to_state g = (g, Ok [("goals", JList entries)])
    /\ Permutation order (keys (nx.nodes g))
    /\ topo_from g [] order
    /\ Forall2 (fun n e =>
                  exists goal, goal_at g n = Some goal
                    /\ e = GoalGraph.state_entry goal (nx.predecessors g n))
               order entries.
Proof.
  intros Hwf Hgc Hac.
  destruct (topological_sort_ok g Hwf) as (order & fin & Hs & _ & Htopo & _).
  destruct (proj1 (acyclic_sort g) Hac) as [order' Hs'].
  rewrite Hs in Hs'. injection Hs' as <- ->.
  pose proof (topological_sort_perm g order Hs) as Hperm.
  destruct (to_state_loop_spec g order []) as (entries & Hl & Hf).
  { intros n Hn. apply goal_complete_goal; auto.
    now apply (Permutation_in n Hperm). }
  exists order, entries. repeat split; auto.
  unfold GoalGraph.to_state. rewrite Hs. unfold bind. now rewrite Hl.
Qed.

Lemma to_state_snapshot_witness :
  well_formed graph_AB = true /\ goal_complete graph_AB = true
  /\ acyclic graph_AB
  /\ exists order entries,
       GoalGraph.to_state graph_AB = (graph_AB, Ok [("goals", JList entries)])
       /\ Permutation order (keys (nx.nodes graph_AB))
       /\ topo_from graph_AB [] order
       /\ Forall2 (fun n e =>
                     exists goal, goal_at graph_AB n = Some goal
                       /\ e = GoalGraph.state_entry goal
                                (nx.predecessors graph_AB n))
                  order entries.
Proof.
  assert (H1 : well_formed graph_AB = true) by reflexivity.
  assert (H2 : goal_complete graph_AB = true) by reflexivity.
  assert (H3 : acyclic graph_AB) by reflexivity.
  repeat (split; [assumption|]).
  exact (to_state_snapshot graph_AB H1 H2 H3).
Defined.

(** ** What a batch holds *)

Lemma in_slice_to {A : Type} (k : Z) (l : list A) x :
  In x (AdaptivePlanner.slice_to k l) -> In x l.
Proof.
  unfold AdaptivePlanner.slice_to. destruct (0 <=? k)%Z; apply in_firstn.
Qed.

(** Where the goals of a batch come from: each is the goal of a node that
    was not IN_PROGRESS, DONE or FAILED and whose dependencies were all
    DONE, now READY. *)
Lemma next_batch_members g k :
  well_formed g = true -> goal_complete g = true -> acyclic g ->
  exists batch,
    AdaptivePlanner.next_batch k g = (refresh g, Ok batch)
    /\ forall x, In x batch ->
         exists n goal,
           goal_at g n = Some goal
           /\ GoalGraph.is_settled (status goal) = false
           /\ deps_done g n = true
           /\ x = with_status READY goal.
Proof.
  intros Hwf Hgc Hac.
  destruct (proj1 (acyclic_sort g) Hac) as [order Hs].
  pose proof (ready_goals_spec g order Hwf Hgc Hs) as Hr.
  exists (AdaptivePlanner.slice_to k
            (AdaptivePlanner.sort_by_key (flat_map (ready_at g) order))).
  split.
  - unfold AdaptivePlanner.next_batch, bind. now rewrite Hr.
  - intros x Hx. apply in_slice_to in Hx.
    apply (Permutation_in x (sort_by_key_perm _)) in Hx.
    apply in_flat_map in Hx. destruct Hx as (n & _ & Hx).
    unfold ready_at in Hx.
    destruct (goal_at g n) as [goal|] eqn:E; [|contradiction].
    destruct (GoalGraph.is_settled (status goal)) eqn:Es; [contradiction|].
    destruct (deps_done g n) eqn:Ed; [|contradiction].
    destruct Hx as [<-|[]]. exists n, goal. auto.
Qed.

(** X7: [next_batch] hands out no goal before its dependencies are done.
    Every goal of the batch is the goal stored at a node of the graph the
    call leaves, READY there, and every predecessor of that node is DONE;
    this for a batch size of either sign. *)
Theorem next_batch_dependencies_done (g : nx.DiGraph) (k : Z) :
  well_formed g = true -> goal_complete g = true -> acyclic g ->
  exists g' batch,
    AdaptivePlanner.next_batch k g = (g', Ok batch)
    /\ forall x, In x batch ->
         exists n,
           goal_at g' n = Some x
           /\ status x = READY
           /\ forall p, In p (nx.predecessors g' n) -> status_of g' p = Some DONE.
Proof.
  intros Hwf Hgc Hac.
  destruct (next_batch_members g k Hwf Hgc Hac) as (batch & Hb & Hm).
  exists (refresh g), batch. split; auto.
  intros x Hx. destruct (Hm x Hx) as (n & goal & Hg & Hs & Hd & ->).
  exists n. split; [|split].
  - rewrite goal_at_refresh, Hg. simpl. unfold refreshed. now rewrite Hs, Hd.
  - reflexivity.
  - intros p Hp. change (nx.predecessors (refresh g) n) with (nx.predecessors g n) in Hp.
    unfold deps_done in Hd. rewrite forallb_forall in Hd.
    specialize (Hd p Hp). rewrite <- is_done_refresh in Hd.
    unfold is_done in Hd.
    destruct (status_of (refresh g) p) as [[]|]; try discriminate. reflexivity.
Qed.

Lemma next_batch_dependencies_done_witness :
  well_formed graph_AB = true /\ goal_complete graph_AB = true
  /\ acyclic graph_AB
  /\ exists g' batch,
       AdaptivePlanner.next_batch 3 graph_AB = (g', Ok batch)
       /\ forall x, In x batch ->
            exists n,
              goal_at g' n = Some x
              /\ status x = READY
              /\ forall p, In p (nx.predecessors g' n) ->
                   status_of g' p = Some DONE.
Proof.
  assert (H1 : well_formed graph_AB = true) by reflexivity.
  assert (H2 : goal_complete graph_AB = true) by reflexivity.
  assert (H3 : acyclic graph_AB) by reflexivity.
  repeat (split; [assumption|]).
  exact (next_batch_dependencies_done graph_AB 3 H1 H2 H3).
Defined.


(** ** Goals and the nodes that hold them *)

Lemma ids_match_goal g n goal :
  ids_match g = true -> goal_at g n = Some goal -> id goal = n.
Proof.
  unfold ids_match. intros H Hg. apply goal_at_lookup, in_of_lookup in Hg.
  rewrite forallb_forall in H. specialize (H _ Hg). simpl in H.
  now apply String.eqb_eq.
Qed.

Lemma ids_match_upsert n goal ns :
  id goal = n ->
  forallb (fun kv : string * option Goal =>
             match snd kv with
             | Some goal => String.eqb (id goal) (fst kv)
             | None => true
             end) ns = true ->
  forallb (fun kv : string * option Goal =>
             match snd kv with
             | Some goal => String.eqb (id goal) (fst kv)
             | None => true
             end) (upsert n (Some goal) ns) = true.
Proof.
  intros Hid. induction ns as [|[k w] r IH]; simpl.
  - intros _. subst n. now rewrite String.eqb_refl.
  - intros H. apply andb_true_iff in H. destruct H as [H1 H2].
    destruct (String.eqb n k) eqn:E; simpl.
    + apply String.eqb_eq in E. subst. now rewrite String.eqb_refl.
    + rewrite H1. now apply IH.
Qed.

Lemma ids_match_put g n goal s :
  ids_match g = true -> goal_at g n = Some goal ->
  ids_match (put_goal n (with_status s goal) g) = true.
Proof.
  intros H Hg. unfold ids_match, put_goal. simpl.
  apply ids_match_upsert; auto. simpl. now apply (ids_match_goal g).
Qed.

Lemma ids_match_refresh g : ids_match g = true -> ids_match (refresh g) = true.
Proof.
  unfold ids_match, refresh. simpl. rewrite !forallb_forall.
  intros H kv Hin. apply in_map_iff in Hin. destruct Hin as ([k w] & <- & Hin).
  specialize (H _ Hin). simpl in *. destruct w as [goal|]; simpl; auto.
  unfold refreshed. destruct (GoalGraph.is_settled (status goal)); auto.
  destruct (deps_done g k); auto.
Qed.

Lemma ids_match_mark_in_progress g m :
  ids_match g = true -> ids_match (fst (GoalGraph.mark_in_progress m g)) = true.
Proof.
  intros H. rewrite mark_in_progress_eval.
  destruct (goal_at g m) as [goal|] eqn:E; auto.
  destruct (GoalGraph.is_terminal (status goal)); auto.
  simpl. now apply ids_match_put.
Qed.

Lemma mark_in_progress_status g m n :
  status_of (fst (GoalGraph.mark_in_progress m g)) n
  = if String.eqb n m
    then match status_of g n with
         | Some s => Some (if GoalGraph.is_terminal s then s else IN_PROGRESS)
         | None => None
         end
    else status_of g n.
Proof.
  rewrite mark_in_progress_eval.
  destruct (String.eqb_spec n m) as [->|Hne].
  - unfold status_of at 2. destruct (goal_at g m) as [goal|] eqn:E; simpl.
    + destruct (GoalGraph.is_terminal (status goal)) eqn:Et; simpl.
      * unfold status_of. now rewrite E.
      * apply status_of_put_eq.
    + unfold status_of. now rewrite E.
  - destruct (goal_at g m) as [goal|] eqn:E; simpl; auto.
    destruct (GoalGraph.is_terminal (status goal)); simpl; auto.
    now apply status_of_put_ne.
Qed.

Lemma mark_batch_keeps_in_progress batch : forall g n,
  status_of g n = Some IN_PROGRESS ->
  status_of (mark_batch batch g) n = Some IN_PROGRESS.
Proof.
  unfold mark_batch.
  induction batch as [|y r IH]; intros g n H; simpl; auto.
  apply IH. rewrite mark_in_progress_status, H.
  now destruct (String.eqb n (id y)).
Qed.

Lemma mark_batch_marks batch : forall g x,
  In x batch ->
  (forall y, In y batch -> status_of g (id y) = Some READY
                           \/ status_of g (id y) = Some IN_PROGRESS) ->
  status_of (mark_batch batch g) (id x) = Some IN_PROGRESS.
Proof.
  induction batch as [|y r IH]; intros g x Hin Hall; [contradiction|].
  change (mark_batch (y :: r) g)
    with (mark_batch r (fst (GoalGraph.mark_in_progress (id y) g))).
  assert (Hy : status_of (fst (GoalGraph.mark_in_progress (id y) g)) (id y)
               = Some IN_PROGRESS).
  { rewrite mark_in_progress_status, String.eqb_refl.
    destruct (Hall y (or_introl eq_refl)) as [-> | ->]; reflexivity. }
  destruct Hin as [->|Hin].
  - now apply mark_batch_keeps_in_progress.
  - apply IH; auto. intros z Hz. rewrite mark_in_progress_status.
    destruct (String.eqb_spec (id z) (id y)) as [E|E].
    + rewrite E in *. rewrite mark_in_progress_status, String.eqb_refl in Hy.
      right. exact Hy.
    + apply Hall. now right.
Qed.

Lemma mark_batch_ops batch g :
  mark_batch batch g = run_graph_ops (map (fun x => MarkInProgress (id x)) batch) g.
Proof.
  unfold mark_batch, run_graph_ops. revert g.
  induction batch as [|y r IH]; intros g; simpl; auto.
Qed.

Lemma run_graph_ops_invariants os : forall g,
  well_formed g = true -> goal_complete g = true -> acyclic g ->
  well_formed (run_graph_ops os g) = true
  /\ goal_complete (run_graph_ops os g) = true
  /\ acyclic (run_graph_ops os g).
Proof.
  unfold run_graph_ops.
  induction os as [|o r IH]; intros g Hwf Hgc Hac; simpl; auto.
  apply IH.
  - now rewrite well_formed_run_graph_op.
  - now apply goal_complete_run_graph_op.
  - now apply acyclic_run_graph_op.
Qed.

Lemma ids_match_mark_batch batch : forall g,
  ids_match g = true -> ids_match (mark_batch batch g) = true.
Proof.
  unfold mark_batch.
  induction batch as [|y r IH]; intros g H; simpl; auto.
  apply IH. now apply ids_match_mark_in_progress.
Qed.

(** X8: no goal is handed out twice.  After [next_batch] and
    [mark_in_progress] on the id of every goal of the batch, as the
    orchestrator's loop does, each of those goals is IN_PROGRESS and the
    next [next_batch], of any size, returns none of them. *)
Theorem next_batch_not_again (g : nx.DiGraph) (k k' : Z) :
  well_formed g = true -> goal_complete g = true -> acyclic g ->
  ids_match g = true ->
  exists g1 batch g2 batch',
    AdaptivePlanner.next_batch k g = (g1, Ok batch)
    /\ (forall x, In x batch ->
          status_of (mark_batch batch g1) (id x) = Some IN_PROGRESS)
    /\ AdaptivePlanner.next_batch k' (mark_batch batch g1) = (g2, Ok batch')
    /\ forall x x', In x batch -> In x' batch' -> id x <> id x'.
Proof.
  intros Hwf Hgc Hac Hid.
  destruct (next_batch_members g k Hwf Hgc Hac) as (batch & Hb & Hm).
  set (g1 := refresh g) in *.
  assert (Hid1 : ids_match g1 = true) by now apply ids_match_refresh.
  assert (Hinv1 : well_formed g1 = true /\ goal_complete g1 = true /\ acyclic g1).
  { unfold g1. rewrite well_formed_refresh, goal_complete_refresh.
    auto using acyclic_refresh. }
  destruct Hinv1 as (Hwf1 & Hgc1 & Hac1).
  assert (Hready : forall x, In x batch -> status_of g1 (id x) = Some READY).
  { intros x Hx. destruct (Hm x Hx) as (n & goal & Hg & Hs & Hd & ->).
    simpl. rewrite (ids_match_goal g n goal Hid Hg).
    unfold status_of, g1. rewrite goal_at_refresh, Hg. simpl.
    unfold refreshed. now rewrite Hs, Hd. }
  assert (Hmarked : forall x, In x batch ->
            status_of (mark_batch batch g1) (id x) = Some IN_PROGRESS).
  { intros x Hx. apply mark_batch_marks; auto. }
  set (g1' := mark_batch batch g1) in *.
  assert (Hinv : well_formed g1' = true /\ goal_complete g1' = true /\ acyclic g1').
  { unfold g1'. rewrite mark_batch_ops. now apply run_graph_ops_invariants. }
  destruct Hinv as (Hwf2 & Hgc2 & Hac2).
  assert (Hid2 : ids_match g1' = true) by now apply ids_match_mark_batch.
  destruct (next_batch_members g1' k' Hwf2 Hgc2 Hac2) as (batch' & Hb' & Hm').
  exists g1, batch, (refresh g1'), batch'.
  repeat split; auto.
  intros x x' Hx Hx' Heq.
  destruct (Hm' x' Hx') as (n & goal & Hg & Hs & Hd & ->).
  simpl in Heq. rewrite (ids_match_goal g1' n goal Hid2 Hg) in Heq.
  pose proof (Hmarked x Hx) as Hp. rewrite Heq in Hp.
  unfold status_of in Hp. rewrite Hg in Hp. simpl in Hp.
  injection Hp as Hp. rewrite Hp in Hs. discriminate.
Qed.

Lemma next_batch_not_again_witness :
  well_formed graph_AB = true /\ goal_complete graph_AB = true
  /\ acyclic graph_AB /\ ids_match graph_AB = true
  /\ exists g1 batch g2 batch',
       AdaptivePlanner.next_batch 3 graph_AB = (g1, Ok batch)
       /\ (forall x, In x batch ->
             status_of (mark_batch batch g1) (id x) = Some IN_PROGRESS)
       /\ AdaptivePlanner.next_batch 3 (mark_batch batch g1) = (g2, Ok batch')
       /\ forall x x', In x batch -> In x' batch' -> id x <> id x'.
Proof.
  assert (H1 : well_formed graph_AB = true) by reflexivity.
  assert (H2 : goal_complete graph_AB = true) by reflexivity.
  assert (H3 : acyclic graph_AB) by reflexivity.
  assert (H4 : ids_match graph_AB = true) by reflexivity.
  repeat (split; [assumption|]).
  exact (next_batch_not_again graph_AB 3 3 H1 H2 H3 H4).
Defined.

(** ** Listing the goals *)

Lemma goals_of_goal_nodes gs : GoalGraph.goals_of (goal_nodes gs) = Ok gs.
Proof.
  induction gs as [|x r IH]; auto.
  change (goal_nodes (x :: r)) with ((id x, Some x) :: goal_nodes r).
  simpl. now rewrite IH.
Qed.

Lemma lookup_goal_nodes gs x :
  NoDup (map id gs) -> In x gs -> lookup (id x) (goal_nodes gs) = Some (Some x).
Proof.
  intros Hnd Hin. apply lookup_of_in.
  - now rewrite keys_goal_nodes.
  - unfold goal_nodes. apply in_map_iff. now exists x.
Qed.

(** X9: goals added one by one under ids that differ come back from
    [goals] as they were added and in that order, each one is what [get]
    returns for its id, and the graph built this way is one in which every
    goal sits at the node of its id. *)
Theorem goals_in_insertion_order (gs : list Goal) :
  NoDup (map id gs) ->
  GoalGraph.goals (graph_of_goals gs) = (graph_of_goals gs, Ok gs)
  /\ (forall x, In x gs ->
        GoalGraph.get (id x) (graph_of_goals gs) = (graph_of_goals gs, Ok x))
  /\ ids_match (graph_of_goals gs) = true.
Proof.
  intros Hnd. rewrite (graph_of_goals_nodes gs Hnd).
  split; [|split].
  - unfold GoalGraph.goals. simpl. now rewrite goals_of_goal_nodes.
  - intros x Hx. unfold GoalGraph.get. apply node_goal_some.
    apply goal_at_lookup. simpl. now apply lookup_goal_nodes.
  - unfold ids_match. simpl. apply forallb_forall.
    intros kv Hin. unfold goal_nodes in Hin. apply in_map_iff in Hin.
    destruct Hin as (x & <- & _). simpl. apply String.eqb_refl.
Qed.

Lemma goals_in_insertion_order_witness :
  NoDup (map id five_goals)
  /\ GoalGraph.goals (graph_of_goals five_goals)
     = (graph_of_goals five_goals, Ok five_goals)
  /\ (forall x, In x five_goals ->
        GoalGraph.get (id x) (graph_of_goals five_goals)
        = (graph_of_goals five_goals, Ok x))
  /\ ids_match (graph_of_goals five_goals) = true.
Proof.
  assert (H1 : NoDup (map id five_goals)).
  { apply nodupb_NoDup. reflexivity. }
  split; [assumption|].
  exact (goals_in_insertion_order five_goals H1).
Defined.

(** Graphs built through the calls of the class hold every goal at the
    node of its id. *)
Lemma built_ids_match g : built g -> ids_match g = true.
Proof.
  induction 1 as [|g goal Hb IH|g a b Hb IH Ha Hbn Hok|g o Hb IH].
  - reflexivity.
  - unfold ids_match. simpl. now apply ids_match_upsert.
  - rewrite add_dependency_state. unfold ids_match.
    now rewrite add_edge_known_nodes.
  - destruct (built_ok g Hb) as (Hwf & Hgc & Hac).
    assert (Hr : ids_match (fst (GoalGraph.recompute_readiness g)) = true).
    { rewrite recompute_readiness_spec by auto. now apply ids_match_refresh. }
    destruct o as [m|m s| | |k]; simpl.
    + now apply ids_match_mark_in_progress.
    + unfold GoalGraph.mark_done. rewrite set_status_eval.
      destruct (goal_at g m) as [goal|] eqn:E; auto.
      simpl. now apply ids_match_put.
    + exact Hr.
    + destruct (passes_agree g) as [-> _]. exact Hr.
    + rewrite next_batch_state. exact Hr.
Qed.

(** ** The order and the size of a batch *)

Lemma same_key_leb a b :
  same_key a b = true ->
  AdaptivePlanner.key_leb (AdaptivePlanner.sort_key a) (AdaptivePlanner.sort_key b)
  = true.
Proof.
  unfold same_key, AdaptivePlanner.key_leb. intros H.
  apply andb_true_iff in H. destruct H as [H1 H2].
  apply Z.eqb_eq in H1, H2. rewrite H1, H2, Z.eqb_refl, Z.leb_refl.
  apply orb_true_r.
Qed.

Lemma same_key_trans y a b :
  same_key y a = true -> same_key y b = true -> same_key a b = true.
Proof.
  unfold same_key. intros H1 H2.
  apply andb_true_iff in H1, H2. destruct H1 as [A1 A2], H2 as [B1 B2].
  apply Z.eqb_eq in A1, A2, B1, B2.
  apply andb_true_iff. split; apply Z.eqb_eq; congruence.
Qed.

Lemma filter_insert_by_key y x l :
  filter (same_key y) (AdaptivePlanner.insert_by_key x l)
  = if same_key y x then x :: filter (same_key y) l else filter (same_key y) l.
Proof.
  induction l as [|z r IH].
  - reflexivity.
  - simpl.
    destruct (AdaptivePlanner.key_leb (AdaptivePlanner.sort_key x)
                                      (AdaptivePlanner.sort_key z)) eqn:E.
    + reflexivity.
    + simpl. rewrite IH.
      destruct (same_key y x) eqn:Ex; auto.
      destruct (same_key y z) eqn:Ez; auto.
      rewrite (same_key_leb x z (same_key_trans y x z Ex Ez)) in E. discriminate.
Qed.

(** The sort keeps goals of equal key in the order it found them. *)
Lemma sort_by_key_stable y l :
  filter (same_key y) (AdaptivePlanner.sort_by_key l) = filter (same_key y) l.
Proof.
  induction l as [|x r IH]; auto.
  change (AdaptivePlanner.sort_by_key (x :: r))
    with (AdaptivePlanner.insert_by_key x (AdaptivePlanner.sort_by_key r)).
  rewrite filter_insert_by_key, IH. reflexivity.
Qed.

Lemma filter_slice_to {A : Type} (f : A -> bool) k (l : list A) :
  exists rest, filter f l = filter f (AdaptivePlanner.slice_to k l) ++ rest.
Proof.
  unfold AdaptivePlanner.slice_to.
  destruct (0 <=? k)%Z;
    match goal with
    | |- context [firstn ?n l] =>
        exists (filter f (skipn n l));
        rewrite <- filter_app, firstn_skipn; reflexivity
    end.
Qed.

(** X11: ties are broken by the order of [ready_goals].  Among the goals
    that have the priority and the number of dependencies of a given goal,
    the batch holds the first ones that [ready_goals] returned, in that
    order: the sort is stable and the slice takes from the front. *)
Theorem next_batch_ties_in_ready_order (g g' : nx.DiGraph) (ready : list Goal)
    (k : Z) (y : Goal) :
  GoalGraph.ready_goals g = (g', Ok ready) ->
  exists batch rest,
    AdaptivePlanner.next_batch k g = (g', Ok batch)
    /\ filter (same_key y) ready = filter (same_key y) batch ++ rest.
Proof.
  intros Hr.
  destruct (filter_slice_to (same_key y) k (AdaptivePlanner.sort_by_key ready))
    as [rest Hrest].
  exists (AdaptivePlanner.slice_to k (AdaptivePlanner.sort_by_key ready)), rest.
  split.
  - unfold AdaptivePlanner.next_batch, bind. now rewrite Hr.
  - now rewrite <- Hrest, sort_by_key_stable.
Qed.

Lemma next_batch_ties_in_ready_order_witness :
  GoalGraph.ready_goals (graph_of_goals five_goals)
  = (fst (GoalGraph.ready_goals (graph_of_goals five_goals)),
     Ok (map (with_status READY) five_goals))
  /\ exists batch rest,
       AdaptivePlanner.next_batch 3 (graph_of_goals five_goals)
       = (fst (GoalGraph.ready_goals (graph_of_goals five_goals)), Ok batch)
       /\ filter (same_key (sample_goal "G0" "G0" LOW PENDING))
                 (map (with_status READY) five_goals)
          = filter (same_key (sample_goal "G0" "G0" LOW PENDING)) batch ++ rest.
Proof.
  assert (H1 : GoalGraph.ready_goals (graph_of_goals five_goals)
               = (fst (GoalGraph.ready_goals (graph_of_goals five_goals)),
                  Ok (map (with_status READY) five_goals))) by reflexivity.
  split; [assumption|].
  exact (next_batch_ties_in_ready_order _ _ _ 3
           (sample_goal "G0" "G0" LOW PENDING) H1).
Defined.

Lemma slice_to_exact_length {A : Type} (k : Z) (l : list A) :
  Z.of_nat (List.length (AdaptivePlanner.slice_to k l))
  = if (0 <=? k)%Z then Z.min k (Z.of_nat (List.length l))
    else Z.max 0 (Z.of_nat (List.length l) + k).
Proof.
  unfold AdaptivePlanner.slice_to.
  destruct (0 <=? k)%Z eqn:E; rewrite length_firstn.
  - apply Z.leb_le in E. lia.
  - apply Z.leb_gt in E. lia.
Qed.

(** X12: the size of a batch.  [next_batch(k)] withholds no ready goal: for
    [k >= 0] the batch has [k] goals, or all the ready goals when there are
    fewer; a negative [k] is a slice bound counted from the end, and the
    batch is then the ready goals without the last [-k] of them. *)
Theorem next_batch_size (g g' : nx.DiGraph) (ready : list Goal) (k : Z) :
  GoalGraph.ready_goals g = (g', Ok ready) ->
  exists batch,
    AdaptivePlanner.next_batch k g = (g', Ok batch)
    /\ Z.of_nat (List.length batch)
       = (if (0 <=? k)%Z then Z.min k (Z.of_nat (List.length ready))
          else Z.max 0 (Z.of_nat (List.length ready) + k))
    /\ exists rest, Permutation ready (batch ++ rest).
Proof.
  intros Hr.
  exists (AdaptivePlanner.slice_to k (AdaptivePlanner.sort_by_key ready)).
  split; [|split].
  - unfold AdaptivePlanner.next_batch, bind. now rewrite Hr.
  - rewrite slice_to_exact_length.
    now rewrite (Permutation_length (sort_by_key_perm ready)).
  - unfold AdaptivePlanner.slice_to.
    destruct (0 <=? k)%Z;
      match goal with
      | |- context [firstn ?n ?l] =>
          exists (skipn n l); rewrite firstn_skipn;
          apply Permutation_sym, sort_by_key_perm
      end.
Qed.

Lemma next_batch_size_witness :
  GoalGraph.ready_goals (graph_of_goals five_goals)
  = (fst (GoalGraph.ready_goals (graph_of_goals five_goals)),
     Ok (map (with_status READY) five_goals))
  /\ exists batch,
       AdaptivePlanner.next_batch (-2) (graph_of_goals five_goals)
       = (fst (GoalGraph.ready_goals (graph_of_goals five_goals)), Ok batch)
       /\ Z.of_nat (List.length batch)
          = (if (0 <=? -2)%Z
             then Z.min (-2) (Z.of_nat (List.length (map (with_status READY) five_goals)))
             else Z.max 0 (Z.of_nat (List.length (map (with_status READY) five_goals))
                           + -2))
       /\ exists rest,
            Permutation (map (with_status READY) five_goals) (batch ++ rest).
Proof.
  assert (H1 : GoalGraph.ready_goals (graph_of_goals five_goals)
               = (fst (GoalGraph.ready_goals (graph_of_goals five_goals)),
                  Ok (map (with_status READY) five_goals))) by reflexivity.
  split; [assumption|].
  exact (next_batch_size _ _ _ (-2) H1).
Defined.

(** ** A dependency that failed *)

Lemma run_graph_ops_keeps os : forall g n s,
  status_of g n = Some s -> GoalGraph.is_terminal s = true ->
  existsb (is_mark_done_of n) os = false ->
  status_of (run_graph_ops os g) n = Some s.
Proof.
  unfold run_graph_ops.
  induction os as [|o r IH]; intros g n s Hs Ht Hno; simpl in *; auto.
  apply orb_false_iff in Hno. destruct Hno as [Ho Hr].
  apply IH; auto. now apply run_graph_op_keeps.
Qed.

Lemma run_graph_ops_frame os : forall g,
  keys (nx.nodes (run_graph_ops os g)) = keys (nx.nodes g)
  /\ nx.edges (run_graph_ops os g) = nx.edges g.
Proof.
  unfold run_graph_ops.
  induction os as [|o r IH]; intros g; simpl; auto.
  destruct (IH (run_graph_op o g)) as [Hk He].
  destruct (run_graph_op_frame o g) as [Hk' He'].
  split; congruence.
Qed.

(** X23: a goal behind a failed dependency is never handed out.  Once a
    dependency of a goal is FAILED, and as long as no [mark_done] is called
    on that dependency again, whatever status calls and passes follow, the
    goal is not READY after [next_batch] and is not in the batch. *)
Theorem failed_dependency_blocks (g : nx.DiGraph) (os : list graph_op)
    (p n : string) (k : Z) :
  well_formed g = true -> goal_complete g = true -> acyclic g ->
  status_of g p = Some FAILED -> In p (nx.predecessors g n) ->
  existsb (is_mark_done_of p) os = false ->
  exists g' batch,
    AdaptivePlanner.next_batch k (run_graph_ops os g) = (g', Ok batch)
    /\ status_of g' n <> Some READY
    /\ forall x, In x batch -> goal_at g' n <> Some x.
Proof.
  intros Hwf Hgc Hac Hp Hin Hno.
  destruct (run_graph_ops_invariants os g Hwf Hgc Hac) as (Hwf1 & Hgc1 & Hac1).
  pose proof (run_graph_ops_keeps os g p FAILED Hp eq_refl Hno) as Hp1.
  destruct (run_graph_ops_frame os g) as [Hk1 He1].
  set (g1 := run_graph_ops os g) in *.
  assert (Hin1 : In p (nx.predecessors g1 n)).
  { apply predecessors_in. rewrite He1. now apply predecessors_in. }
  assert (Hd : deps_done g1 n = false).
  { apply not_true_is_false. intros Hd. unfold deps_done in Hd.
    rewrite forallb_forall in Hd. specialize (Hd p Hin1).
    unfold is_done in Hd. rewrite Hp1 in Hd. discriminate. }
  assert (Hn : status_of (refresh g1) n <> Some READY).
  { unfold status_of. rewrite goal_at_refresh.
    destruct (goal_at g1 n) as [goal|]; simpl; [|discriminate].
    unfold refreshed. rewrite Hd.
    destruct (GoalGraph.is_settled (status goal)) eqn:Es; simpl.
    - intros H. injection H as H. rewrite H in Es. discriminate.
    - discriminate. }
  destruct (next_batch_members g1 k Hwf1 Hgc1 Hac1) as (batch & Hb & Hm).
  exists (refresh g1), batch. split; [exact Hb|]. split; [exact Hn|].
  intros x Hx Hg. destruct (Hm x Hx) as (n' & goal & _ & _ & _ & ->).
  apply Hn. unfold status_of. now rewrite Hg.
Qed.

(** ** The store: what is loaded, what is written, and what a sequence of
    calls leaves *)

Lemma load_lookup (f : SharedMemory.file) :
  keys (SharedMemory._state (SharedMemory._load_from_disk f))
  = ["logs"; "artifacts"; "metrics"]
  /\ lookup "logs" (SharedMemory._state (SharedMemory._load_from_disk f))
     = Some (adopted true (lookup "logs" (SharedMemory.top_level f)))
  /\ lookup "artifacts" (SharedMemory._state (SharedMemory._load_from_disk f))
     = Some (adopted false (lookup "artifacts" (SharedMemory.top_level f)))
  /\ lookup "metrics" (SharedMemory._state (SharedMemory._load_from_disk f))
     = Some (adopted false (lookup "metrics" (SharedMemory.top_level f))).
Proof.
  destruct f as [| |[| | | | |d]]; try (repeat split; reflexivity).
  unfold SharedMemory._load_from_disk, SharedMemory.top_level.
  destruct (lookup "logs" d) as [[]|];
    destruct (lookup "artifacts" d) as [[]|];
    destruct (lookup "metrics" d) as [[]|]; repeat split; reflexivity.
Qed.


Lemma is_owned_false k :
  SharedMemory.is_owned k = false ->
  k <> "logs" /\ k <> "artifacts" /\ k <> "metrics".
Proof.
  unfold SharedMemory.is_owned. intros H.
  apply orb_false_iff in H. destruct H as [H H3].
  apply orb_false_iff in H. destruct H as [H1 H2].
  apply String.eqb_neq in H1, H2, H3. auto.
Qed.


Lemma load_get_foreign f k default :
  SharedMemory.is_owned k = false ->
  SharedMemory.get k default (SharedMemory._load_from_disk f)
  = (SharedMemory._load_from_disk f, Ok default).
Proof.
  intros Hown. unfold SharedMemory.get, SharedMemory.dict_get.
  destruct (load_lookup f) as (Hk & _).
  assert (Hnone : lookup k (SharedMemory._state (SharedMemory._load_from_disk f))
                  = None).
  { apply lookup_none. rewrite Hk. simpl.
    apply is_owned_false in Hown. intuition congruence. }
  now rewrite Hnone.
Qed.

(** X13: a new store holds the three namespaces and nothing else, whatever
    the file is.  Each namespace is the one of the file when the file is a
    dictionary that has it with the right type (a list of logs, a
    dictionary of artifacts or metrics), and empty otherwise; no other key
    of the file is taken, so [get] of any other key returns the default. *)
Theorem load_from_disk_owned_only (f : SharedMemory.file) :
  keys (SharedMemory._state (SharedMemory._load_from_disk f))
  = ["logs"; "artifacts"; "metrics"]
  /\ lookup "logs" (SharedMemory._state (SharedMemory._load_from_disk f))
     = Some (adopted true (lookup "logs" (SharedMemory.top_level f)))
  /\ lookup "artifacts" (SharedMemory._state (SharedMemory._load_from_disk f))
     = Some (adopted false (lookup "artifacts" (SharedMemory.top_level f)))
  /\ lookup "metrics" (SharedMemory._state (SharedMemory._load_from_disk f))
     = Some (adopted false (lookup "metrics" (SharedMemory.top_level f)))
  /\ forall k default,
       SharedMemory.is_owned k = false ->
       SharedMemory.get k default (SharedMemory._load_from_disk f)
       = (SharedMemory._load_from_disk f, Ok default).
Proof.
  destruct (load_lookup f) as (Hk & Hl & Ha & Hm).
  repeat split; auto. intros k default. apply load_get_foreign.
Qed.






Section StoreSequences.
Variable int_of_str : string -> result Z.
Variable chars_of_str : string -> list json.
Variable dict_of_items : list json -> result (list (string * json)).

Let persist := SharedMemory._persist chars_of_str dict_of_items.
Let run_op := SharedMemory.run_op int_of_str chars_of_str dict_of_items.
Let run_ops := SharedMemory.run_ops int_of_str chars_of_str dict_of_items.





Lemma run_ops_cons o os s : run_ops (o :: os) s = run_ops os (fst (run_op o s)).
Proof. reflexivity. Qed.

(** The in-memory state a call leaves, read at one key. *)
Lemma run_op_lookup_logs o s l :
lookup "logs" (SharedMemory._state s) = Some (JList l) -> keeps_shape o = true ->
lookup "logs" (SharedMemory._state (fst (run_op o s)))
= Some (JList (l ++ appended [o])).
Proof.
intros Hl Hk. destruct s as [st f]. simpl in Hl. unfold run_op.
destruct o as [key value|item|name value|name inc];
  cbn [SharedMemory.run_op appended flat_map app keeps_shape] in *;
  rewrite ?app_nil_r.
- unfold SharedMemory.set. cbn [SharedMemory._state SharedMemory.disk].
  rewrite persist_state. cbn [SharedMemory._state].
  apply negb_true_iff, is_owned_false in Hk.
  rewrite lookup_upsert_ne; [exact Hl | intuition congruence].
- unfold SharedMemory.append_log. cbn [SharedMemory._state SharedMemory.disk].
  rewrite Hl, persist_state. cbn [SharedMemory._state]. apply lookup_upsert_eq.
- unfold SharedMemory.record_artifact. cbn [SharedMemory._state SharedMemory.disk].
  destruct (lookup "artifacts" st) as [[]|]; cbn [fst SharedMemory._state]; auto;
    rewrite persist_state; cbn [SharedMemory._state];
    rewrite lookup_upsert_ne; auto; discriminate.
- unfold SharedMemory.bump_metric.
  cbn [SharedMemory._state SharedMemory.disk].
  assert (Hst : lookup "logs"
                  match lookup "metrics" st with
                  | Some _ => st
                  | None => upsert "metrics" (JDict []) st
                  end = Some (JList l)).
  { destruct (lookup "metrics" st); auto.
    rewrite lookup_upsert_ne; auto; discriminate. }
  destruct (SharedMemory.dict_get "metrics" _ _); cbn [fst SharedMemory._state]; auto.
  destruct (SharedMemory.py_int int_of_str _); cbn [fst SharedMemory._state]; auto.
  rewrite persist_state. cbn [SharedMemory._state].
  rewrite lookup_upsert_ne; auto; discriminate.
Qed.

(** X16: the logs only grow.  Along any sequence of calls that do not
  [set] a namespace, returned or raised, the logs are the logs there were
  followed by the items of the [append_log] calls, in the order of the
  calls. *)
Theorem logs_append_only (os : list SharedMemory.op) (s : SharedMemory.store)
  (l : list json) :
lookup "logs" (SharedMemory._state s) = Some (JList l) ->
forallb keeps_shape os = true ->
SharedMemory.export_logs chars_of_str
  (SharedMemory.run_ops int_of_str chars_of_str dict_of_items os s)
= Ok (l ++ appended os).
Proof.
fold run_ops. revert s l.
induction os as [|o r IH]; intros s l Hl Hk.
- simpl. rewrite app_nil_r. unfold SharedMemory.export_logs, SharedMemory.dict_get.
  now rewrite Hl.
- simpl in Hk. apply andb_true_iff in Hk. destruct Hk as [Ho Hr].
  rewrite run_ops_cons.
  rewrite (IH _ _ (run_op_lookup_logs o s l Hl Ho) Hr).
  unfold appended. simpl. now rewrite app_nil_r, app_assoc.
Qed.
End StoreSequences.

Section StoreCounters.
Variable int_of_str : string -> result Z.
Variable chars_of_str : string -> list json.
Variable dict_of_items : list json -> result (list (string * json)).

Let run_op := SharedMemory.run_op int_of_str chars_of_str dict_of_items.
Let run_ops := SharedMemory.run_ops int_of_str chars_of_str dict_of_items.

Lemma counter_state s1 s2 name :
SharedMemory._state s1 = SharedMemory._state s2 -> counter s1 name = counter s2 name.
Proof. unfold counter. now intros ->. Qed.

Lemma counter_upsert_other st f key value name :
key <> "metrics" ->
counter {| SharedMemory._state := upsert key value st; SharedMemory.disk := f |} name
= counter {| SharedMemory._state := st; SharedMemory.disk := f |} name.
Proof.
intros H. unfold counter. cbn [SharedMemory._state].
rewrite lookup_upsert_ne by congruence. reflexivity.
Qed.

Lemma counter_persist s name :
counter (fst (SharedMemory._persist chars_of_str dict_of_items s)) name
= counter s name.
Proof. apply counter_state, persist_state. Qed.

Lemma run_op_counter o s name z :
counter s name = Some z -> keeps_shape o = true ->
counter (fst (run_op o s)) name = Some (z + bumped name [o])%Z.
Proof.
intros Hc Hk. destruct s as [st f]. unfold run_op.
destruct o as [key value|item|nm value|nm inc];
  cbn [SharedMemory.run_op bumped fold_right keeps_shape] in *;
  rewrite ?Z.add_0_r.
- unfold SharedMemory.set. cbn [SharedMemory._state SharedMemory.disk].
  rewrite counter_persist, counter_upsert_other; auto.
  apply negb_true_iff, is_owned_false in Hk. intuition congruence.
- unfold SharedMemory.append_log. cbn [SharedMemory._state SharedMemory.disk].
  destruct (lookup "logs" st) as [[]|]; cbn [fst]; auto;
    rewrite counter_persist, counter_upsert_other; auto; discriminate.
- unfold SharedMemory.record_artifact. cbn [SharedMemory._state SharedMemory.disk].
  destruct (lookup "artifacts" st) as [[]|]; cbn [fst]; auto;
    rewrite counter_persist, counter_upsert_other; auto; discriminate.
- unfold SharedMemory.bump_metric. cbn [SharedMemory._state SharedMemory.disk].
  unfold counter in Hc. cbn [SharedMemory._state] in Hc.
  assert (Hm : exists m,
             SharedMemory.dict_get "metrics" (JDict [])
               match lookup "metrics" st with
               | Some _ => st
               | None => upsert "metrics" (JDict []) st
               end = JDict m
             /\ lookup "metrics"
                  match lookup "metrics" st with
                  | Some _ => st
                  | None => upsert "metrics" (JDict []) st
                  end = Some (JDict m)
             /\ match lookup name m with
                | None => Some 0%Z
                | Some (JInt z0) => Some z0
                | Some _ => None
                end = Some z).
  { unfold SharedMemory.dict_get.
    destruct (lookup "metrics" st) as [[| | | | |m]|] eqn:Em; try discriminate.
    - exists m. now rewrite Em.
    - exists []. rewrite lookup_upsert_eq. auto. }
  destruct Hm as (m & -> & Hlm & Hz).
  set (st1 := match lookup "metrics" st with
              | Some _ => st
              | None => upsert "metrics" (JDict []) st
              end) in *.
  destruct (String.eqb_spec nm name) as [->|Hne].
  + assert (Hint : SharedMemory.py_int int_of_str
                     (SharedMemory.dict_get name (JInt 0) m) = Ok z).
    { unfold SharedMemory.dict_get.
      destruct (lookup name m) as [[]|]; try discriminate;
        injection Hz as <-; reflexivity. }
    rewrite Hint, counter_persist. unfold counter. cbn [SharedMemory._state].
    rewrite !lookup_upsert_eq. f_equal; lia.
  + rewrite Z.add_0_r.
    destruct (SharedMemory.py_int int_of_str _) as [v|e]; cbn [fst].
    * rewrite counter_persist. unfold counter. cbn [SharedMemory._state].
      rewrite lookup_upsert_eq, lookup_upsert_ne by congruence. exact Hz.
    * unfold counter. cbn [SharedMemory._state]. now rewrite Hlm.
Qed.

(** X17: a counter is the sum of its increments.  Along any sequence of
  calls that do not [set] a namespace, returned or raised, the counter of
  a name ends at its value at the start, 0 for a counter that was not
  there, plus every [inc] that [bump_metric] was called with for that name,
  negative ones included. *)
Theorem counter_sums_increments (os : list SharedMemory.op) (s : SharedMemory.store)
  (name : string) (z : Z) :
counter s name = Some z ->
forallb keeps_shape os = true ->
counter (SharedMemory.run_ops int_of_str chars_of_str dict_of_items os s) name
= Some (z + bumped name os)%Z.
Proof.
fold run_ops. revert s z.
induction os as [|o r IH]; intros s z Hc Hk.
- simpl. now rewrite Z.add_0_r.
- simpl in Hk. apply andb_true_iff in Hk. destruct Hk as [Ho Hr].
  change (run_ops (o :: r) s) with (run_ops r (fst (run_op o s))).
  rewrite (IH _ _ (run_op_counter o s name z Hc Ho) Hr). f_equal.
  destruct o as [key value|item|nm value|nm inc]; simpl; try lia.
  destruct (String.eqb nm name); lia.
Qed.

(** The artifacts a call leaves. *)
Lemma run_op_artifacts o s d :
lookup "artifacts" (SharedMemory._state s) = Some (JDict d) ->
keeps_shape o = true ->
exists d',
  lookup "artifacts" (SharedMemory._state (fst (run_op o s))) = Some (JDict d')
  /\ forall name, lookup name d' = recorded name [o] (lookup name d).
Proof.
intros Ha Hk. destruct s as [st f]. cbn [SharedMemory._state] in Ha.
unfold run_op.
destruct o as [key value|item|nm value|nm inc];
  cbn [SharedMemory.run_op recorded fold_left keeps_shape] in *.
- exists d. split; auto.
  unfold SharedMemory.set. cbn [SharedMemory._state SharedMemory.disk].
  rewrite persist_state. cbn [SharedMemory._state].
  apply negb_true_iff, is_owned_false in Hk.
  rewrite lookup_upsert_ne; [exact Ha | intuition congruence].
- exists d. split; auto.
  unfold SharedMemory.append_log. cbn [SharedMemory._state SharedMemory.disk].
  destruct (lookup "logs" st) as [[]|]; cbn [fst SharedMemory._state]; auto;
    rewrite persist_state; cbn [SharedMemory._state];
    rewrite lookup_upsert_ne; auto; discriminate.
- exists (upsert nm value d). split.
  + unfold SharedMemory.record_artifact.
    cbn [SharedMemory._state SharedMemory.disk].
    rewrite Ha, persist_state. cbn [SharedMemory._state].
    apply lookup_upsert_eq.
  + intros name. destruct (String.eqb_spec nm name) as [->|Hne].
    * apply lookup_upsert_eq.
    * apply lookup_upsert_ne. congruence.
- exists d. split; auto.
  unfold SharedMemory.bump_metric. cbn [SharedMemory._state SharedMemory.disk].
  assert (Hst : lookup "artifacts"
                  match lookup "metrics" st with
                  | Some _ => st
                  | None => upsert "metrics" (JDict []) st
                  end = Some (JDict d)).
  { destruct (lookup "metrics" st); auto.
    rewrite lookup_upsert_ne; auto; discriminate. }
  destruct (SharedMemory.dict_get "metrics" _ _); cbn [fst SharedMemory._state]; auto.
  destruct (SharedMemory.py_int int_of_str _); cbn [fst SharedMemory._state]; auto.
  rewrite persist_state. cbn [SharedMemory._state].
  rewrite lookup_upsert_ne; auto; discriminate.
Qed.

(** X18: the last [record_artifact] wins, and touches one name.  Along any
  sequence of calls that do not [set] a namespace, returned or raised, an
  artifact holds the value of the last [record_artifact] under its name,
  and the value it had when no call recorded under that name. *)
Theorem artifacts_last_write_wins (os : list SharedMemory.op)
  (s : SharedMemory.store) (d : list (string * json)) :
lookup "artifacts" (SharedMemory._state s) = Some (JDict d) ->
forallb keeps_shape os = true ->
exists d',
  lookup "artifacts"
    (SharedMemory._state
       (SharedMemory.run_ops int_of_str chars_of_str dict_of_items os s))
  = Some (JDict d')
  /\ forall name, lookup name d' = recorded name os (lookup name d).
Proof.
fold run_ops. revert s d.
induction os as [|o r IH]; intros s d Ha Hk.
- exists d. split; auto.
- simpl in Hk. apply andb_true_iff in Hk. destruct Hk as [Ho Hr].
  change (run_ops (o :: r) s) with (run_ops r (fst (run_op o s))).
  destruct (run_op_artifacts o s d Ha Ho) as (d1 & Hd1 & Hn1).
  destruct (IH _ d1 Hd1 Hr) as (d' & Hd' & Hn').
  exists d'. split; auto. intros name. rewrite Hn', Hn1. reflexivity.
Qed.
End StoreCounters.

(** ** The snapshot file of the orchestrator *)


Section Snapshot.
Variable int_of_str : string -> result Z.
Variable chars_of_str : string -> list json.
Variable dict_of_items : list json -> result (list (string * json)).

Let run_op := SharedMemory.run_op int_of_str chars_of_str dict_of_items.




End Snapshot.

(** ** The tool registry *)

Section RegistryFacts.
Variable Tool : Type.
Variable name : Tool -> string.
Variable lower : string -> string.

Let register := ToolRegistry.register Tool name lower.
Let get := ToolRegistry.get Tool lower.

Lemma register_lookup tool r k :
lookup k (fst (register tool r))
= match lookup k r with
  | Some t => Some t
  | None => if String.eqb k (lower (name tool)) then Some tool else None
  end.
Proof.
unfold register, ToolRegistry.register, has_key.
destruct (lookup (lower (name tool)) r) as [t0|] eqn:E; cbn [fst].
- destruct (lookup k r) eqn:Ek; auto.
  destruct (String.eqb_spec k (lower (name tool))) as [->|]; congruence.
- destruct (String.eqb_spec k (lower (name tool))) as [->|Hne].
  + now rewrite lookup_upsert_eq, E.
  + rewrite lookup_upsert_ne by auto. now destruct (lookup k r).
Qed.

Lemma register_all_lookup tools : forall r k,
lookup k (register_all name lower tools r)
= match lookup k r with
  | Some t => Some t
  | None => find (fun t => String.eqb k (lower (name t))) tools
  end.
Proof.
unfold register_all.
induction tools as [|tool rest IH]; intros r k; simpl.
- now destruct (lookup k r).
- rewrite IH. fold register. rewrite register_lookup.
  destruct (lookup k r); auto.
  now destruct (String.eqb k (lower (name tool))).
Qed.

Lemma register_keys_nodup tool r :
NoDup (keys r) -> NoDup (keys (fst (register tool r))).
Proof.
intros H. unfold register, ToolRegistry.register.
destruct (has_key (lower (name tool)) r) eqn:E; cbn [fst]; auto.
rewrite keys_upsert_absent.
- apply nodup_snoc; auto. intros Hin. apply has_key_in in Hin. congruence.
- intros Hin. apply has_key_in in Hin. congruence.
Qed.

Lemma register_all_nodup tools : forall r,
NoDup (keys r) -> NoDup (keys (register_all name lower tools r)).
Proof.
unfold register_all.
induction tools as [|tool rest IH]; intros r H; simpl; auto.
apply IH. now apply register_keys_nodup.
Qed.

(** X21: the first registration of a name wins, whatever the case of its
  letters.  [register] raises [ValueError] and leaves the registry as it
  was when the lowered name is taken, and stores the tool otherwise; so
  after any sequence of [register] calls, [get] returns the first tool
  that was registered under a name equal to the requested one once both
  are lowered, and raises [KeyError] when there is none. *)
Theorem registry_first_registration_wins (tools : list Tool) (tool : Tool)
  (nm : string) :
ToolRegistry.get Tool lower nm (register_all name lower tools [])
= match find (fun t => String.eqb (lower nm) (lower (name t))) tools with
  | Some t => Ok t
  | None => Raise KeyError
  end
/\ ToolRegistry.register Tool name lower tool (register_all name lower tools [])
   = if existsb (fun t => String.eqb (lower (name tool)) (lower (name t))) tools
     then (register_all name lower tools [], Raise ValueError)
     else (register_all name lower (tools ++ [tool]) [], Ok tt).
Proof.
split.
- unfold ToolRegistry.get. rewrite register_all_lookup. simpl.
  now destruct (find _ tools).
- unfold ToolRegistry.register, has_key. rewrite register_all_lookup. simpl.
  destruct (find (fun t => String.eqb (lower (name tool)) (lower (name t))) tools)
    as [t|] eqn:E.
  + apply find_some in E. destruct E as [Hin Heq].
    assert (Hex : existsb (fun t => String.eqb (lower (name tool)) (lower (name t)))
                    tools = true).
    { apply existsb_exists. now exists t. }
    now rewrite Hex.
  + assert (Hex : existsb (fun t => String.eqb (lower (name tool)) (lower (name t)))
                    tools = false).
    { apply not_true_is_false. intros H. apply existsb_exists in H.
      destruct H as (t & Hin & Heq).
      now rewrite (find_none _ _ E t Hin) in Heq. }
    rewrite Hex. f_equal. unfold register_all at 2. rewrite fold_left_app.
    simpl. fold (register_all name lower tools []).
    unfold ToolRegistry.register, has_key.
    rewrite register_all_lookup. simpl. now rewrite E.
Qed.

Lemma insert_sorted_perm x l : Permutation (ToolRegistry.insert_sorted x l) (x :: l).
Proof.
induction l as [|y r IH]; simpl; auto.
destruct (String.leb x y); auto.
rewrite IH. apply perm_swap.
Qed.

Lemma sorted_perm l : Permutation (ToolRegistry.sorted l) l.
Proof.
induction l as [|x r IH]; simpl; auto.
now rewrite insert_sorted_perm, IH.
Qed.

Lemma insert_sorted_sorted x l :
Sorted (fun a b => String.leb a b = true) l ->
Sorted (fun a b => String.leb a b = true) (ToolRegistry.insert_sorted x l).
Proof.
induction l as [|y r IH]; intros H; simpl.
- constructor; constructor.
- destruct (String.leb x y) eqn:E.
  + constructor; auto.
  + inversion H as [|? ? Hs Hh]. subst. constructor; auto.
    assert (Hyx : String.leb y x = true).
    { destruct (String.leb_total x y); congruence. }
    destruct r as [|z r']; simpl.
    * constructor. exact Hyx.
    * destruct (String.leb x z); constructor; auto.
      inversion Hh. assumption.
Qed.

Lemma sorted_sorted l :
Sorted (fun a b => String.leb a b = true) (ToolRegistry.sorted l).
Proof.
induction l as [|x r IH]; simpl; [constructor|].
now apply insert_sorted_sorted.
Qed.

(** X22: [list] names every registered tool once, in ascending order.
  After any sequence of [register] calls the list is sorted, has no
  name twice, and holds exactly the lowered names of the tools given. *)
Theorem registry_list_sorted_names (tools : list Tool) :
Sorted (fun a b => String.leb a b = true)
       (ToolRegistry.list_ Tool (register_all name lower tools []))
/\ NoDup (ToolRegistry.list_ Tool (register_all name lower tools []))
/\ forall k,
     In k (ToolRegistry.list_ Tool (register_all name lower tools []))
     <-> exists t, In t tools /\ lower (name t) = k.
Proof.
unfold ToolRegistry.list_. split; [apply sorted_sorted|]. split.
- apply (Permutation_NoDup (Permutation_sym (sorted_perm _))).
  apply register_all_nodup. constructor.
- intros k. split.
  + intros Hin. apply (Permutation_in k (sorted_perm _)) in Hin.
    apply lookup_in_keys in Hin. rewrite register_all_lookup in Hin. simpl in Hin.
    destruct (find _ tools) as [t|] eqn:E; [|congruence].
    apply find_some in E. destruct E as [Ht Heq].
    apply String.eqb_eq in Heq. now exists t.
  + intros (t & Ht & <-).
    apply (Permutation_in _ (Permutation_sym (sorted_perm _))).
    apply lookup_in_keys. rewrite register_all_lookup. simpl.
    destruct (find _ tools) as [t'|] eqn:E; [congruence|].
    pose proof (find_none _ _ E t Ht) as Hn. simpl in Hn.
    now rewrite String.eqb_refl in Hn.
Qed.
End RegistryFacts.

(** ** Reading the dependencies back *)

Lemma memb_predecessors g a b :
  memb b (nx.predecessors g a) = nx.has_edge g b a.
Proof.
  unfold nx.predecessors, nx.has_edge.
  induction (nx.edges g) as [|[u v] r IH]; auto.
  simpl. destruct (String.eqb_spec v a) as [->|Hv]; simpl.
  - rewrite IH, andb_true_r. now rewrite (String.eqb_sym b u).
  - rewrite IH, andb_false_r. reflexivity.
Qed.

Lemma predecessors_add_edge g u v n :
  nx.predecessors (nx.add_edge g u v) n
  = if String.eqb v n && negb (nx.has_edge g u v)
    then nx.predecessors g n ++ [u]
    else nx.predecessors g n.
Proof.
  unfold nx.predecessors at 1. rewrite edges_add_edge.
  destruct (nx.has_edge g u v); simpl.
  - now rewrite andb_false_r.
  - rewrite andb_true_r, filter_app, map_app. simpl.
    destruct (String.eqb v n); simpl; [reflexivity|apply app_nil_r].
Qed.

(** X25: [predecessors] reads back what [add_dependency] put in.  After
    [add_dependency(a, b)], returned or raised, [predecessors(a)] is the
    list it was with [b] added at the end, or the list it was when [b] was
    in it already; the predecessors of every other node are as they were;
    and [predecessors] of an id that is not a node raises
    [NetworkXError]. *)
Theorem predecessors_after_add_dependency (g : nx.DiGraph) (a b n : string) :
  GoalGraph.predecessors a (fst (GoalGraph.add_dependency a b g))
  = (fst (GoalGraph.add_dependency a b g),
     Ok (if memb b (nx.predecessors g a) then nx.predecessors g a
         else nx.predecessors g a ++ [b]))
  /\ (n <> a ->
      nx.predecessors (fst (GoalGraph.add_dependency a b g)) n
      = nx.predecessors g n)
  /\ (nx.has_node g n = false ->
      GoalGraph.predecessors n g = (g, Raise NetworkXError)).
Proof.
  rewrite add_dependency_state. split; [|split].
  - unfold GoalGraph.predecessors, nx.predecessors_of, nx.has_node.
    cbn [nx.nodes nx.add_edge]. rewrite has_key_touch_same.
    rewrite predecessors_add_edge, String.eqb_refl, memb_predecessors.
    now destruct (nx.has_edge g b a).
  - intros Hne. rewrite predecessors_add_edge.
    destruct (String.eqb_spec a n) as [->|_]; [congruence|reflexivity].
  - intros Hn. unfold GoalGraph.predecessors, nx.predecessors_of.
    now rewrite Hn.
Qed.

(** ** The shape of a slug *)

Lemma last_is_dash_snoc s c : last_is_dash (s ++ [c]) = (c =? Slug.dash)%N.
Proof.
  induction s as [|a r IH]; auto.
  simpl. destruct (r ++ [c]) eqn:E; [|exact IH].
  now destruct r.
Qed.

Lemma no_double_dash_snoc s c :
  no_double_dash (s ++ [c])
  = no_double_dash s && negb (last_is_dash s && (c =? Slug.dash)%N).
Proof.
  induction s as [|a r IH]; auto.
  destruct r as [|b r'].
  - simpl. rewrite andb_true_r. reflexivity.
  - change (no_double_dash ((a :: b :: r') ++ [c]))
      with (negb ((a =? Slug.dash)%N && (b =? Slug.dash)%N)
            && no_double_dash ((b :: r') ++ [c])).
    rewrite IH.
    change (no_double_dash (a :: b :: r'))
      with (negb ((a =? Slug.dash)%N && (b =? Slug.dash)%N)
            && no_double_dash (b :: r')).
    change (last_is_dash (a :: b :: r')) with (last_is_dash (b :: r')).
    now rewrite andb_assoc.
Qed.

Lemma no_double_dash_app_l s t : no_double_dash (s ++ t) = true -> no_double_dash s = true.
Proof.
  induction s as [|a r IH]; auto.
  destruct r as [|b r']; auto.
  change (no_double_dash ((a :: b :: r') ++ t))
    with (negb ((a =? Slug.dash)%N && (b =? Slug.dash)%N)
          && no_double_dash ((b :: r') ++ t)).
  change (no_double_dash (a :: b :: r'))
    with (negb ((a =? Slug.dash)%N && (b =? Slug.dash)%N)
          && no_double_dash (b :: r')).
  intros H. apply andb_true_iff in H. destruct H as [H1 H2].
  rewrite H1. now apply IH.
Qed.

Lemma no_double_dash_app_r s t : no_double_dash (s ++ t) = true -> no_double_dash t = true.
Proof.
  induction s as [|a r IH]; auto.
  intros H. apply IH. destruct r as [|b r'].
  - simpl in *. destruct t; auto. apply andb_true_iff in H. tauto.
  - change (no_double_dash ((a :: b :: r') ++ t))
      with (negb ((a =? Slug.dash)%N && (b =? Slug.dash)%N)
            && no_double_dash ((b :: r') ++ t)) in H.
    apply andb_true_iff in H. tauto.
Qed.

Lemma no_double_dash_spec s :
  no_double_dash s = true -> forall l1 l2, s <> l1 ++ Slug.dash :: Slug.dash :: l2.
Proof.
  intros H l1 l2 ->. apply no_double_dash_app_r in H. simpl in H.
  discriminate.
Qed.

Lemma lstrip_dash_suffix s : exists a, s = a ++ Slug.lstrip_dash s.
Proof.
  induction s as [|c r [a IH]]; simpl.
  - now exists [].
  - destruct (c =? Slug.dash)%N.
    + exists (c :: a). simpl. now rewrite <- IH.
    + now exists [].
Qed.

Lemma lstrip_dash_head s : hd_error (Slug.lstrip_dash s) <> Some Slug.dash.
Proof.
  induction s as [|c r IH]; simpl; [discriminate|].
  destruct (c =? Slug.dash)%N eqn:E; auto.
  simpl. intros H. injection H as ->. now rewrite N.eqb_refl in E.
Qed.

Lemma last_is_dash_rev s :
  last_is_dash s = true <-> hd_error (rev s) = Some Slug.dash.
Proof.
  destruct s as [|c r] using rev_ind; simpl.
  - split; discriminate.
  - rewrite last_is_dash_snoc, rev_app_distr. simpl. rewrite N.eqb_eq.
    split; congruence.
Qed.

(** [strip("-")] cuts a piece out of the string that neither starts nor
    ends with a dash. *)
Lemma strip_dash_spec s :
  exists a b,
    s = a ++ Slug.strip_dash s ++ b
    /\ last_is_dash (Slug.strip_dash s) = false
    /\ (hd_error (Slug.lstrip_dash s) <> Some Slug.dash ->
        hd_error (Slug.strip_dash s) <> Some Slug.dash).
Proof.
  unfold Slug.strip_dash.
  destruct (lstrip_dash_suffix s) as [a Ha].
  destruct (lstrip_dash_suffix (rev (Slug.lstrip_dash s))) as [b Hb].
  set (t := Slug.lstrip_dash s) in *.
  set (u := Slug.lstrip_dash (rev t)) in *.
  assert (Ht : t = rev u ++ rev b).
  { rewrite <- (rev_involutive t), Hb, rev_app_distr. reflexivity. }
  exists a, (rev b). split; [|split].
  - now rewrite <- Ht.
  - apply not_true_is_false. intros H. apply last_is_dash_rev in H.
    rewrite rev_involutive in H. now apply (lstrip_dash_head (rev t)).
  - intros Hh. rewrite Ht in Hh. destruct (rev u); [discriminate|exact Hh].
Qed.

Section SlugFacts.
Variable isalnum : N -> bool.
Variable prepare : string -> bool -> list N.
Hypothesis dash_not_alnum : isalnum Slug.dash = false.

(** What holds of [out] and [prev_dash] all along the loop. *)
Lemma slug_loop_invariant chars : forall out prev_dash,
Forall (fun c => isalnum c = true \/ c = Slug.dash) out ->
no_double_dash out = true ->
hd_error out <> Some Slug.dash ->
(last_is_dash out = true -> prev_dash = true) ->
Forall (fun c => isalnum c = true \/ c = Slug.dash)
       (Slug.slug_loop isalnum chars out prev_dash)
/\ no_double_dash (Slug.slug_loop isalnum chars out prev_dash) = true
/\ hd_error (Slug.slug_loop isalnum chars out prev_dash) <> Some Slug.dash.
Proof.
induction chars as [|ch rest IH]; intros out pd Hall Hnd Hhd Hlast; simpl.
- auto.
- destruct (isalnum ch) eqn:Ea.
  + assert (Hch : (ch =? Slug.dash)%N = false).
    { apply N.eqb_neq. intros ->. congruence. }
    apply IH.
    * apply Forall_app. split; auto.
    * rewrite no_double_dash_snoc, Hnd, Hch, andb_false_r. reflexivity.
    * destruct out; simpl in *; auto.
      intros H. injection H as ->. now rewrite N.eqb_refl in Hch.
    * rewrite last_is_dash_snoc, Hch. discriminate.
  + destruct (Slug.is_separator ch); [|now apply IH].
    destruct out as [|c r]; [now apply IH|].
    destruct pd; cbn [negb]; [now apply IH|].
    apply IH.
    * apply Forall_app. split; auto.
    * rewrite no_double_dash_snoc, Hnd.
      destruct (last_is_dash (c :: r)); [|reflexivity].
      now specialize (Hlast eq_refl).
    * exact Hhd.
    * reflexivity.
Qed.

(** X24: the shape of a slug.  Whatever the text, the slug holds only
  alphanumeric characters and dashes, never two dashes in a row, and
  neither starts nor ends with a dash. *)
Theorem slugify_shape (text : string) (allow_unicode : bool) :
Forall (fun c => isalnum c = true \/ c = Slug.dash)
       (Slug.slugify isalnum prepare text allow_unicode)
/\ (forall l1 l2,
      Slug.slugify isalnum prepare text allow_unicode
      <> l1 ++ Slug.dash :: Slug.dash :: l2)
/\ hd_error (Slug.slugify isalnum prepare text allow_unicode) <> Some Slug.dash
/\ hd_error (rev (Slug.slugify isalnum prepare text allow_unicode))
   <> Some Slug.dash.
Proof.
unfold Slug.slugify.
assert (Hinv : Forall (fun c => isalnum c = true \/ c = Slug.dash)
                 (Slug.slug_loop isalnum (prepare text allow_unicode) [] false)
               /\ no_double_dash
                    (Slug.slug_loop isalnum (prepare text allow_unicode) [] false)
                  = true
               /\ hd_error
                    (Slug.slug_loop isalnum (prepare text allow_unicode) [] false)
                  <> Some Slug.dash).
{ apply slug_loop_invariant.
  - constructor.
  - reflexivity.
  - discriminate.
  - discriminate. }
destruct Hinv as (Hall & Hnd & Hhd).
set (out := Slug.slug_loop isalnum (prepare text allow_unicode) [] false) in *.
destruct (strip_dash_spec out) as (a & b & Hout & Hlast & Hfirst).
assert (Hl : Slug.lstrip_dash out = out).
{ destruct out as [|c r]; auto. simpl.
  destruct (c =? Slug.dash)%N eqn:E; auto.
  apply N.eqb_eq in E. subst c. now contradiction Hhd. }
rewrite Hl in Hfirst.
split; [|split; [|split]].
- rewrite Hout in Hall. apply Forall_app in Hall. destruct Hall as [_ Hall].
  apply Forall_app in Hall. tauto.
- apply no_double_dash_spec. rewrite Hout in Hnd.
  apply no_double_dash_app_r in Hnd. now apply no_double_dash_app_l in Hnd.
- auto.
- intros H. apply last_is_dash_rev in H. congruence.
Qed.
End SlugFacts.

(** ** The further properties at concrete states *)

(** [add_dependency(A, C)] before and after [add_goal(C)] at [graph_AB]. *)
Lemma add_dependency_before_add_goal_witness :
  well_formed graph_AB = true /\ nx.has_node graph_AB "A" = true
  /\ snd ((GoalGraph.add_dependency "A" (id goal_C) ;;; GoalGraph.add_goal goal_C)
            graph_AB)
     = snd ((GoalGraph.add_goal goal_C ;;; GoalGraph.add_dependency "A" (id goal_C))
              graph_AB)
  /\ (snd ((GoalGraph.add_dependency "A" (id goal_C) ;;; GoalGraph.add_goal goal_C)
             graph_AB) = Ok tt ->
      fst ((GoalGraph.add_dependency "A" (id goal_C) ;;; GoalGraph.add_goal goal_C)
             graph_AB)
      = fst ((GoalGraph.add_goal goal_C ;;; GoalGraph.add_dependency "A" (id goal_C))
               graph_AB)
      /\ goal_at (fst ((GoalGraph.add_dependency "A" (id goal_C) ;;;
                        GoalGraph.add_goal goal_C) graph_AB))
                 (id goal_C) = Some goal_C
      /\ In (id goal_C)
            (nx.predecessors
               (fst ((GoalGraph.add_dependency "A" (id goal_C) ;;;
                      GoalGraph.add_goal goal_C) graph_AB)) "A")
      /\ (goal_complete graph_AB = true ->
          goal_complete
            (fst ((GoalGraph.add_dependency "A" (id goal_C) ;;;
                   GoalGraph.add_goal goal_C) graph_AB))
          = true)).
Proof.
  assert (H1 : well_formed graph_AB = true) by reflexivity.
  assert (H2 : nx.has_node graph_AB "A" = true) by reflexivity.
  repeat (split; [assumption|]).
  exact (add_dependency_before_add_goal graph_AB goal_C "A" H1 H2).
Defined.


(** B behind the failed A, along a pass and a [mark_in_progress]. *)
Lemma failed_dependency_blocks_witness :
  well_formed graph_A_failed = true /\ goal_complete graph_A_failed = true
  /\ acyclic graph_A_failed
  /\ status_of graph_A_failed "A" = Some FAILED
  /\ In "A" (nx.predecessors graph_A_failed "B")
  /\ existsb (is_mark_done_of "A") [RecomputeReadiness; MarkInProgress "B"] = false
  /\ exists g' batch,
       AdaptivePlanner.next_batch 3
         (run_graph_ops [RecomputeReadiness; MarkInProgress "B"] graph_A_failed)
       = (g', Ok batch)
       /\ status_of g' "B" <> Some READY
       /\ forall x, In x batch -> goal_at g' "B" <> Some x.
Proof.
  assert (H1 : well_formed graph_A_failed = true) by reflexivity.
  assert (H2 : goal_complete graph_A_failed = true) by reflexivity.
  assert (H3 : acyclic graph_A_failed) by reflexivity.
  assert (H4 : status_of graph_A_failed "A" = Some FAILED) by reflexivity.
  assert (H5 : In "A" (nx.predecessors graph_A_failed "B")) by (simpl; auto).
  assert (H6 : existsb (is_mark_done_of "A")
                 [RecomputeReadiness; MarkInProgress "B"] = false) by reflexivity.
  repeat (split; [assumption|]).
  exact (failed_dependency_blocks graph_A_failed
           [RecomputeReadiness; MarkInProgress "B"] "A" "B" 3 H1 H2 H3 H4 H5 H6).
Defined.



(** The logs of [store_x5] along [sample_ops]. *)
Lemma logs_append_only_witness :
  lookup "logs" (SharedMemory._state store_x5) = Some (JList [])
  /\ forallb keeps_shape sample_ops = true
  /\ SharedMemory.export_logs no_chars_of_str
       (SharedMemory.run_ops no_int_of_str no_chars_of_str no_dict_of_items
          sample_ops store_x5)
     = Ok ([] ++ appended sample_ops).
Proof.
  assert (H1 : lookup "logs" (SharedMemory._state store_x5) = Some (JList []))
    by reflexivity.
  assert (H2 : forallb keeps_shape sample_ops = true) by reflexivity.
  repeat (split; [assumption|]).
  exact (logs_append_only no_int_of_str no_chars_of_str no_dict_of_items
           sample_ops store_x5 [] H1 H2).
Defined.

(** The counter [x] of [store_x5] along [sample_ops]: 5 + 2 - 3. *)
Lemma counter_sums_increments_witness :
  counter store_x5 "x" = Some 5%Z
  /\ forallb keeps_shape sample_ops = true
  /\ counter (SharedMemory.run_ops no_int_of_str no_chars_of_str no_dict_of_items
                sample_ops store_x5) "x"
     = Some (5 + bumped "x" sample_ops)%Z.
Proof.
  assert (H1 : counter store_x5 "x" = Some 5%Z) by reflexivity.
  assert (H2 : forallb keeps_shape sample_ops = true) by reflexivity.
  repeat (split; [assumption|]).
  exact (counter_sums_increments no_int_of_str no_chars_of_str no_dict_of_items
           sample_ops store_x5 "x" 5%Z H1 H2).
Defined.

(** The artifacts of [store_x5] along [sample_ops]. *)
Lemma artifacts_last_write_wins_witness :
  lookup "artifacts" (SharedMemory._state store_x5) = Some (JDict [])
  /\ forallb keeps_shape sample_ops = true
  /\ exists d',
       lookup "artifacts"
         (SharedMemory._state
            (SharedMemory.run_ops no_int_of_str no_chars_of_str no_dict_of_items
               sample_ops store_x5))
       = Some (JDict d')
       /\ forall name, lookup name d' = recorded name sample_ops (lookup name []).
Proof.
  assert (H1 : lookup "artifacts" (SharedMemory._state store_x5) = Some (JDict []))
    by reflexivity.
  assert (H2 : forallb keeps_shape sample_ops = true) by reflexivity.
  repeat (split; [assumption|]).
  exact (artifacts_last_write_wins no_int_of_str no_chars_of_str no_dict_of_items
           sample_ops store_x5 [] H1 H2).
Defined.


(** The slug of an ASCII text. *)
Lemma slugify_shape_witness :
  ascii_isalnum Slug.dash = false
  /\ Forall (fun c => ascii_isalnum c = true \/ c = Slug.dash)
            (Slug.slugify ascii_isalnum ascii_prepare "multiple   spaces-" false)
  /\ (forall l1 l2,
        Slug.slugify ascii_isalnum ascii_prepare "multiple   spaces-" false
        <> l1 ++ Slug.dash :: Slug.dash :: l2)
  /\ hd_error (Slug.slugify ascii_isalnum ascii_prepare "multiple   spaces-" false)
     <> Some Slug.dash
  /\ hd_error (rev (Slug.slugify ascii_isalnum ascii_prepare
                      "multiple   spaces-" false))
     <> Some Slug.dash.
Proof.
  assert (H1 : ascii_isalnum Slug.dash = false) by reflexivity.
  split; [assumption|].
  exact (slugify_shape ascii_isalnum ascii_prepare H1 "multiple   spaces-" false).
Defined.
